(** * DR4SR: sequence pooling, negative sampling, top-k masking and the
      training drivers, embedded from [models/layers.py],
      [model/basemodel.py], [model/gru4rec.py] and [model/metamodel.py].

    Tensors are nested lists carrying their shape where the source reads
    [.shape]; Python exceptions are the left summand of a [sum]; objects
    that are shared by reference live in an explicit store. *)

From Stdlib Require Import ZArith QArith Lia.
From stdpp Require Import gmap strings list fin_maps pretty.

Set Warnings "-register-all".

Local Open Scope Z_scope.

(** ** Python exceptions and fallible computations *)

Inductive exn : Type :=
| ValueError (msg : string)
| AssertionError
| AttributeError
| IndexError
| KeyError (key : string)
| RuntimeError
| TypeError
| UnboundLocalError
| ZeroDivisionError
| FileNotFoundError
| StopIteration
| KeyboardInterrupt.

Definition res (A : Type) : Type := exn + A.

Definition raise {A} (e : exn) : res A := inl e.
Definition ok {A} (a : A) : res A := inr a.

Definition rbind {A B} (m : res A) (k : A -> res B) : res B :=
  match m with
  | inl e => inl e
  | inr a => k a
  end.

Notation "'let*' x ':=' m 'in' k" := (rbind m (fun x => k))
  (at level 10, x pattern, m at level 100, k at level 200).

Fixpoint mapM_res {A B} (f : A -> res B) (l : list A) : res (list B) :=
  match l with
  | [] => ok []
  | a :: l' =>
      let* b := f a in
      let* bs := mapM_res f l' in
      ok (b :: bs)
  end.

(** Code that mutates [self] and may raise: the state reached when the
    exception leaves is kept, as the object stays mutated in Python. *)
Definition M (S A : Type) : Type := S -> res A * S.

Definition mret {S A} (a : A) : M S A := fun s => (ok a, s).
Definition mraise {S A} (e : exn) : M S A := fun s => (raise e, s).
Definition mbind' {S A B} (m : M S A) (k : A -> M S B) : M S B :=
  fun s =>
    match m s with
    | (inl e, s') => (inl e, s')
    | (inr a, s') => k a s'
    end.
Definition mget {S} : M S S := fun s => (ok s, s).
Definition mmodify {S} (f : S -> S) : M S unit := fun s => (ok tt, f s).
Definition mlift {S A} (r : res A) : M S A := fun s => (r, s).

Notation "'let!' x ':=' m 'in' k" := (mbind' m (fun x => k))
  (at level 10, x pattern, m at level 100, k at level 200).

(** [rows] is a rectangular [n] by [d] array. *)
Definition wf_rows {A} (n d : nat) (rows : list (list A)) : Prop :=
  length rows = n /\ Forall (fun r => length r = d) rows.

(** [x in [s1; ...]] on Python strings. *)
Definition str_in (s : string) (l : list string) : bool :=
  existsb (String.eqb s) l.

(** ** [models/layers.py]: SeqPoolingLayer *)

Module Layers.

Definition pooling_types : list string :=
  ["origin"; "mask"; "concat"; "sum"; "mean"; "max"; "last"].

Record SeqPoolingLayer : Type := mkSeqPoolingLayer {
  pooling_type : string;
  keepdim : bool
}.

(** [SeqPoolingLayer.__init__]: the message of the ValueError is the
    source's literal followed by the offending value. *)
Definition init (pooling_type : string) (keepdim : bool)
  : res SeqPoolingLayer :=
  if negb (str_in pooling_type pooling_types) then
    raise (ValueError
      ("pooling_type can only be one of ['origin', 'mask', 'concat', 'sum', 'mean', 'max', 'last']"
       +:+ "but " +:+ pooling_type +:+ " is given."))
  else
    ok (mkSeqPoolingLayer pooling_type keepdim).

(** *** Tensors over an abstract scalar

    The source computes on float32 tensors.  The pooling code only moves,
    masks, adds, multiplies, divides and compares entries, so the scalar
    type and its operations are parameters; rounding is whatever [add],
    [mul] and [div] do. *)

Section Forward.
Context {R : Type}.
Variables (zero eps : R).
Variables (add mul div : R -> R -> R).
Variable (of_int : Z -> R).
Variable (ltb : R -> R -> bool).

(** A tensor is its shape together with its entries; an entry list
    agrees with the shape when [wf2] / [wf3] holds. *)
Record Tensor2 : Type := mkT2 {
  shape2 : nat * nat;
  data2 : list (list R)
}.

Record Tensor3 : Type := mkT3 {
  shape3 : nat * nat * nat;
  data3 : list (list (list R))
}.

Definition wf2 (t : Tensor2) : Prop :=
  let '(n, d) := shape2 t in wf_rows n d (data2 t).

Definition wf3 (t : Tensor3) : Prop :=
  let '(n, l, d) := shape3 t in
  length (data3 t) = n /\ Forall (wf_rows l d) (data3 t).

(** What [forward] hands back: a 2-D tensor, a 3-D tensor, or the
    (values, indices) pair that [Tensor.max(dim=1)] returns. *)
Inductive output : Type :=
| Out2 (t : Tensor2)
| Out3 (t : Tensor3)
| OutMax (values : Tensor2) (indices : list (list nat)).

(** [weight.unsqueeze(-1) * batch_seq_embeddings], weight of shape [N, L]. *)
Definition apply_weight (w : list (list R)) (x : list (list (list R)))
  : list (list (list R)) :=
  zip_with (zip_with (fun wj v => map (mul wj) v)) w x.

(** [torch.arange(L)] *)
Definition arange (L : nat) : list Z := map Z.of_nat (seq 0 L).

(** Lines 37-41: [mask[i][j][k] = (arange(L)[j] >= seq_len[i])]. *)
Definition padding_mask (L D : nat) (seq_len : list Z)
  : list (list (list bool)) :=
  map (fun s => map (fun j => repeat (j >=? s) D) (arange L)) seq_len.

(** [Tensor.masked_fill(mask, value)] *)
Definition masked_fill (x : list (list (list R)))
    (mask : list (list (list bool))) (value : R) : list (list (list R)) :=
  zip_with (zip_with (zip_with
    (fun e (m : bool) => if m then value else e))) x mask.

(** What lines 37-42 do to one sequence whose first position is numbered
    [a]: positions at or beyond [s] are filled with zeros. *)
Definition fill_row (D : nat) (s : Z) (a : nat) (row : list (list R))
  : list (list R) :=
  zip_with (zip_with (fun e (m : bool) => if m then zero else e)) row
    (map (fun j => repeat (j >=? s) D) (map Z.of_nat (seq a (length row)))).

(** The valid prefix of every sequence: its first [seq_len[i]] positions. *)
Definition prefixes (x : list (list (list R))) (seq_len : list Z)
  : list (list (list R)) :=
  zip_with (fun row s => take (Z.to_nat s) row) x seq_len.

(** A sequence cut to its first [s] positions and filled up to [L]
    positions with zero vectors. *)
Definition zero_padded (L D : nat) (s : Z) (row : list (list R))
  : list (list R) :=
  take (Z.to_nat s) row ++ repeat (repeat zero D) (L - Z.to_nat s).

(** Lines 28-29 on their own: the batch scaled by the weight, if there
    is one. *)
Definition weighted (weight : option (list (list R)))
    (x : list (list (list R))) : list (list (list R)) :=
  match weight with
  | Some w => apply_weight w x
  | None => x
  end.

(** Elementwise sum of a list of [D]-vectors: one row of [sum(dim=1)]. *)
Definition vsum (D : nat) (vs : list (list R)) : list R :=
  foldl (zip_with add) (repeat zero D) vs.

(** One row of [max(dim=1)]: running maximum and its position, the
    first position winning ties. *)
Definition vmax_step (j : nat) (acc : list (R * nat)) (v : list R)
  : list (R * nat) :=
  zip_with (fun (a : R * nat) e => if ltb (fst a) e then (e, j) else a) acc v.

Fixpoint vmax_from (j : nat) (acc : list (R * nat)) (vs : list (list R))
  : list (R * nat) :=
  match vs with
  | [] => acc
  | v :: vs' => vmax_from (S j) (vmax_step j acc v) vs'
  end.

Definition vmax (vs : list (list R)) : list (R * nat) :=
  match vs with
  | [] => []
  | v :: vs' => vmax_from 1 (map (fun e => (e, 0%nat)) v) vs'
  end.

(** [x.max(dim=1)]: reducing an empty dimension is an IndexError. *)
Definition max_dim1 (N L D : nat) (x : list (list (list R))) : res output :=
  if (L =? 0)%nat then raise IndexError
  else
    let rows := map vmax x in
    ok (OutMax (mkT2 (N, D) (map (map fst) rows)) (map (map snd) rows)).

(** [x[mask_token]] for a boolean mask of shape [N, L]. *)
Definition bool_index (x : list (list (list R))) (m : list (list bool))
  : list (list R) :=
  concat (zip_with (fun xr mr =>
    concat (zip_with (fun v (b : bool) => if b then [v] else []) xr mr)) x m).

(** [x.gather(dim=1, index=(seq_len-1)...).squeeze(1)], one row. *)
Definition gather_last (L : nat) (row : list (list R)) (s : Z)
  : res (list R) :=
  let idx := s - 1 in
  if (0 <=? idx) && (idx <? Z.of_nat L) then
    match row !! Z.to_nat idx with
    | Some v => ok v
    | None => raise RuntimeError
    end
  else raise RuntimeError.

Fixpoint gather_rows (L : nat) (x : list (list (list R))) (seq_len : list Z)
  : res (list (list R)) :=
  match seq_len with
  | [] => ok []
  | s :: seq_len' =>
      match x with
      | [] => raise RuntimeError
      | row :: x' =>
          let* v := gather_last L row s in
          let* vs := gather_rows L x' seq_len' in
          ok (v :: vs)
      end
  end.

(** Lines 65-67 on the whole batch.  An index without entries, as it
    is for [D = 0], is not checked against the batch: the result then
    has one empty row for every entry of [seq_len]. *)
Definition gather (L D : nat) (x : list (list (list R))) (seq_len : list Z)
  : res (list (list R)) :=
  if (D =? 0)%nat then ok (map (fun _ => []) seq_len)
  else gather_rows L x seq_len.

(** [SeqPoolingLayer.forward] on a 3-D batch ([dim() == 4] is false, so
    [_need_reshape] stays false and [result] is returned as it is).
    [seq_len] has shape [N], [weight] shape [N, L], [mask_token] shape
    [N, L], as the source's comments require.  [reshape(N, -1)] cannot
    infer the second dimension when [N = 0], which is a RuntimeError;
    [result] is unbound when no branch assigns it. *)
Definition forward (self : SeqPoolingLayer) (batch_seq_embeddings : Tensor3)
    (seq_len : list Z) (weight : option (list (list R)))
    (mask_token : option (list (list bool))) : res output :=
  let '(N, L, D) := shape3 batch_seq_embeddings in
  let x :=
    match weight with
    | Some w => apply_weight w (data3 batch_seq_embeddings)
    | None => data3 batch_seq_embeddings
    end in
  let ty := pooling_type self in
  if String.eqb ty "mask" then
    match mask_token with
    | None => raise AssertionError
    | Some m =>
        let sel := bool_index x m in
        ok (Out2 (mkT2 (length sel, D) sel))
    end
  else if str_in ty ["origin"; "concat"; "mean"; "sum"; "max"] then
    let mask := padding_mask L D seq_len in
    let x := masked_fill x mask zero in
    if String.eqb ty "origin" then
      ok (Out3 (mkT3 (N, L, D) x))
    else if str_in ty ["concat"; "max"] then
      if negb (keepdim self) then
        if String.eqb ty "concat" then
          if (N =? 0)%nat then raise RuntimeError
          else ok (Out2 (mkT2 (N, (L * D)%nat) (map (fun r => concat r) x)))
        else max_dim1 N L D x
      else
        if String.eqb ty "concat" then
          if (N =? 0)%nat then raise RuntimeError
          else ok (Out3 (mkT3 (N, 1%nat, (L * D)%nat)
                          (map (fun r => [concat r]) x)))
        else
          let* _ := max_dim1 N L D x in
          raise AttributeError
    else if str_in ty ["mean"; "sum"] then
      if String.eqb ty "sum" then
        if keepdim self then
          ok (Out3 (mkT3 (N, 1%nat, D) (map (fun r => [vsum D r]) x)))
        else
          ok (Out2 (mkT2 (N, D) (map (vsum D) x)))
      else
        if keepdim self then
          ok (Out3 (mkT3 (N, 1%nat, D)
            (zip_with (fun r s =>
               [map (fun e => div e (add (of_int s) eps)) (vsum D r)])
               x seq_len)))
        else
          ok (Out2 (mkT2 (N, D)
            (zip_with (fun r s => map (fun e => div e (of_int s)) (vsum D r))
               x seq_len)))
    else raise UnboundLocalError
  else if String.eqb ty "last" then
    let* rows := gather L D x seq_len in
    if negb (keepdim self) then
      ok (Out2 (mkT2 (length rows, D) rows))
    else
      ok (Out3 (mkT3 (length rows, 1%nat, D) (map (fun v => [v]) rows)))
  else raise UnboundLocalError.

End Forward.

End Layers.

(** ** Exact rationals as a scalar instance

    Used to run the tensor code on concrete inputs; [eps] is
    [torch.finfo(torch.float32).eps = 2^-23]. *)

Module QScalar.

Definition zero : Q := 0%Q.
Definition eps : Q := (1 # 8388608)%Q.
Definition add : Q -> Q -> Q := Qplus.
Definition mul : Q -> Q -> Q := Qmult.
Definition div : Q -> Q -> Q := Qdiv.
Definition of_int : Z -> Q := inject_Z.
Definition ltb (a b : Q) : bool := negb (Qle_bool b a).

Definition forward :=
  Layers.forward (R := Q) zero eps add mul div of_int.

End QScalar.

(** ** [model/basemodel.py]: BaseModel *)

Module Base.

(** Values of the (possibly nested) configuration dictionary. *)
Inductive cfg_value : Type :=
| CInt (z : Z)
| CStr (s : string)
| CDict (d : gmap string cfg_value).

(** Integer tensors of a batch, by rank. *)
Inductive tensor : Type :=
| T1 (v : list Z)
| T2 (m : list (list Z))
| T3 (c : list (list (list Z))).

(** A named parameter tensor; float32 weights are read as integers. *)
Abbreviation state_dict := (gmap string (list (list Z))).

Record BaseModel : Type := mkBaseModel {
  config : gmap string cfg_value;
  ckpt_path : option string;
  max_seq_len : Z;
  num_items : nat;
  domain_name_list : list string;
  domain_item_mapping : gmap string (list Z);
  eval_domain : option string;
  item_embedding : list (list Z);       (* item_embedding.weight *)
  other_parameters : state_dict         (* the encoder's parameters *)
}.

(** [self.config[key]] read as an integer. *)
Definition config_int (cfg : gmap string cfg_value) (key : string) : res Z :=
  match cfg !! key with
  | None => raise (KeyError key)
  | Some (CInt z) => ok z
  | Some _ => raise TypeError
  end.

(** Python's index normalisation on a dimension of size [n]: a negative
    index counts from the end, anything else out of range is an error. *)
Definition norm_index (n : nat) (j : Z) : option nat :=
  if (0 <=? j) && (j <? Z.of_nat n) then Some (Z.to_nat j)
  else if (- Z.of_nat n <=? j) && (j <? 0) then Some (Z.to_nat (j + Z.of_nat n))
  else None.

(** *** Negative sampling *)

(** [weight[b, user_seq[b]] = 0.0] on row [b]; the sampling weights are
    only ever 1.0 and 0.0 and are kept as naturals. *)
Fixpoint zero_out (w : list nat) (idx : list Z) : res (list nat) :=
  match idx with
  | [] => ok w
  | j :: idx' =>
      match norm_index (length w) j with
      | None => raise IndexError
      | Some i => zero_out (<[i := 0%nat]> w) idx'
      end
  end.

(** Inverse-CDF walk: the first category whose cumulative weight
    exceeds [r]. *)
Fixpoint pick (w : list nat) (r : nat) : nat :=
  match w with
  | [] => 0%nat
  | x :: w' => if (r <? x)%nat then 0%nat else S (pick w' (r - x))
  end.

Definition total (w : list nat) : nat := foldr Nat.add 0%nat w.

(** One row of [torch.multinomial(weight, n, replacement=True)].  The
    generator is the explicit stream [draw]; a row without positive
    weight is a RuntimeError. *)
Definition multinomial_row (w : list nat) (n : nat) (draw : nat -> nat)
  : res (list nat) :=
  if (total w =? 0)%nat then raise RuntimeError
  else ok (map (fun t => pick w (draw t mod total w)) (seq 0 n)).

(** [torch.multinomial(weight, n, replacement=True)] on a weight with
    [categories] columns: it refuses [n <= 0] and more than [2^24]
    categories with a RuntimeError before it looks at a row. *)
Definition multinomial (weight : list (list nat)) (categories : nat) (n : Z)
    (draws : nat -> nat -> nat) : res (list (list nat)) :=
  if n <=? 0 then raise RuntimeError
  else if 2 ^ 24 <? Z.of_nat categories then raise RuntimeError
  else
    mapM_res (fun bw : nat * list nat =>
                multinomial_row (snd bw) (Z.to_nat n) (draws (fst bw)))
      (zip (seq 0 (length weight)) weight).

(** [row.reshape(m, n)] of a row of [m * n] entries. *)
Fixpoint chunks {A} (m n : nat) (l : list A) : list (list A) :=
  match m with
  | O => []
  | S m' => take n l :: chunks m' n (drop n l)
  end.

(** [BaseModel._neg_sampling]; [draws b t] is the generator's [t]-th
    draw for row [b]. *)
Definition _neg_sampling (self : BaseModel) (batch : gmap string tensor)
    (draws : nat -> nat -> nat) : res (list (list (list nat))) :=
  let* user_seq :=
    match batch !! "user_seq" with
    | None => raise (KeyError "user_seq")
    | Some (T2 m) => ok m
    | Some _ => raise RuntimeError
    end in
  let weight := repeat (repeat 1%nat (num_items self)) (length user_seq) in
  let* weight :=
    mapM_res (fun wu : list nat * list Z => zero_out (fst wu) (snd wu))
      (zip weight user_seq) in
  let* weight :=
    if (num_items self =? 0)%nat then raise IndexError
    else ok (map (fun w => <[0%nat := 0%nat]> w) weight) in
  let* num_neg := config_int (config self) "num_neg" in
  let* neg_idx :=
    multinomial weight (num_items self) (num_neg * max_seq_len self) draws in
  if (max_seq_len self <? 0) || (num_neg <? 0) then raise RuntimeError
  else
    ok (map (chunks (Z.to_nat (max_seq_len self)) (Z.to_nat num_neg)) neg_idx).

(** *** Top-k retrieval *)

(** A score after masking: [-inf] or a finite value. *)
Inductive score : Type :=
| NegInf
| Fin (z : Z).

Definition score_ltb (a b : score) : bool :=
  match a, b with
  | NegInf, Fin _ => true
  | Fin x, Fin y => x <? y
  | _, _ => false
  end.

Definition dot (u v : list Z) : Z := foldr Z.add 0 (zip_with Z.mul u v).

(** [query @ weight.T] *)
Definition matmul_T (query weight : list (list Z)) : list (list Z) :=
  map (fun u => map (dot u) weight) query.

(** [domain_mask[:, items] = 0] *)
Fixpoint clear_mask (mask : list bool) (items : list Z) : res (list bool) :=
  match items with
  | [] => ok mask
  | j :: items' =>
      match norm_index (length mask) j with
      | None => raise IndexError
      | Some i => clear_mask (<[i := false]> mask) items'
      end
  end.

(** [torch.scatter(row, index, -inf)] on one row: negative or too large
    indices are a RuntimeError. *)
Fixpoint scatter_row (row : list score) (index : list Z) : res (list score) :=
  match index with
  | [] => ok row
  | h :: index' =>
      if (0 <=? h) && (h <? Z.of_nat (length row)) then
        scatter_row (<[Z.to_nat h := NegInf]> row) index'
      else raise RuntimeError
  end.

(** Rows without an index row stay as they are; more index rows than
    score rows is a RuntimeError. *)
Fixpoint scatter (rows : list (list score)) (index : list (list Z))
    {struct index} : res (list (list score)) :=
  match index with
  | [] => ok rows
  | h :: index' =>
      match rows with
      | [] => raise RuntimeError
      | r :: rows' =>
          let* r' := scatter_row r h in
          let* rs := scatter rows' index' in
          ok (r' :: rs)
      end
  end.

(** Whether no candidate of [cs] has a larger score than [c]. *)
Definition is_max (cs : list (nat * score)) (c : nat * score) : bool :=
  forallb (fun c' => negb (score_ltb (snd c) (snd c'))) cs.

(** The positions in [cs] of its largest candidates. *)
Definition max_positions (cs : list (nat * score)) : list nat :=
  List.filter (fun p => match cs !! p with
                        | Some c => is_max cs c
                        | None => false
                        end) (seq 0 (length cs)).

(** One of the largest candidates of [cs], and the others.
    [torch.topk] does not say which of several equal scores it takes
    first: that is [choice], counted among the largest candidates. *)
Definition extract_max (choice : nat) (cs : list (nat * score))
  : option ((nat * score) * list (nat * score)) :=
  let ps := max_positions cs in
  match ps !! (choice mod length ps)%nat with
  | None => None
  | Some p =>
      match cs !! p with
      | None => None
      | Some c => Some (c, delete p cs)
      end
  end.

(** The [k] largest candidates, best first; [tie t] is the choice made
    at the [t]-th extraction. *)
Fixpoint topk_row (tie : nat -> nat) (k : nat) (cands : list (nat * score))
  : list (nat * score) :=
  match k with
  | O => []
  | S k' =>
      match extract_max (tie 0%nat) cands with
      | None => []
      | Some (m, rest) => m :: topk_row (fun t => tie (S t)) k' rest
      end
  end.

(** [torch.topk(masked_score, k)]: the [k] largest entries of every row,
    best first, with their positions; [ties b] settles the equal scores
    of row [b]. *)
Definition torch_topk (rows : list (list score)) (k : Z)
    (ties : nat -> nat -> nat)
  : res (list (list score) * list (list nat)) :=
  let* picked :=
    mapM_res (fun brow : nat * list score =>
      if (k <? 0) || (Z.of_nat (length (snd brow)) <? k)
      then raise RuntimeError
      else ok (topk_row (ties (fst brow)) (Z.to_nat k)
                 (imap (fun i s => (i, s)) (snd brow))))
      (zip (seq 0 (length rows)) rows) in
  ok (map (map snd) picked, map (map fst) picked).

(** [user_h[user_h == -1] = 0] on one row: [-1] becomes the padding id. *)
Definition history_ids (hist : list Z) : list Z :=
  map (fun i => if i =? -1 then 0 else i) hist.

Section TopK.
(** [forward] is the subclass's encoder; it returns the query vectors. *)
Variable forward : BaseModel -> gmap string tensor -> res (list (list Z)).
(** How [torch.topk] orders equal scores, row by row. *)
Variable ties : nat -> nat -> nat.

(** [BaseModel.topk].  [user_h] is also updated in place by line 307;
    the caller does not read it again and the update is not returned. *)
Definition topk (self : BaseModel) (batch : gmap string tensor) (k : Z)
    (user_h : option (list (list Z)))
  : res (list (list score) * list (list nat)) :=
  let* query := forward self batch in
  let real_score := matmul_T query (item_embedding self) in
  let domain_mask := repeat true (num_items self) in
  let* domain :=
    match eval_domain self with
    | None => raise AttributeError
    | Some d => ok d
    end in
  let* items :=
    match domain_item_mapping self !! domain with
    | None => raise (KeyError domain)
    | Some items => ok items
    end in
  let* domain_mask := clear_mask domain_mask items in
  let masked_score :=
    map (fun row =>
           zip_with (fun s (m : bool) => if m then NegInf else Fin s)
             row domain_mask) real_score in
  let* user_h :=
    match user_h with
    | None => raise TypeError
    | Some h => ok (map history_ids h)
    end in
  let* masked_score := scatter masked_score user_h in
  torch_topk masked_score k ties.

End TopK.

(** Item [i] belongs to the evaluation domain whose index list is
    [items]. *)
Definition in_domainb (n : nat) (items : list Z) (i : nat) : bool :=
  existsb (fun j => match norm_index n j with
                    | Some i' => (i' =? i)%nat
                    | None => false
                    end) items.

Definition in_historyb (hist : list Z) (i : nat) : bool :=
  existsb (fun h => h =? Z.of_nat i) hist.

(** The unmasked candidates of a row: the items of the domain that are
    not in the user's history. *)
Definition candidates (n : nat) (items hist : list Z) : list nat :=
  List.filter (fun i => in_domainb n items i && negb (in_historyb hist i))
    (seq 0 n).

Definition is_fin (s : score) : bool :=
  match s with
  | Fin _ => true
  | NegInf => false
  end.

Definition count_fin (cands : list (nat * score)) : nat :=
  length (List.filter (fun c => is_fin (snd c)) cands).

(** *** Checkpoints *)

(** What a checkpoint dictionary may hold under a key. *)
Inductive ckpt_value : Type :=
| CkConfig (c : gmap string cfg_value)
| CkState (sd : state_dict)
| CkOther.

Definition embedding_key : string := "item_embedding.weight".

(** [self.state_dict()] *)
Definition state_dict_of (self : BaseModel) : state_dict :=
  <[embedding_key := item_embedding self]> (other_parameters self).

(** The shape of a stored matrix: its row count and its row lengths. *)
Definition mshape (m : list (list Z)) : nat * list nat :=
  (length m, map length m).

Definition set_config (c : gmap string cfg_value) (self : BaseModel)
  : BaseModel :=
  mkBaseModel c (ckpt_path self) (max_seq_len self) (num_items self)
    (domain_name_list self) (domain_item_mapping self) (eval_domain self)
    (item_embedding self) (other_parameters self).

Definition set_ckpt_path (p : option string) (self : BaseModel) : BaseModel :=
  mkBaseModel (config self) p (max_seq_len self) (num_items self)
    (domain_name_list self) (domain_item_mapping self) (eval_domain self)
    (item_embedding self) (other_parameters self).

Definition set_eval_domain (d : string) (self : BaseModel) : BaseModel :=
  mkBaseModel (config self) (ckpt_path self) (max_seq_len self)
    (num_items self) (domain_name_list self) (domain_item_mapping self)
    (Some d) (item_embedding self) (other_parameters self).

Definition set_parameters (sd : state_dict) (self : BaseModel) : BaseModel :=
  mkBaseModel (config self) (ckpt_path self) (max_seq_len self)
    (num_items self) (domain_name_list self) (domain_item_mapping self)
    (eval_domain self) (sd !!! embedding_key) (delete embedding_key sd).

(** What [load_state_dict] has copied into the model's own tensors: a
    stored tensor replaces the one of the same name when their shapes
    agree; the other tensors stay. *)
Definition copy_fitting (own sd : state_dict) : state_dict :=
  merge (fun old new =>
           match old, new with
           | Some o, Some n =>
               if bool_decide (mshape n = mshape o) then Some n else Some o
           | Some o, None => Some o
           | None, _ => None
           end) own sd.

(** [self.load_state_dict(sd)] with the default [strict=True]: the
    tensors that fit are copied in any case; unless the keys and the
    shapes are those of the model, a RuntimeError follows. *)
Definition load_state_dict (sd : state_dict) : M BaseModel unit :=
  fun self =>
    let self' := set_parameters (copy_fitting (state_dict_of self) sd) self in
    if bool_decide (mshape <$> state_dict_of self = mshape <$> sd) then
      (ok tt, self')
    else (raise RuntimeError, self').

(** [BaseModel.load_checkpoint]; [fs] maps a path to the object
    [torch.load] reads there. *)
Definition load_checkpoint (fs : gmap string (gmap string ckpt_value))
    (path : string) : M BaseModel unit :=
  let! ckpt := mlift (match fs !! path with
                      | None => raise FileNotFoundError
                      | Some c => ok c
                      end) in
  let! cfg := mlift (match ckpt !! "config" with
                     | None => raise (KeyError "config")
                     | Some (CkConfig c) => ok c
                     | Some _ => raise TypeError
                     end) in
  let! _ := mmodify (set_config cfg) in
  let! sd := mlift (match ckpt !! "parameters" with
                    | None => raise (KeyError "parameters")
                    | Some (CkState sd) => ok sd
                    | Some _ => raise TypeError
                    end) in
  load_state_dict sd.

(** *** The training driver *)

(** The calls [fit_loop] makes, with the value a call returned where the
    loop reads it. *)
Inductive call : Type :=
| TrainStart
| TimeTime
| Train
| TrainingEpoch (nepoch : nat)
| Eval
| DatasetSetEvalDomain (domain : string)
| GetLoader
| ValidationEpoch (nepoch : nat)
| ValidationEpochEnd (domain : string)
| WandbLog
| TrainingEpochEnd
| Callback (nepoch : nat) (stop_training : bool)
| TrainingEnd
| SaveCheckpoint (nepoch : nat)
| GetCheckpointPath (path : string).

(** The surroundings of a run: [raised t] is the exception, if any, that
    the [t]-th call of the run raises; the callback decides from the
    calls made so far. *)
Record Env : Type := mkEnv {
  raised : nat -> option exn;
  stop_training : list call -> nat -> bool;
  checkpoint_path : list call -> string
}.

Record FitState : Type := mkFitState {
  model : BaseModel;
  nepoch : nat;                 (* the local variable of [fit_loop] *)
  clock : nat;                  (* calls started *)
  trace : list call             (* calls completed *)
}.

Definition set_nepoch (n : nat) (s : FitState) : FitState :=
  mkFitState (model s) n (clock s) (trace s).

Definition on_model (f : BaseModel -> BaseModel) (s : FitState) : FitState :=
  mkFitState (f (model s)) (nepoch s) (clock s) (trace s).

(** A call: it raises what [raised] says, otherwise it completes and
    returns [ret] of the calls completed before it. *)
Definition external {A} (env : Env) (ret : list call -> A)
    (c : A -> call) : M FitState A :=
  fun s =>
    match raised env (clock s) with
    | Some e =>
        (raise e, mkFitState (model s) (nepoch s) (S (clock s)) (trace s))
    | None =>
        let a := ret (trace s) in
        (ok a, mkFitState (model s) (nepoch s) (S (clock s))
                 (trace s ++ [c a]))
    end.

Definition proc (env : Env) (c : call) : M FitState unit :=
  external env (fun _ => tt) (fun _ => c).

(** The value of the local [nepoch] at this point of the loop. *)
Definition read_nepoch : M FitState nat :=
  let! s := mget in mret (nepoch s).

(** Lines 112-117, one domain. *)
Definition validate_domain (env : Env) (domain : string) : M FitState unit :=
  let! _ := proc env (DatasetSetEvalDomain domain) in
  let! _ := mmodify (on_model (set_eval_domain domain)) in
  let! _ := proc env GetLoader in
  let! n := read_nepoch in
  let! _ := proc env (ValidationEpoch n) in
  proc env (ValidationEpochEnd domain).

Fixpoint validate_domains (env : Env) (domains : list string)
  : M FitState unit :=
  match domains with
  | [] => mret tt
  | d :: domains' =>
      let! _ := validate_domain env d in
      validate_domains env domains'
  end.

(** Lines 131-135: the callback decides; without [break] the epoch
    counter advances. *)
Definition callback_step (env : Env) : M FitState bool :=
  let! n := read_nepoch in
  let! stop := external env (fun tr => stop_training env tr n) (Callback n) in
  if stop : bool then mret true
  else
    let! _ := mmodify (set_nepoch (S n)) in
    mret false.

(** Lines 99-135, one pass through the loop body; the result says
    whether the loop was left by [break]. *)
Definition epoch_body (env : Env) : M FitState bool :=
  let! _ := proc env TimeTime in
  let! _ := proc env Train in
  let! n := read_nepoch in
  let! _ := proc env (TrainingEpoch n) in
  let! _ := proc env TimeTime in
  let! _ := proc env TimeTime in
  let! _ := proc env Eval in
  let! s := mget in
  let! _ := validate_domains env (domain_name_list (model s)) in
  let! _ := proc env WandbLog in
  let! _ := proc env TimeTime in
  let! _ := proc env TrainingEpochEnd in
  callback_step env.

(** [for e in range(epochs)] *)
Fixpoint epoch_loop (env : Env) (epochs : nat) : M FitState unit :=
  match epochs with
  | O => mret tt
  | S epochs' =>
      let! stop := epoch_body env in
      if stop : bool then mret tt else epoch_loop env epochs'
  end.

(** Lines 138-139 and 142-143. *)
Definition save_and_record (env : Env) : M FitState unit :=
  let! n := read_nepoch in
  let! _ := proc env (SaveCheckpoint n) in
  let! p := external env (checkpoint_path env) GetCheckpointPath in
  mmodify (on_model (set_ckpt_path (Some p))).

(** The [try] block, lines 96-139. *)
Definition try_body (env : Env) : M FitState unit :=
  let! _ := mmodify (set_nepoch 0) in
  let! _ := proc env TrainStart in
  let! s := mget in
  let! epochs := mlift (config_int (config (model s)) "epochs") in
  let! _ := epoch_loop env (Z.to_nat epochs) in
  let! _ := proc env TrainingEnd in
  save_and_record env.

(** [BaseModel.fit_loop] *)
Definition fit_loop (env : Env) : M FitState unit :=
  fun s =>
    match try_body env s with
    | (inl KeyboardInterrupt, s') => save_and_record env s'
    | r => r
    end.

(** The number of passes through the loop that ran to [nepoch += 1]. *)
Definition completes_epoch (c : call) : bool :=
  match c with
  | Callback _ false => true
  | _ => false
  end.

Definition epochs_done (tr : list call) : nat :=
  length (List.filter completes_epoch tr).

(** The surroundings in which the [k]-th call is interrupted from the
    keyboard and no other call fails. *)
Definition interrupt_at (k : nat) (stop : list call -> nat -> bool)
    (path : list call -> string) : Env :=
  mkEnv (fun t => if (t =? k)%nat then Some KeyboardInterrupt else None)
    stop path.

(** The invariant of the loop: the counter is the number of passes
    completed. *)
Definition steady (s : FitState) : Prop :=
  nepoch s = epochs_done (trace s).

(** A run that ended by saving the checkpoint of the current epoch and
    recording its path. *)
Definition checkpointed (env : Env) (s : FitState) : Prop :=
  exists pre,
    trace s = pre ++ [SaveCheckpoint (nepoch s);
                      GetCheckpointPath
                        (checkpoint_path env
                           (pre ++ [SaveCheckpoint (nepoch s)]))] /\
    ckpt_path (model s)
      = Some (checkpoint_path env (pre ++ [SaveCheckpoint (nepoch s)])) /\
    nepoch s = epochs_done pre.

(** [m] keeps the invariant, and the only exception that leaves it is
    the keyboard interrupt delivered at call [k]. *)
Definition careful {A} (k : nat) (m : M FitState A) : Prop :=
  forall s, steady s ->
    match m s with
    | (inr _, s') => steady s'
    | (inl e, s') => e = KeyboardInterrupt /\ clock s' = S k /\ steady s'
    end.

(** [m] keeps the invariant of the loop and leaves [self.ckpt_path]
    alone, however it ends. *)
Definition orderly {A} (m : M FitState A) : Prop :=
  forall s, steady s ->
    steady (snd (m s)) /\
    ckpt_path (model (snd (m s))) = ckpt_path (model s).

(** The surroundings in which no call fails. *)
Definition undisturbed (stop : list call -> nat -> bool)
    (path : list call -> string) : Env :=
  mkEnv (fun _ => None) stop path.

(** [m] completes and leaves the epoch counter as it is. *)
Definition still {A} (m : M FitState A) : Prop :=
  forall s, exists a s', m s = (ok a, s') /\ nepoch s' = nepoch s.

(** One pass through the loop body either breaks and keeps the epoch
    counter [n], or advances it; it does not break when the callback
    never asks to stop. *)
Definition pass_made (stop : list call -> nat -> bool) (n : nat)
    (r : res bool * FitState) : Prop :=
  exists b s', r = (ok b, s') /\
    nepoch s' = (if b : bool then n else S n) /\
    ((forall tr m, stop tr m = false) -> b = false).

End Base.

(** ** [model/basemodel.py]: the evaluation step *)

Module Eval.
Import Base.

(** [batch[key]] *)
Definition batch_get (batch : gmap string tensor) (key : string)
  : res tensor :=
  match batch !! key with
  | None => raise (KeyError key)
  | Some t => ok t
  end.

(** [t.view(-1, 1)]: the entries of the tensor, one per row. *)
Definition flatten (t : tensor) : list Z :=
  match t with
  | T1 v => v
  | T2 m => concat m
  | T3 c => concat (concat c)
  end.

(** [t.size(0)] *)
Definition size0 (t : tensor) : nat :=
  match t with
  | T1 v => length v
  | T2 m => length m
  | T3 c => length c
  end.

(** [target.view(-1, 1) == topk_items]: the column of targets is
    compared with every row of items; a single target or a single row
    of items is broadcast, any other mismatch of the row counts is a
    RuntimeError. *)
Definition eq_broadcast (target : list Z) (items : list (list nat))
  : res (list (list bool)) :=
  let cmp (t : Z) (row : list nat) := map (fun i => Z.of_nat i =? t) row in
  if (length target =? length items)%nat then
    ok (zip_with cmp target items)
  else
    match target, items with
    | [t], _ => ok (map (cmp t) items)
    | _, [row] => ok (map (fun t => cmp t row) target)
    | _, _ => raise RuntimeError
    end.

(** [f"{name}@{cutoff}"] *)
Definition metric_key (name : string) (cutoff : Z) : string :=
  name +:+ "@" +:+ pretty cutoff.

Section TestStep.
(** [forward] is the subclass's encoder. *)
Variable forward : BaseModel -> gmap string tensor -> res (list (list Z)).
(** How [torch.topk] orders equal scores, row by row. *)
Variable ties : nat -> nat -> nat.
(** [evaluation.get_rank_metrics(metric)]: the rank metrics with their
    names; the functions belong to the evaluation package. *)
Context {V : Type}.
Variable rank_m : list (string * (list (list bool) -> list Z -> Z -> V)).

(** Lines 292-296 of [_test_step]: the hit matrix [label].  [topk]
    reads [user_h.size(1)] after [forward], so a 1-D history fails
    there; a 3-D history fails in [torch.scatter]. *)
Definition hits (self : BaseModel) (batch : gmap string tensor)
  : res (list (list bool)) :=
  let* k := config_int (config self) "topk" in
  let* user_id := batch_get batch "user_id" in
  if (length rank_m =? 0)%nat then raise AssertionError
  else
    let* user_hist := batch_get batch "user_hist" in
    let* score_items :=
      match user_hist with
      | T2 h => topk forward ties self batch k (Some h)
      | T1 _ => let* _ := forward self batch in raise IndexError
      | T3 _ =>
          let* _ := topk forward ties self batch k (Some []) in
          raise RuntimeError
      end in
    let* target := batch_get batch "target_item" in
    eq_broadcast (flatten target) (snd score_items).

(** [BaseModel._test_step]: the dictionary of every rank metric at
    every cutoff, filled in the order of the comprehension, so that of
    two entries with one key the later one stays, and the batch size. *)
Definition _test_step (self : BaseModel) (batch : gmap string tensor)
    (cutoffs : list Z) : res (gmap string V * nat) :=
  let* label := hits self batch in
  let* pos_rating := batch_get batch "label" in
  let* user_id := batch_get batch "user_id" in
  ok (foldl (fun (d : gmap string V) (kv : string * V) =>
               <[fst kv := snd kv]> d) ∅
        (flat_map (fun cutoff =>
           map (fun nf : string * (list (list bool) -> list Z -> Z -> V) =>
                  (metric_key (fst nf) cutoff,
                   snd nf label (flatten pos_rating) cutoff))
             rank_m) cutoffs),
      size0 user_id).

End TestStep.

End Eval.

(** ** [models/layers.py]: SeqPoolingLayer on a 4-D batch

    A batch of shape [B, Neg, L, D] is flattened to [B * Neg, L, D]
    (lines 18-24), pooled as a 3-D batch, and the result is regrouped
    (lines 70-71). *)

Module Layers4.
Import Layers.

Section Forward4.
Context {R : Type}.
Variables (zero eps : R).
Variables (add mul div : R -> R -> R).
Variable (of_int : Z -> R).
Variable (ltb : R -> R -> bool).

Record Tensor4 : Type := mkT4 {
  shape4 : nat * nat * nat * nat;
  data4 : list (list (list (list R)))
}.

Definition wf4 (t : Tensor4) : Prop :=
  let '(b, n, l, d) := shape4 t in
  length (data4 t) = b /\
  Forall (fun x => length x = n /\ Forall (wf_rows l d) x) (data4 t).

(** What [forward] hands back for a 4-D batch: the result of the 3-D
    code as it is, or that result regrouped by line 71. *)
Inductive output4 : Type :=
| Flat (o : output (R := R))
| Grouped3 (t : Tensor3 (R := R))
| Grouped4 (t : Tensor4).

(** [t.reshape(B, M, d)] of a 2-D tensor of shape [n, d] with the rows
    [rows]: the entries are regrouped in order; the number of entries
    has to fit. *)
Definition reshape_rows (B M n d : nat) (rows : list (list R))
  : res (list (list (list R))) :=
  if (n * d =? B * M * d)%nat then
    ok (Base.chunks B M (Base.chunks (B * M) d (concat rows)))
  else raise RuntimeError.

(** [t.reshape(B, M, l, d)] of a 3-D tensor of shape [n, l, d]. *)
Definition reshape_seqs (B M n l d : nat) (seqs : list (list (list R)))
  : res (list (list (list (list R)))) :=
  if (n * l * d =? B * M * l * d)%nat then
    ok (Base.chunks B M
          (Base.chunks (B * M) l
             (Base.chunks (B * M * l) d (concat (concat seqs)))))
  else raise RuntimeError.

(** [SeqPoolingLayer.forward] on a 4-D batch; [seq_len] has shape
    [B, Neg] and [weight] shape [B, Neg, L], as the comment on line 15
    requires.  [view(-1, L, D)] cannot infer the first dimension when
    [L * D = 0]; origin pooling returns on line 45, before the result is
    regrouped; the pair that max pooling produces has no [reshape]. *)
Definition forward4 (self : SeqPoolingLayer) (batch_seq_embeddings : Tensor4)
    (seq_len : list (list Z)) (weight : option (list (list (list R))))
    (mask_token : option (list (list bool))) : res output4 :=
  let '(B, Neg, L, D) := shape4 batch_seq_embeddings in
  if (L * D =? 0)%nat then raise RuntimeError
  else
    let N := (B * Neg)%nat in
    let x := mkT3 (N, L, D) (concat (data4 batch_seq_embeddings)) in
    let* result :=
      forward zero eps add mul div of_int ltb self x (concat seq_len)
        (option_map (fun w => concat w) weight) mask_token in
    if String.eqb (pooling_type self) "origin" then ok (Flat result)
    else
      match result with
      | OutMax _ _ => raise AttributeError
      | Out2 t =>
          if (B =? 0)%nat then raise ZeroDivisionError
          else
            let '(n, d) := shape2 t in
            let* rows := reshape_rows B (N / B) n d (data2 t) in
            ok (Grouped3 (mkT3 (B, (N / B)%nat, d) rows))
      | Out3 t =>
          if (B =? 0)%nat then raise ZeroDivisionError
          else
            let '(n, l, d) := shape3 t in
            let* seqs := reshape_seqs B (N / B) n l d (data3 t) in
            ok (Grouped4 (mkT4 (B, (N / B)%nat, l, d) seqs))
      end.

End Forward4.

End Layers4.

(** ** [model/gru4rec.py]: GRU4Rec *)

Module GRU4Rec.
Import Layers Base.

Section Model.
Context {R : Type}.
Variables (zero eps : R).
Variables (add mul div : R -> R -> R).
Variable (of_int : Z -> R).
Variable (ltb : R -> R -> bool).
(** The stacked encoder (embedding lookup, dropout, GRU, linear map):
    one [D]-vector per position of every sequence. *)
Variable query_encoder : gmap string tensor -> res (Tensor3 (R := R)).

(** The two pooling layers built by [__init__]. *)
Definition training_pooling_layer : SeqPoolingLayer :=
  mkSeqPoolingLayer "origin" false.
Definition eval_pooling_layer : SeqPoolingLayer :=
  mkSeqPoolingLayer "last" false.

(** [batch['seqlen']] as the pooling layer reads it: origin pooling
    expands it as a 1-D tensor and fails on any other (layers.py lines
    39-40), last pooling flattens whatever it gets (line 65). *)
Definition seqlen_of (training : bool) (batch : gmap string tensor)
  : res (list Z) :=
  match batch !! "seqlen" with
  | None => raise (KeyError "seqlen")
  | Some (T1 v) => ok v
  | Some t => if training then raise RuntimeError else ok (Eval.flatten t)
  end.

(** [GRU4Rec.forward]; [training] is [self.training]. *)
Definition forward (training : bool) (batch : gmap string tensor)
    (need_pooling : bool) : res (output (R := R)) :=
  let* gru4rec_out := query_encoder batch in
  if need_pooling then
    if training then
      let* seqlen := seqlen_of true batch in
      Layers.forward zero eps add mul div of_int ltb training_pooling_layer
        gru4rec_out seqlen None None
    else
      let* seqlen := seqlen_of false batch in
      Layers.forward zero eps add mul div of_int ltb eval_pooling_layer
        gru4rec_out seqlen None None
  else ok (Out3 gru4rec_out).

End Model.

End GRU4Rec.

(** ** [model/metamodel.py]: MetaModel *)

Module Meta.
Import Base.

(** *** Objects and the store

    Embedding tables and the other parameter tensors are objects that
    several models may refer to.  The store maps the location of such an
    object to its current weights; a model holds locations. *)

Definition loc : Type := nat.

Abbreviation weights := (list (list Z)).
Abbreviation batch := (gmap string tensor).

Record SubModel : Type := mkSubModel {
  sub_id : nat;                         (* identity of the model object *)
  sub_item_embedding : option loc;      (* [item_embedding], [None] is None *)
  sub_encoder : list loc;               (* the encoder's own parameters *)
  sub_optimizer : option (list loc)     (* parameters held by [optimizer] *)
}.

(** [model.parameters()]: the embedding weight, then the encoder. *)
Definition sub_parameters (m : SubModel) : list loc :=
  match sub_item_embedding m with
  | Some l => l :: sub_encoder m
  | None => sub_encoder m
  end.

Record MetaModel : Type := mkMetaModel {
  meta_config : gmap string cfg_value;
  train_batches : list batch;           (* what [dataset_list[0].get_loader()] yields *)
  item_embedding : option loc;
  sub_model : option SubModel;
  meta_module : list loc;
  meta_optimizer : option (list loc);
  step_counter : Z;
  metaloader_iter : option (list batch) (* batches the iterator still holds *)
}.

(** The value of a loss: the batch it was computed on and the model
    passed as [sub_model]. *)
Record loss : Type := mkLoss {
  loss_batch : batch;
  loss_model : nat
}.

(** Calls into the framework, the data pipeline and the sub-model. *)
Inductive mcall : Type :=
| GetLoader
| RegisterSubModel (id : nat)
| InitSubModel (id : nat)
| LoadStateDict (dst src : nat)
| RegisterMetaModules
| NegSampling (b : batch)
| TrainingStep (b : batch) (model : nat)
| SubTrainingStep (b : batch) (model : nat)
| ZeroGrad (model : nat)
| Backward (l : loss)
| OptimizerStep (model : nat)
| MetaOptimizerStep (val_loss train_loss : loss)
    (aux_params parameters : list loc).

Record World : Type := mkWorld {
  store : gmap loc weights;
  fresh : nat;                          (* first unused location *)
  self : MetaModel;
  clock : nat;                          (* calls started *)
  calls : list mcall                    (* calls completed *)
}.

Definition on_self (f : MetaModel -> MetaModel) (w : World) : World :=
  mkWorld (store w) (fresh w) (f (self w)) (clock w) (calls w).

Definition set_item_embedding (e : option loc) (m : MetaModel) : MetaModel :=
  mkMetaModel (meta_config m) (train_batches m) e (sub_model m)
    (meta_module m) (meta_optimizer m) (step_counter m) (metaloader_iter m).

Definition set_sub_model (sm : option SubModel) (m : MetaModel) : MetaModel :=
  mkMetaModel (meta_config m) (train_batches m) (item_embedding m) sm
    (meta_module m) (meta_optimizer m) (step_counter m) (metaloader_iter m).

Definition set_meta_module (ps : list loc) (m : MetaModel) : MetaModel :=
  mkMetaModel (meta_config m) (train_batches m) (item_embedding m)
    (sub_model m) ps (meta_optimizer m) (step_counter m) (metaloader_iter m).

Definition set_meta_optimizer (o : option (list loc)) (m : MetaModel)
  : MetaModel :=
  mkMetaModel (meta_config m) (train_batches m) (item_embedding m)
    (sub_model m) (meta_module m) o (step_counter m) (metaloader_iter m).

Definition set_step_counter (c : Z) (m : MetaModel) : MetaModel :=
  mkMetaModel (meta_config m) (train_batches m) (item_embedding m)
    (sub_model m) (meta_module m) (meta_optimizer m) c (metaloader_iter m).

Definition set_metaloader_iter (it : option (list batch)) (m : MetaModel)
  : MetaModel :=
  mkMetaModel (meta_config m) (train_batches m) (item_embedding m)
    (sub_model m) (meta_module m) (meta_optimizer m) (step_counter m) it.

(** [self.config['train'][key]] *)
Definition train_config (cfg : gmap string cfg_value) (key : string) : res Z :=
  match cfg !! "train" with
  | None => raise (KeyError "train")
  | Some (CDict d) => config_int d key
  | Some _ => raise TypeError
  end.

Section Framework.
(** What the numeric framework computes: the weights a fresh parameter
    starts with, what an initialiser makes of them, and what an
    optimizer step, taken as the [t]-th call, makes of a parameter. *)
Variable default_weights : loc -> weights.
Variable normal_initialization : weights -> weights.
Variable update : nat -> loc -> weights -> weights.
(** [raised t] is the exception, if any, raised by the [t]-th call. *)
Variable raised : nat -> option exn.

(** A call: it raises what [raised] says; otherwise it has [effect] on
    the world and is recorded. *)
Definition act (c : mcall) (effect : World -> World) : M World unit :=
  fun w =>
    match raised (clock w) with
    | Some e =>
        (raise e, mkWorld (store w) (fresh w) (self w) (S (clock w)) (calls w))
    | None =>
        let w' := effect w in
        (ok tt, mkWorld (store w') (fresh w') (self w') (S (clock w))
                  (calls w ++ [c]))
    end.

Definition on_store (f : gmap loc weights -> gmap loc weights) (w : World)
  : World :=
  mkWorld (f (store w)) (fresh w) (self w) (clock w) (calls w).

(** In-place change of the weights at the locations [ps]. *)
Definition update_all (f : loc -> weights -> weights) (ps : list loc)
    (st : gmap loc weights) : gmap loc weights :=
  foldr (fun l st => alter (f l) l st) st ps.

(** Modelled from the spec: [get_model_class] and the sub-model's class
    are not under src/.  The sub-model is one of the "model subclasses
    providing a forward encoder" over the base class: constructing it
    runs [BaseModel.__init__], which creates a new item-embedding table
    (basemodel.py line 38), and adds an encoder. *)
Definition _register_sub_model : M World SubModel :=
  fun w =>
    let id := fresh w in
    let m := mkSubModel id (Some id) [S id] None in
    match raised (clock w) with
    | Some e =>
        (raise e, mkWorld (store w) (fresh w) (self w) (S (clock w)) (calls w))
    | None =>
        (ok m,
         mkWorld (<[id := default_weights id]>
                    (<[S id := default_weights (S id)]> (store w)))
           (S (S id)) (self w) (S (clock w))
           (calls w ++ [RegisterSubModel id]))
    end.

(** Modelled from the spec: the sub-model's [_init_model] is not under
    src/; it is the lifecycle hook of the "base trainer class" that
    [BaseModel.init_model] (basemodel.py lines 40-45) implements: the
    weights are initialised in place and the optimizer is created over
    the model's own parameters.  The result is the model with its
    optimizer. *)
Definition sub_init_model (m : SubModel) : M World SubModel :=
  let! _ := act (InitSubModel (sub_id m))
              (on_store (update_all (fun _ => normal_initialization)
                           (sub_parameters m))) in
  mret (mkSubModel (sub_id m) (sub_item_embedding m) (sub_encoder m)
          (Some (sub_parameters m))).

(** [dst.load_state_dict(src.state_dict())]: the weights of [src] are
    copied into the parameters of [dst]. *)
Definition copy_state (dst src : list loc) (st : gmap loc weights)
  : gmap loc weights :=
  foldr (fun (p : loc * loc) st =>
           match st !! snd p with
           | Some v => <[fst p := v]> st
           | None => st
           end) st (zip dst src).

Definition load_state_from (dst src : SubModel) : M World unit :=
  act (LoadStateDict (sub_id dst) (sub_id src))
    (on_store (copy_state (sub_parameters dst) (sub_parameters src))).

(** [model.optimizer.step()] *)
Definition optimizer_step (m : SubModel) : M World unit :=
  match sub_optimizer m with
  | None => mraise AttributeError
  | Some ps =>
      fun w =>
        act (OptimizerStep (sub_id m))
          (on_store (update_all (update (clock w)) ps)) w
  end.

(** Modelled from the spec: [utils.MetaOptimizer] is not under src/.
    The meta-learning outer loop is "a bi-level optimization updating a
    selection/weighting module using validation-loss gradients through
    an inner model update (hypergradient)": the step changes the
    parameters of the wrapped optimizer, which [_get_meta_optimizers]
    builds over [meta_module.parameters()], and nothing else. *)
Definition meta_optimizer_step (val_loss train_loss : loss)
    (aux_params parameters : list loc) : M World unit :=
  fun w =>
    match meta_optimizer (self w) with
    | None => (raise AttributeError, w)
    | Some ps =>
        act (MetaOptimizerStep val_loss train_loss aux_params parameters)
          (on_store (update_all (update (clock w)) ps)) w
    end.

(** [batch = {k: v.to(device)...}; batch['neg_item'] = self._neg_sampling(batch)]:
    the sampling is [Base._neg_sampling]; losses are kept symbolic, so
    the batch is passed on as the loader gave it. *)
Definition prepare (b : batch) : M World batch :=
  let! _ := act (NegSampling b) (fun w => w) in
  mret b.

(** [self.training_step(batch, sub_model)]: lines 174-184. *)
Definition training_step (b : batch) (m : SubModel) : M World loss :=
  let! _ := act (TrainingStep b (sub_id m)) (fun w => w) in
  mret (mkLoss b (sub_id m)).

(** [self.sub_model.training_step(batch)] *)
Definition sub_training_step (b : batch) (m : SubModel) : M World loss :=
  let! _ := act (SubTrainingStep b (sub_id m)) (fun w => w) in
  mret (mkLoss b (sub_id m)).

(** [self.dataset_list[0].get_loader()] *)
Definition get_loader : M World (list batch) :=
  let! _ := act GetLoader (fun w => w) in
  let! w := mget in
  mret (train_batches (self w)).

Definition the_sub_model : M World SubModel :=
  let! w := mget in
  match sub_model (self w) with
  | None => mraise AttributeError
  | Some m => mret m
  end.

(** [MetaModel._init_model]; the keys that [_get_meta_optimizers] reads
    from the configuration are taken to be present. *)
Definition _init_model : M World unit :=
  let! m := _register_sub_model in
  let! _ := mmodify (on_self (set_sub_model (Some m))) in
  let! m := sub_init_model m in
  let! _ := mmodify (on_self (set_sub_model (Some m))) in
  let! _ := mmodify (on_self (set_item_embedding (sub_item_embedding m))) in
  (* lines 34-36: two Linear layers, weight and bias each *)
  let! w := mget in
  let ps := seq (fresh w) 4 in
  let! _ := act RegisterMetaModules
              (fun w =>
                 mkWorld
                   (update_all (fun _ => normal_initialization) ps
                      (foldr (fun l st => <[l := default_weights l]> st)
                         (store w) ps))
                   (fresh w + 4) (on_self (set_meta_module ps) w).(self)
                   (clock w) (calls w)) in
  let! _ := mmodify (on_self (set_meta_optimizer (Some ps))) in
  let! it := get_loader in
  mmodify (on_self (set_metaloader_iter (Some it))).

(** Lines 132-141: [for batch_idx, batch in enumerate(loader)]. *)
Fixpoint inner_loop (descent_step : Z) (proxy : SubModel) (batch_idx : Z)
    (loader : list batch) : M World unit :=
  match loader with
  | [] => mret tt
  | b :: loader' =>
      if batch_idx >=? descent_step then mret tt
      else
        let! b := prepare b in
        let! l := training_step b proxy in
        let! _ := match sub_optimizer proxy with
                  | None => mraise AttributeError
                  | Some _ => act (ZeroGrad (sub_id proxy)) (fun w => w)
                  end in
        let! _ := act (Backward l) (fun w => w) in
        let! _ := optimizer_step proxy in
        inner_loop descent_step proxy (batch_idx + 1) loader'
  end.

(** Lines 143-147: the next batch of the meta loader, with a new
    iterator when the old one is exhausted. *)
Definition next_meta_batch : M World batch :=
  let! w := mget in
  match metaloader_iter (self w) with
  | None => mraise AttributeError
  | Some (b :: rest) =>
      let! _ := mmodify (on_self (set_metaloader_iter (Some rest))) in
      mret b
  | Some [] =>
      let! loader := get_loader in
      match loader with
      | [] =>
          let! _ := mmodify (on_self (set_metaloader_iter (Some []))) in
          mraise StopIteration
      | b :: rest =>
          let! _ := mmodify (on_self (set_metaloader_iter (Some rest))) in
          mret b
      end
  end.

(** [MetaModel._outter_loop] *)
Definition _outter_loop : M World unit :=
  let! meta_dataloader := get_loader in
  let! w := mget in
  let! descent_step :=
    mlift (train_config (meta_config (self w)) "descent_step") in
  if negb (descent_step <? Z.of_nat (length meta_dataloader))
  then mraise AssertionError
  else
    let! proxy_model := _register_sub_model in
    let! proxy_model := sub_init_model proxy_model in
    let! sub := the_sub_model in
    let! _ := load_state_from proxy_model sub in
    let! _ := inner_loop descent_step proxy_model 0 meta_dataloader in
    let! b := next_meta_batch in
    let! b := prepare b in
    let! meta_loss := training_step b proxy_model in
    let! trainloader := get_loader in
    let! b := match trainloader with
              | [] => mraise StopIteration
              | b :: _ => mret b
              end in
    let! b := prepare b in
    let! sub := the_sub_model in
    let! meta_train_loss := training_step b sub in
    let! w := mget in
    meta_optimizer_step meta_loss meta_train_loss
      (meta_module (self w)) (sub_parameters sub).

(** Lines 98-114: the body of the loop over the training batches. *)
Definition training_batch (nepoch : Z) (b : batch) : M World loss :=
  let! b := prepare b in
  let! sub := the_sub_model in
  let! _ := match sub_optimizer sub with
            | None => mraise AttributeError
            | Some _ => act (ZeroGrad (sub_id sub)) (fun w => w)
            end in
  let! w := mget in
  let! warmup := mlift (train_config (meta_config (self w)) "warmup_epoch") in
  let! l := if warmup <? nepoch then training_step b sub
            else sub_training_step b sub in
  let! _ := act (Backward l) (fun w => w) in
  let! _ := optimizer_step sub in
  let! _ := mmodify (on_self (fun m =>
                        set_step_counter (step_counter m + 1) m)) in
  let! w := mget in
  let! interval := mlift (train_config (meta_config (self w)) "interval") in
  let! _ :=
    if interval =? 0 then mraise ZeroDivisionError
    else if (step_counter (self w) mod interval =? 0) then
      let! warmup :=
        mlift (train_config (meta_config (self w)) "warmup_epoch") in
      if warmup <? nepoch then _outter_loop else mret tt
    else mret tt in
  mret l.

(** [MetaModel.training_epoch] *)
Fixpoint training_batches (nepoch : Z) (loader : list batch)
  : M World (list loss) :=
  match loader with
  | [] => mret []
  | b :: loader' =>
      let! l := training_batch nepoch b in
      let! ls := training_batches nepoch loader' in
      mret (l :: ls)
  end.

Definition training_epoch (nepoch : Z) : M World (list loss) :=
  let! loader := get_loader in
  training_batches nepoch loader.

End Framework.

(** The surroundings in which no call raises. *)
Definition quiet : nat -> option exn := fun _ => None.

(** [m] is a routine run with calls that raise as [raised] says, [q]
    the same routine run with calls that never raise.  The clock of
    [q] advances by the number of calls it records; whenever [m]
    returns, [q] returns the same; and [m] is [q] when none of the
    calls that [q] makes raises. *)
Definition follows (raised : nat -> option exn) {A} (m q : M World A)
  : Prop :=
  forall w,
    (clock w <= clock (snd (q w)))%nat /\
    (clock (snd (q w)) + length (calls w)
     = clock w + length (calls (snd (q w))))%nat /\
    (forall a w', m w = (ok a, w') -> q w = (ok a, w')) /\
    ((forall t, (clock w <= t < clock (snd (q w)))%nat -> raised t = None) ->
     m w = q w).

(** [m] leaves the two references to the embedding as they are,
    whatever its outcome. *)
Definition keeps_refs {A} (m : M World A) : Prop :=
  forall w,
    item_embedding (self (snd (m w))) = item_embedding (self w) /\
    sub_model (self (snd (m w))) = sub_model (self w).

(** The calls of one pass through the inner loop, on batch [b] with the
    proxy model [proxy]. *)
Definition inner_calls (proxy : nat) (b : batch) : list mcall :=
  [NegSampling b; TrainingStep b proxy; ZeroGrad proxy;
   Backward (mkLoss b proxy); OptimizerStep proxy].

(** The calls of [_outter_loop] after [get_loader] and the assertion, for
    the proxy model [proxy], the sub-model [sub], the inner batches
    [inner], the meta batch [mb] and the training batch [tb];
    [refill] says that the meta iterator was exhausted. *)
Definition outer_calls (proxy : nat) (sub : SubModel) (inner : list batch)
    (refill : bool) (mb tb : batch) (aux : list loc) : list mcall :=
  [RegisterSubModel proxy; InitSubModel proxy;
   LoadStateDict proxy (sub_id sub)]
  ++ concat (map (inner_calls proxy) inner)
  ++ (if refill then [GetLoader] else [])
  ++ [NegSampling mb; TrainingStep mb proxy; GetLoader;
      NegSampling tb; TrainingStep tb (sub_id sub);
      MetaOptimizerStep (mkLoss mb proxy) (mkLoss tb (sub_id sub))
        aux (sub_parameters sub)].

(** The calls of one training batch [b] for the sub-model [sub] when the
    outer loop is not entered; [weighted] says that the loss is the
    MetaModel's weighted one (line 104) and not the sub-model's own
    (line 107). *)
Definition batch_calls (weighted : bool) (sub : nat) (b : batch)
  : list mcall :=
  [NegSampling b; ZeroGrad sub;
   (if weighted then TrainingStep b sub else SubTrainingStep b sub);
   Backward (mkLoss b sub); OptimizerStep sub].

Definition is_nil {A} (l : list A) : bool :=
  match l with
  | [] => true
  | _ => false
  end.

(** How often the optimizer of model [id] was stepped. *)
Definition is_step_of (id : nat) (c : mcall) : bool :=
  match c with
  | OptimizerStep i => (i =? id)%nat
  | _ => false
  end.

Definition steps_of (id : nat) (cs : list mcall) : nat :=
  length (List.filter (is_step_of id) cs).

Definition is_meta_step (c : mcall) : bool :=
  match c with
  | MetaOptimizerStep _ _ _ _ => true
  | _ => false
  end.

(** The MetaModel and its sub-model refer to one embedding object. *)
Definition shares_embedding (w : World) : Prop :=
  exists m l,
    sub_model (self w) = Some m /\
    sub_item_embedding m = Some l /\
    item_embedding (self w) = Some l.

(** The embedding weights as read through the MetaModel and through the
    sub-model. *)
Definition read_meta_embedding (w : World) : option weights :=
  l ← item_embedding (self w); store w !! l.

Definition read_sub_embedding (w : World) : option weights :=
  m ← sub_model (self w); l ← sub_item_embedding m; store w !! l.

(** Writing the weights through either reference. *)
Definition write_meta_embedding (v : weights) (w : World) : World :=
  match item_embedding (self w) with
  | Some l => mkWorld (<[l := v]> (store w)) (fresh w) (self w) (clock w)
                (calls w)
  | None => w
  end.

Definition write_sub_embedding (v : weights) (w : World) : World :=
  match sub_model (self w) ≫= sub_item_embedding with
  | Some l => mkWorld (<[l := v]> (store w)) (fresh w) (self w) (clock w)
                (calls w)
  | None => w
  end.

End Meta.

(** ** A small two-domain model and batch, used to run the code *)

Module Samples.
Import Base.

Definition sample_config : gmap string cfg_value :=
  <["num_neg" := CInt 2]> (<["epochs" := CInt 2]> (<["topk" := CInt 2]> ∅)).

Definition sample_model : BaseModel :=
  mkBaseModel sample_config None 3 5%nat ["book"; "movie"]
    (<["book" := [1; 2; 3]]> (<["movie" := [3; 4]]> ∅))
    (Some "book")
    [[0; 0]; [1; 0]; [0; 1]; [1; 1]; [2; 1]]
    (<["query_encoder.bias" := [[0; 0]]]> ∅).

Definition sample_user_seq : list (list Z) := [[1; 2; 0]; [3; 0; 0]].

Definition sample_batch : gmap string tensor :=
  <["user_seq" := T2 sample_user_seq]> (<["seqlen" := T1 [2; 1]]> ∅).

Definition sample_draws (b t : nat) : nat := (7 * t + 3 * b + 1)%nat.

Definition sample_neg : list (list (list nat)) :=
  Eval vm_compute in
    match _neg_sampling sample_model sample_batch sample_draws with
    | inr neg => neg
    | inl _ => []
    end.

(** A stand-in encoder: one query vector per user of the batch. *)
Definition sample_forward (self : BaseModel) (batch : gmap string tensor)
  : res (list (list Z)) :=
  ok [[1; 0]; [0; 1]].

Definition sample_user_h : list (list Z) := [[1; -1]; [4; -1]].

(** Of several equal scores the one at the higher index comes first. *)
Definition sample_ties (b t : nat) : nat := if (t =? 0)%nat then 1%nat else 2%nat.

Definition sample_picked : list (list nat) :=
  Eval vm_compute in
    match topk sample_forward sample_ties sample_model sample_batch 2
            (Some sample_user_h) with
    | inr (_, picked) => picked
    | inl _ => []
    end.

Definition stored_config : gmap string cfg_value :=
  <["num_neg" := CInt 4]> (<["epochs" := CInt 9]> ∅).





Definition fresh_run : FitState := mkFitState sample_model 0 0 [].

Definition never_stop (tr : list call) (nepoch : nat) : bool := false.

Definition fixed_path (tr : list call) : string := "saved/best.ckpt".

End Samples.

Module MetaSamples.
Import Base Meta.

Definition train_section (descent_step : Z) : gmap string cfg_value :=
  <["train" := CDict (<["descent_step" := CInt descent_step]>
                        (<["interval" := CInt 2]>
                           (<["warmup_epoch" := CInt 0]> ∅)))]> ∅.

Definition batch1 : batch := Samples.sample_batch.
Definition batch2 : batch := <["user_seq" := T2 [[4; 0; 0]]]> ∅.
Definition batch3 : batch := <["user_seq" := T2 [[2; 3; 0]]]> ∅.

Definition default_weights (l : loc) : weights := [[Z.of_nat l; 1]].
Definition normal_initialization (v : weights) : weights :=
  map (map (fun _ => 0)) v.
Definition update (t : nat) (l : loc) (v : weights) : weights :=
  map (map (Z.add (Z.of_nat t))) v.

(** A MetaModel as [__init__] leaves it. *)
Definition new_world (descent_step : Z) : World :=
  mkWorld ∅ 0
    (mkMetaModel (train_section descent_step) [batch1; batch2; batch3]
       None None [] None 0 None)
    0 [].

(** The world after [_init_model], with [descent_step = 1] and with
    [descent_step = 3], the length of the loader. *)
Definition ready_world : World :=
  Eval vm_compute in
    snd (_init_model default_weights normal_initialization quiet
           (new_world 1)).

Definition strict_world : World :=
  Eval vm_compute in
    snd (_init_model default_weights normal_initialization quiet
           (new_world 3)).

End MetaSamples.

Module LayerSamples.
Import Layers.

(** Two sequences of three positions with embeddings of dimension two,
    the first one of length two. *)
Definition sample_embeddings : Tensor3 (R := Q) :=
  mkT3 (2, 3, 2)%nat
    [[[1; 2]; [3; 4]; [9; 9]]; [[5; 6]; [7; 7]; [0; 2]]]%Q.

Definition sample_seq_len : list Z := [2; 3].

Definition sample_weight : list (list Q) := [[2; 1; 1]; [1; 1; 3]]%Q.

(** An encoder that returns [sample_embeddings] for every batch. *)
Definition sample_encoder (batch : gmap string Base.tensor)
  : res (Tensor3 (R := Q)) := ok sample_embeddings.

Definition sample_seq_batch : gmap string Base.tensor :=
  <["seqlen" := Base.T1 sample_seq_len]> ∅.

(** The same two sequences as a 4-D batch of shape [2, 1, 3, 2]. *)
Definition sample_embeddings4 : Layers4.Tensor4 (R := Q) :=
  Layers4.mkT4 (2, 1, 3, 2)%nat
    [[[[1; 2]; [3; 4]; [9; 9]]]; [[[5; 6]; [7; 7]; [0; 2]]]]%Q.

Definition sample_seq_len4 : list (list Z) := [[2]; [3]].

End LayerSamples.

Module ExtraSamples.
Import Base.

(** A batch whose first user has interacted with every item but the
    padding item. *)
Definition exhausted_batch : gmap string tensor :=
  <["user_seq" := T2 [[1; 2; 3; 4]; [1; 2; 0; 0]]]> ∅.

(** A checkpoint file that holds a configuration and nothing else. *)
Definition config_only_fs : gmap string (gmap string ckpt_value) :=
  <["saved/half.ckpt" := <["config" := CkConfig Samples.stored_config]> ∅]> ∅.

(** A checkpoint file written from [Samples.sample_model] itself. *)
Definition own_fs : gmap string (gmap string ckpt_value) :=
  <["saved/own.ckpt" :=
      <["config" := CkConfig Samples.sample_config]>
        (<["parameters" := CkState (state_dict_of Samples.sample_model)]> ∅)]>
    ∅.

(** An evaluation batch for [Samples.sample_model]: the target of the
    second user is an item of that user's history. *)
Definition eval_batch : gmap string tensor :=
  <["user_id" := T1 [0; 1]]>
    (<["user_hist" := T2 Samples.sample_user_h]>
       (<["target_item" := T1 [3; 4]]>
          (<["label" := T1 [1; 1]]> Samples.sample_batch))).

(** One rank metric: the number of hits within the cutoff. *)
Definition sample_rank_m
  : list (string * (list (list bool) -> list Z -> Z -> Z)) :=
  [("hit",
    fun label _ cutoff =>
      Z.of_nat (length (List.filter (fun x : bool => x)
                          (concat (map (take (Z.to_nat cutoff)) label)))))].

(** [MetaSamples.ready_world] with a configuration whose [interval]
    is 0. *)
Definition zero_interval_world : Meta.World :=
  let w := MetaSamples.ready_world in
  let m := Meta.self w in
  Meta.mkWorld (Meta.store w) (Meta.fresh w)
    (Meta.mkMetaModel
       (<["train" := CDict (<["interval" := CInt 0]>
                              (<["warmup_epoch" := CInt 0]> ∅))]> ∅)
       (Meta.train_batches m) (Meta.item_embedding m) (Meta.sub_model m)
       (Meta.meta_module m) (Meta.meta_optimizer m) (Meta.step_counter m)
       (Meta.metaloader_iter m))
    (Meta.clock w) (Meta.calls w).

End ExtraSamples.
(** * Proofs *)

Lemma str_in_spec s l : str_in s l = true <-> In s l.
Proof.
  unfold str_in. rewrite existsb_exists. split.
  - intros (x & Hx & Heq). apply String.eqb_eq in Heq. now subst.
  - intros H. exists s. split; [exact H | apply String.eqb_refl].
Qed.

Lemma str_in_false s l : str_in s l = false <-> ~ In s l.
Proof.
  rewrite <- str_in_spec. destruct (str_in s l); split; congruence.
Qed.


Lemma mapM_res_ok {A B} (f : A -> res B) (l : list A) (l' : list B) :
  mapM_res f l = ok l' -> Forall2 (fun a b => f a = ok b) l l'.
Proof.
  revert l'. induction l as [|a l IH]; intros l' H; cbn in H.
  - inversion H. constructor.
  - destruct (f a) as [e|b] eqn:Hb; [discriminate H|]. cbn in H.
    destruct (mapM_res f l) as [e|bs]; [discriminate H|]. cbn in H.
    inversion H; subst. constructor; [exact Hb | now apply IH].
Qed.

Lemma mapM_res_total {A B} (f : A -> res B) (l : list A) :
  Forall (fun a => exists b, f a = ok b) l -> exists l', mapM_res f l = ok l'.
Proof.
  induction 1 as [|a l [b Hb] _ [bs Hbs]]; cbn.
  - now exists [].
  - rewrite Hb. cbn. rewrite Hbs. cbn. now exists (b :: bs).
Qed.

Lemma lookup_map {A B} (f : A -> B) (l : list A) (i : nat) :
  map f l !! i = f <$> (l !! i).
Proof.
  revert i. induction l as [|a l IH]; intros [|i]; cbn; try reflexivity.
  apply IH.
Qed.

Lemma lookup_map_Some {A B} (f : A -> B) (l : list A) (i : nat) (b : B) :
  map f l !! i = Some b -> exists a, l !! i = Some a /\ b = f a.
Proof.
  rewrite lookup_map. destruct (l !! i) as [a|]; cbn; intros H;
    inversion H. eauto.
Qed.

Lemma lookup_zip_Some {A B} (l : list A) (k : list B) (i : nat) (p : A * B) :
  zip l k !! i = Some p -> l !! i = Some (fst p) /\ k !! i = Some (snd p).
Proof.
  intros H. apply lookup_zip_with_Some in H as (a & b & -> & Ha & Hb).
  now split.
Qed.

Lemma lookup_repeat_Some {A} (x y : A) (n i : nat) :
  repeat x n !! i = Some y -> y = x /\ (i < n)%nat.
Proof.
  revert i. induction n as [|n IH]; intros [|i] H; cbn in H;
    try discriminate H.
  - inversion H. split; [reflexivity | lia].
  - destruct (IH _ H). split; [assumption | lia].
Qed.

Lemma lookup_repeat_lt {A} (x : A) (n i : nat) :
  (i < n)%nat -> repeat x n !! i = Some x.
Proof.
  revert i. induction n as [|n IH]; intros [|i] Hi; cbn;
    try lia; try reflexivity.
  apply IH. lia.
Qed.

Lemma mbind_mget {S B} (f : S -> M S B) (s : S) :
  mbind' mget f s = f s s.
Proof. reflexivity. Qed.

Lemma mbind_mlift_ok {S A B} (a : A) (f : A -> M S B) (s : S) :
  mbind' (mlift (ok a)) f s = f a s.
Proof. reflexivity. Qed.

Lemma mbind_ok_inv {S A B} (m : M S A) (f : A -> M S B) (s s' : S) (b : B) :
  mbind' m f s = (ok b, s') ->
  exists a s1, m s = (ok a, s1) /\ f a s1 = (ok b, s').
Proof.
  unfold mbind'. destruct (m s) as [[e|a] s1]; intros H.
  - discriminate H.
  - now exists a, s1.
Qed.

Lemma mbind_run {S A B} (m : M S A) (f : A -> M S B) (s s1 : S) (a : A) :
  m s = (ok a, s1) -> mbind' m f s = f a s1.
Proof. unfold mbind'. now intros ->. Qed.

Lemma mbind_mret {S A B} (a : A) (f : A -> M S B) (s : S) :
  mbind' (mret a) f s = f a s.
Proof. reflexivity. Qed.

(** ** SeqPoolingLayer *)

Module LayersFacts.
Import Layers.

(** C10: construction succeeds exactly on the seven pooling types and
    then stores the given [pooling_type] (and [keepdim]) unchanged;
    any other value raises ValueError. *)
Theorem init_accepts_exactly_pooling_types (ty : string) (kd : bool) :
  (In ty pooling_types ->
     init ty kd = ok (mkSeqPoolingLayer ty kd)) /\
  (~ In ty pooling_types ->
     exists msg, init ty kd = raise (ValueError msg)).
Proof.
  unfold init. split; intros H.
  - apply str_in_spec in H. now rewrite H.
  - apply str_in_false in H. rewrite H. simpl. eauto.
Qed.

Lemma init_accepts_exactly_pooling_types_witness :
  init "mean" false = ok (mkSeqPoolingLayer "mean" false) /\
  exists msg, init "average" true = raise (ValueError msg).
Proof.
  split.
  - apply (init_accepts_exactly_pooling_types "mean" false).
    vm_compute. tauto.
  - apply (init_accepts_exactly_pooling_types "average" true).
    simpl. intros H. decompose [or] H; try discriminate; assumption.
Defined.

Section PoolingFacts.
Context {R : Type}.
Variables (zero eps : R).
Variables (add mul div : R -> R -> R).
Variable (of_int : Z -> R).
Variable (ltb : R -> R -> bool).

Local Abbreviation forward := (forward zero eps add mul div of_int ltb).
Local Abbreviation vsum := (vsum zero add).
Local Abbreviation masked_fill := (masked_fill (R := R)).

Local Abbreviation fill_row := (fill_row zero).

Lemma zip_with_keep (D : nat) (v : list R) :
  length v = D ->
  zip_with (fun e (m : bool) => if m then zero else e) v (repeat false D) = v.
Proof.
  intros <-. induction v as [|e v IH]; simpl; [reflexivity | now rewrite IH].
Qed.

Lemma zip_with_fill (D : nat) (v : list R) :
  length v = D ->
  zip_with (fun e (m : bool) => if m then zero else e) v (repeat true D)
  = repeat zero D.
Proof.
  intros <-. induction v as [|e v IH]; simpl; [reflexivity | now rewrite IH].
Qed.

Lemma fill_row_split (D : nat) (s : Z) (row : list (list R)) :
  Forall (fun v => length v = D) row ->
  forall a,
    fill_row D s a row
    = take (Z.to_nat s - a) row
      ++ repeat (repeat zero D) (length row - (Z.to_nat s - a)).
Proof.
  unfold fill_row. induction 1 as [|v row Hv Hrow IH]; intros a.
  - simpl. now rewrite take_nil.
  - cbn [length seq map zip_with]. rewrite (IH (S a)).
    destruct (Z.geb_spec (Z.of_nat a) s) as [Hge | Hlt].
    + assert (Hk : (Z.to_nat s - a = 0)%nat) by lia.
      assert (Hk' : (Z.to_nat s - S a = 0)%nat) by lia.
      rewrite Hk, Hk'. rewrite zip_with_fill by exact Hv.
      rewrite !take_0, !Nat.sub_0_r. reflexivity.
    + assert (Hk : (Z.to_nat s - a = S (Z.to_nat s - S a))%nat) by lia.
      rewrite Hk. rewrite zip_with_keep by exact Hv.
      cbn [take length Nat.sub app]. reflexivity.
Qed.

Lemma masked_fill_rows (L D : nat) (x : list (list (list R)))
    (seq_len : list Z) :
  Forall (fun row => length row = L) x ->
  masked_fill x (padding_mask L D seq_len) zero
  = zip_with (fun row s => fill_row D s 0 row) x seq_len.
Proof.
  unfold masked_fill, padding_mask, arange, fill_row.
  intros Hx. revert seq_len.
  induction Hx as [|row x Hrow Hx IH]; intros [|s seq_len]; simpl;
    try reflexivity.
  rewrite IH, Hrow. reflexivity.
Qed.

Lemma length_vsum_acc (D : nat) (vs : list (list R)) :
  Forall (fun v => length v = D) vs ->
  forall acc, length acc = D -> length (foldl (zip_with add) acc vs) = D.
Proof.
  induction 1 as [|v vs Hv Hvs IH]; intros acc Hacc; simpl; [exact Hacc|].
  apply IH. rewrite length_zip_with. lia.
Qed.

Lemma length_vsum (D : nat) (vs : list (list R)) :
  Forall (fun v => length v = D) vs -> length (vsum D vs) = D.
Proof.
  intros H. apply length_vsum_acc; [exact H | apply repeat_length].
Qed.

Lemma gather_rows_last (L D : nat) (x : list (list (list R))) :
  Forall (wf_rows L D) x ->
  forall seq_len : list Z,
    length seq_len = length x ->
    Forall (fun s => 1 <= s <= Z.of_nat L) seq_len ->
    exists rows,
      gather_rows L x seq_len = ok rows /\
      wf_rows (length x) D rows /\
      forall (i : nat) row s,
        x !! i = Some row -> seq_len !! i = Some s ->
        exists v, row !! Z.to_nat (s - 1) = Some v /\ rows !! i = Some v.
Proof.
  induction 1 as [|row x Hrow Hx IH]; intros [|s seq_len] Hlen Hs;
    try discriminate Hlen.
  - exists []. repeat split; [constructor | intros i row s H; discriminate H].
  - inversion Hs as [|? ? Hs1 Hs2]; subst.
    destruct (IH seq_len) as (rows & Hrows & [Hn Hd] & Hget);
      [simpl in Hlen; lia | exact Hs2 |].
    destruct Hrow as [HL HD].
    assert (Hidx : (Z.to_nat (s - 1) < length row)%nat) by lia.
    apply lookup_lt_is_Some_2 in Hidx as [v Hv].
    exists (v :: rows). cbn [gather_rows]. unfold gather_last.
    replace ((0 <=? s - 1) && (s - 1 <? Z.of_nat L)) with true
      by (symmetry; apply andb_true_iff; split;
          [apply Z.leb_le | apply Z.ltb_lt]; lia).
    rewrite Hv. cbn. rewrite Hrows. cbn. repeat split.
    + cbn. now rewrite Hn.
    + constructor; [|exact Hd].
      eapply Forall_lookup_1 in HD; [exact HD | exact Hv].
    + intros [|i] row' s' Hi Hsi; cbn in Hi, Hsi.
      * inversion Hi; inversion Hsi; subst. exists v. now split.
      * now apply Hget.
Qed.

Lemma gather_last_rows (L D : nat) (x : list (list (list R))) :
  Forall (wf_rows L D) x ->
  forall seq_len : list Z,
    length seq_len = length x ->
    Forall (fun s => 1 <= s <= Z.of_nat L) seq_len ->
    exists rows,
      gather L D x seq_len = ok rows /\
      wf_rows (length x) D rows /\
      forall (i : nat) row s,
        x !! i = Some row -> seq_len !! i = Some s ->
        exists v, row !! Z.to_nat (s - 1) = Some v /\ rows !! i = Some v.
Proof.
  intros Hx seq_len Hlen Hs. unfold gather.
  destruct (Nat.eqb_spec D 0) as [-> | HD];
    [|now apply gather_rows_last].
  exists (map (fun _ => []) seq_len). split; [reflexivity|]. split.
  - split; [now rewrite length_map|].
    apply Forall_lookup_2. intros i r Hi.
    apply lookup_map_Some in Hi as (s & _ & ->). reflexivity.
  - intros i row s Hrow Hsi.
    eapply Forall_lookup_1 in Hx; [|exact Hrow]. destruct Hx as [HL Hvs].
    eapply Forall_lookup_1 in Hs; [|exact Hsi].
    destruct (lookup_lt_is_Some_2 row (Z.to_nat (s - 1))) as [v Hv]; [lia|].
    exists v. split; [exact Hv|].
    eapply Forall_lookup_1 in Hvs; [|exact Hv].
    apply nil_length_inv in Hvs. subst v.
    now rewrite lookup_map, Hsi.
Qed.

(** Last pooling without a weight gathers the entries of the batch as
    they are. *)
Lemma last_pooling_plain
    (x : Tensor3 (R := R)) (N L D : nat) (seq_len : list Z)
    (mask_token : option (list (list bool))) :
  shape3 x = (N, L, D) -> wf3 x ->
  length seq_len = N ->
  Forall (fun s => 1 <= s <= Z.of_nat L) seq_len ->
  exists rows,
    forward (mkSeqPoolingLayer "last" false) x seq_len None mask_token
      = ok (Out2 (mkT2 (N, D) rows)) /\
    wf2 (mkT2 (N, D) rows) /\
    forall (i : nat) row s,
      data3 x !! i = Some row -> seq_len !! i = Some s ->
      exists v, row !! Z.to_nat (s - 1) = Some v /\ rows !! i = Some v.
Proof.
  intros Hshape Hwf Hlen Hs. unfold wf3 in Hwf. rewrite Hshape in Hwf.
  destruct Hwf as [Hn Hrows].
  destruct (gather_last_rows L D (data3 x) Hrows seq_len)
    as (rows & Hg & Hwfr & Hget); [lia | exact Hs |].
  exists rows. unfold Layers.forward. rewrite Hshape.
  cbn [pooling_type keepdim String.eqb Ascii.eqb Bool.eqb str_in existsb orb
       negb]. rewrite Hg. cbn.
  rewrite Hn in Hwfr. destruct Hwfr as [Hlr Hd]. rewrite Hlr.
  repeat split; assumption.
Qed.

(** C3, as amended: without a weight, last pooling of a 3-D batch with
    [keepdim=False] returns the [N, D] tensor whose row [i] is the
    embedding at position [seq_len[i]-1] of sequence [i]. *)
Theorem last_pooling_no_weight
    (x : Tensor3 (R := R)) (N L D : nat) (seq_len : list Z)
    (mask_token : option (list (list bool))) :
  shape3 x = (N, L, D) -> wf3 x ->
  length seq_len = N ->
  Forall (fun s => 1 <= s <= Z.of_nat L) seq_len ->
  exists rows,
    forward (mkSeqPoolingLayer "last" false) x seq_len None mask_token
      = ok (Out2 (mkT2 (N, D) rows)) /\
    wf2 (mkT2 (N, D) rows) /\
    forall (i : nat) row s,
      data3 x !! i = Some row -> seq_len !! i = Some s ->
      exists v, row !! Z.to_nat (s - 1) = Some v /\ rows !! i = Some v.
Proof. exact (last_pooling_plain x N L D seq_len mask_token). Qed.

(** X21: [GRU4Rec.forward] in evaluation mode is last pooling without a
    weight: it returns for every user the encoder's output at the last
    valid position [seq_len[i]-1]. *)
Lemma gru4rec_eval_forward_last
    (query_encoder : gmap string Base.tensor -> res (Tensor3 (R := R)))
    (batch : gmap string Base.tensor)
    (x : Tensor3 (R := R)) (N L D : nat) (seq_len : list Z) :
  query_encoder batch = ok x ->
  batch !! "seqlen" = Some (Base.T1 seq_len) ->
  shape3 x = (N, L, D) -> wf3 x ->
  length seq_len = N ->
  Forall (fun s => 1 <= s <= Z.of_nat L) seq_len ->
  exists rows,
    GRU4Rec.forward zero eps add mul div of_int ltb query_encoder
      false batch true
      = ok (Out2 (mkT2 (N, D) rows)) /\
    forall (i : nat) row s,
      data3 x !! i = Some row -> seq_len !! i = Some s ->
      exists v, row !! Z.to_nat (s - 1) = Some v /\ rows !! i = Some v.
Proof.
  intros Henc Hseq Hshape Hwf Hlen Hs.
  destruct (last_pooling_plain x N L D seq_len None Hshape Hwf Hlen Hs)
    as (rows & Hfwd & _ & Hget).
  exists rows. split; [|exact Hget].
  unfold GRU4Rec.forward, GRU4Rec.seqlen_of. rewrite Henc. cbn [rbind ok].
  rewrite Hseq. cbn [rbind ok]. exact Hfwd.
Qed.

(** X22: with a weight of shape [N, L], last pooling returns for every
    sequence the weighted embedding
    [weight[i][seq_len[i]-1] * x[i][seq_len[i]-1]]. *)
Lemma last_pooling_weighted
    (x : Tensor3 (R := R)) (N L D : nat) (seq_len : list Z)
    (w : list (list R)) (mask_token : option (list (list bool))) :
  shape3 x = (N, L, D) -> wf3 x -> wf_rows N L w ->
  length seq_len = N ->
  Forall (fun s => 1 <= s <= Z.of_nat L) seq_len ->
  exists rows,
    forward (mkSeqPoolingLayer "last" false) x seq_len (Some w) mask_token
      = ok (Out2 (mkT2 (N, D) rows)) /\
    forall (i : nat) row wr s,
      data3 x !! i = Some row -> w !! i = Some wr -> seq_len !! i = Some s ->
      exists v wj,
        row !! Z.to_nat (s - 1) = Some v /\
        wr !! Z.to_nat (s - 1) = Some wj /\
        rows !! i = Some (map (mul wj) v).
Proof.
  intros Hshape Hwf [Hwn Hwl] Hlen Hs. unfold wf3 in Hwf.
  rewrite Hshape in Hwf. destruct Hwf as [Hn Hrows].
  assert (Hwx : Forall (wf_rows L D) (apply_weight mul w (data3 x))).
  { apply Forall_lookup_2. intros i r Hi. unfold apply_weight in Hi.
    apply lookup_zip_with_Some in Hi as (wr & row & -> & Hwr & Hrow).
    eapply Forall_lookup_1 in Hrows; [|exact Hrow].
    eapply Forall_lookup_1 in Hwl; [|exact Hwr].
    destruct Hrows as [HL HD]. split.
    - rewrite length_zip_with. lia.
    - apply Forall_lookup_2. intros j u Hj.
      apply lookup_zip_with_Some in Hj as (wj & v & -> & _ & Hv).
      rewrite length_map. eapply Forall_lookup_1 in HD; [exact HD | exact Hv]. }
  assert (Hlw : length (apply_weight mul w (data3 x)) = N).
  { unfold apply_weight. rewrite length_zip_with. lia. }
  destruct (gather_last_rows L D _ Hwx seq_len)
    as (rows & Hg & [Hlr Hd] & Hget); [lia | exact Hs |].
  exists rows. unfold Layers.forward. rewrite Hshape.
  cbn [pooling_type keepdim String.eqb Ascii.eqb Bool.eqb str_in existsb orb
       negb]. rewrite Hg. cbn.
  rewrite Hlr, Hlw. split; [reflexivity|].
  intros i row wr s Hrow Hwr Hsi.
  destruct (Hget i (zip_with (fun wj v => map (mul wj) v) wr row) s)
    as (u & Hu & Hri); [| exact Hsi |].
  { unfold apply_weight. apply lookup_zip_with_Some. eauto. }
  apply lookup_zip_with_Some in Hu as (wj & v & -> & Hwj & Hv).
  exists v, wj. auto.
Qed.

(** Max pooling never hands back a plain tensor: without [keepdim] it
    is the (values, indices) pair or an error, with [keepdim] it always
    raises. *)
Lemma max_pooling_never_tensor (kd : bool)
    (x : Tensor3 (R := R)) (seq_len : list Z)
    (weight : option (list (list R)))
    (mask_token : option (list (list bool))) :
  match forward (mkSeqPoolingLayer "max" kd) x seq_len weight mask_token with
  | inr (OutMax _ _) => kd = false
  | inr _ => False
  | inl e => e = IndexError \/ (kd = true /\ e = AttributeError)
  end.
Proof.
  unfold Layers.forward. destruct (shape3 x) as [[N L] D].
  destruct kd; cbn; unfold max_dim1; destruct (L =? 0)%nat; cbn; auto.
Qed.

Section WithNeutralZero.
Hypothesis add_zero_r : forall x : R, add x zero = x.

Lemma vadd_zeros (acc : list R) :
  zip_with add acc (repeat zero (length acc)) = acc.
Proof.
  induction acc as [|e acc IH]; simpl; [reflexivity|].
  now rewrite add_zero_r, IH.
Qed.

Lemma foldl_zero_rows (D n : nat) (acc : list R) :
  length acc = D ->
  foldl (zip_with add) acc (repeat (repeat zero D) n) = acc.
Proof.
  intros <-. induction n as [|n IH]; simpl; [reflexivity|].
  now rewrite vadd_zeros.
Qed.

(** Summing a padded row is summing its valid prefix. *)
Lemma vsum_fill_row (D : nat) (s : Z) (row : list (list R)) :
  Forall (fun v => length v = D) row ->
  vsum D (fill_row D s 0 row) = vsum D (take (Z.to_nat s) row).
Proof.
  intros Hrow. rewrite (fill_row_split D s row Hrow 0), Nat.sub_0_r.
  unfold Layers.vsum. rewrite foldl_app. apply foldl_zero_rows.
  apply length_vsum_acc; [| apply repeat_length].
  now apply Forall_take.
Qed.

Lemma zip_with_zip_with_l {A B C E} (f : C -> B -> E) (g : A -> B -> C)
    (l : list A) (k : list B) :
  zip_with f (zip_with g l k) k = zip_with (fun a b => f (g a b) b) l k.
Proof.
  revert k. induction l as [|a l IH]; intros [|b k]; simpl; try reflexivity.
  now rewrite IH.
Qed.

Lemma zip_with_ext_Forall {A B C} (P : A -> Prop) (f g : A -> B -> C)
    (l : list A) (k : list B) :
  Forall P l -> (forall a b, P a -> f a b = g a b) ->
  zip_with f l k = zip_with g l k.
Proof.
  intros Hl Hfg. revert k.
  induction Hl as [|a l Ha Hl IH]; intros [|b k]; simpl; try reflexivity.
  now rewrite IH, (Hfg a b Ha).
Qed.

Lemma mean_rows (L D : nat) (x : list (list (list R))) (seq_len : list Z) :
  Forall (wf_rows L D) x ->
  zip_with (fun r s => map (fun e => div e (of_int s)) (vsum D r))
    (masked_fill x (padding_mask L D seq_len) zero) seq_len
  = zip_with (fun p s => map (fun e => div e (of_int s)) (vsum D p))
      (prefixes x seq_len) seq_len.
Proof.
  intros Hx. rewrite masked_fill_rows.
  2:{ eapply Forall_impl; [exact Hx|]. now intros row [Hlen _]. }
  unfold prefixes. rewrite !zip_with_zip_with_l.
  apply zip_with_ext_Forall with (P := wf_rows L D); [exact Hx|].
  intros row s [_ Hrow]. now rewrite vsum_fill_row.
Qed.

(** C2: mean pooling of a 3-D batch without weight and with
    [keepdim=False] returns the [N, D] tensor whose row [i] is the
    elementwise sum of the first [seq_len[i]] embeddings of sequence [i]
    divided by [seq_len[i]]; a batch that differs only at positions
    [seq_len[i]] or beyond gives the same result. *)
Theorem mean_pooling_is_prefix_mean
    (x : Tensor3 (R := R)) (N L D : nat) (seq_len : list Z)
    (mask_token : option (list (list bool))) :
  shape3 x = (N, L, D) -> wf3 x ->
  length seq_len = N ->
  Forall (fun s => 1 <= s <= Z.of_nat L) seq_len ->
  let means :=
    zip_with (fun p s => map (fun e => div e (of_int s)) (vsum D p))
      (prefixes (data3 x) seq_len) seq_len in
  forward (mkSeqPoolingLayer "mean" false) x seq_len None mask_token
    = ok (Out2 (mkT2 (N, D) means)) /\
  wf2 (mkT2 (N, D) means) /\
  forall x' : Tensor3 (R := R),
    shape3 x' = (N, L, D) -> wf3 x' ->
    prefixes (data3 x') seq_len = prefixes (data3 x) seq_len ->
    forward (mkSeqPoolingLayer "mean" false) x' seq_len None mask_token
    = forward (mkSeqPoolingLayer "mean" false) x seq_len None mask_token.
Proof.
  intros Hshape Hwf Hlen _ means.
  assert (Hfwd : forall y : Tensor3 (R := R),
    shape3 y = (N, L, D) -> wf3 y ->
    forward (mkSeqPoolingLayer "mean" false) y seq_len None mask_token
    = ok (Out2 (mkT2 (N, D)
        (zip_with (fun p s => map (fun e => div e (of_int s)) (vsum D p))
           (prefixes (data3 y) seq_len) seq_len)))).
  { intros y Hy Hwfy. unfold wf3 in Hwfy. unfold Layers.forward.
    rewrite Hy in *. cbn. destruct Hwfy as [_ Hrows].
    now rewrite mean_rows. }
  split; [now apply Hfwd|]. split.
  - unfold wf3 in Hwf. rewrite Hshape in Hwf. destruct Hwf as [Hn Hrows].
    unfold wf2, wf_rows. cbn. subst means. split.
    + unfold prefixes. rewrite !length_zip_with. lia.
    + apply Forall_lookup_2. intros i r Hi.
      apply lookup_zip_with_Some in Hi as (p & s & -> & Hp & _).
      rewrite length_map. apply length_vsum.
      unfold prefixes in Hp.
      apply lookup_zip_with_Some in Hp as (row & s' & -> & Hrow & _).
      apply Forall_take.
      eapply Forall_lookup_1 in Hrows; [|exact Hrow]. apply Hrows.
  - intros x' Hshape' Hwf' Hpre. rewrite !Hfwd by assumption.
    now rewrite Hpre.
Qed.

(** *** The other branches of [forward] *)

Lemma Forall_repeat {A} (P : A -> Prop) (a : A) (n : nat) :
  P a -> Forall P (repeat a n).
Proof. intros Ha. induction n; simpl; constructor; assumption. Qed.

Lemma map_zip_with_compose {A B C E} (f : C -> E) (g : A -> B -> C)
    (l : list A) (k : list B) :
  map f (zip_with g l k) = zip_with (fun a b => f (g a b)) l k.
Proof.
  revert k. induction l as [|a l IH]; intros [|b k]; simpl; try reflexivity.
  now rewrite IH.
Qed.

Lemma weighted_wf (N L D : nat) (x : list (list (list R)))
    (weight : option (list (list R))) :
  length x = N -> Forall (wf_rows L D) x ->
  match weight with Some w => wf_rows N L w | None => True end ->
  length (weighted mul weight x) = N /\
  Forall (wf_rows L D) (weighted mul weight x).
Proof.
  intros Hn Hrows Hw. destruct weight as [w|]; unfold weighted;
    [|now split].
  destruct Hw as [Hwn Hwl]. split.
  - unfold apply_weight. rewrite length_zip_with. lia.
  - apply Forall_lookup_2. intros i r Hi. unfold apply_weight in Hi.
    apply lookup_zip_with_Some in Hi as (wr & row & -> & Hwr & Hrow).
    eapply Forall_lookup_1 in Hrows; [|exact Hrow].
    eapply Forall_lookup_1 in Hwl; [|exact Hwr].
    destruct Hrows as [HL HD]. split.
    + rewrite length_zip_with. lia.
    + apply Forall_lookup_2. intros j u Hj.
      apply lookup_zip_with_Some in Hj as (wj & v & -> & _ & Hv).
      rewrite length_map. eapply Forall_lookup_1 in HD; [exact HD | exact Hv].
Qed.

(** The four branch equations used below: what [forward] computes once
    the pooling type is fixed. *)
Lemma forward_origin (kd : bool) (x : Tensor3 (R := R)) (N L D : nat)
    (seq_len : list Z) (weight : option (list (list R)))
    (mask_token : option (list (list bool))) :
  shape3 x = (N, L, D) ->
  forward (mkSeqPoolingLayer "origin" kd) x seq_len weight mask_token
  = ok (Out3 (mkT3 (N, L, D)
      (masked_fill (weighted mul weight (data3 x))
         (padding_mask L D seq_len) zero))).
Proof. intros H. unfold Layers.forward. rewrite H. reflexivity. Qed.

Lemma forward_sum (kd : bool) (x : Tensor3 (R := R)) (N L D : nat)
    (seq_len : list Z) (weight : option (list (list R)))
    (mask_token : option (list (list bool))) :
  shape3 x = (N, L, D) ->
  forward (mkSeqPoolingLayer "sum" kd) x seq_len weight mask_token
  = ok (if kd
        then Out3 (mkT3 (N, 1%nat, D)
               (map (fun r => [vsum D r])
                  (masked_fill (weighted mul weight (data3 x))
                     (padding_mask L D seq_len) zero)))
        else Out2 (mkT2 (N, D)
               (map (vsum D)
                  (masked_fill (weighted mul weight (data3 x))
                     (padding_mask L D seq_len) zero)))).
Proof. intros H. unfold Layers.forward. rewrite H. now destruct kd. Qed.

Lemma forward_mean (kd : bool) (x : Tensor3 (R := R)) (N L D : nat)
    (seq_len : list Z) (weight : option (list (list R)))
    (mask_token : option (list (list bool))) :
  shape3 x = (N, L, D) ->
  forward (mkSeqPoolingLayer "mean" kd) x seq_len weight mask_token
  = ok (if kd
        then Out3 (mkT3 (N, 1%nat, D)
               (zip_with (fun r s =>
                  [map (fun e => div e (add (of_int s) eps)) (vsum D r)])
                  (masked_fill (weighted mul weight (data3 x))
                     (padding_mask L D seq_len) zero) seq_len))
        else Out2 (mkT2 (N, D)
               (zip_with (fun r s =>
                  map (fun e => div e (of_int s)) (vsum D r))
                  (masked_fill (weighted mul weight (data3 x))
                     (padding_mask L D seq_len) zero) seq_len))).
Proof. intros H. unfold Layers.forward. rewrite H. now destruct kd. Qed.

Lemma forward_max (x : Tensor3 (R := R)) (N L D : nat)
    (seq_len : list Z) (weight : option (list (list R)))
    (mask_token : option (list (list bool))) :
  shape3 x = (N, L, D) ->
  forward (mkSeqPoolingLayer "max" false) x seq_len weight mask_token
  = max_dim1 ltb N L D
      (masked_fill (weighted mul weight (data3 x))
         (padding_mask L D seq_len) zero).
Proof. intros H. unfold Layers.forward. rewrite H. reflexivity. Qed.

Lemma forward_mask (kd : bool) (x : Tensor3 (R := R)) (N L D : nat)
    (seq_len : list Z) (weight : option (list (list R)))
    (m : list (list bool)) :
  shape3 x = (N, L, D) ->
  forward (mkSeqPoolingLayer "mask" kd) x seq_len weight (Some m)
  = ok (Out2 (mkT2
      (length (bool_index (weighted mul weight (data3 x)) m), D)
      (bool_index (weighted mul weight (data3 x)) m))).
Proof. intros H. unfold Layers.forward. rewrite H. reflexivity. Qed.

Lemma pad_rows (L D : nat) (x : list (list (list R))) (seq_len : list Z) :
  Forall (wf_rows L D) x ->
  masked_fill x (padding_mask L D seq_len) zero
  = zip_with (fun row s => zero_padded zero L D s row) x seq_len.
Proof.
  intros Hx. rewrite masked_fill_rows.
  2:{ eapply Forall_impl; [exact Hx|]. now intros row [Hlen _]. }
  apply zip_with_ext_Forall with (P := wf_rows L D); [exact Hx|].
  intros row s [HL HD]. rewrite (fill_row_split D s row HD 0).
  unfold zero_padded. now rewrite Nat.sub_0_r, HL.
Qed.

Lemma zero_padded_wf (L D : nat) (s : Z) (row : list (list R)) :
  wf_rows L D row -> wf_rows L D (zero_padded zero L D s row).
Proof.
  intros [HL HD]. unfold zero_padded. split.
  - rewrite length_app, length_take, repeat_length. lia.
  - apply Forall_app. split; [now apply Forall_take|].
    apply Forall_repeat, repeat_length.
Qed.

Lemma zero_padded_idemp (L D : nat) (s : Z) (row : list (list R)) :
  length row = L ->
  zero_padded zero L D s (zero_padded zero L D s row)
  = zero_padded zero L D s row.
Proof.
  intros HL. unfold zero_padded. f_equal.
  rewrite take_app, take_idemp, length_take, HL.
  destruct (Nat.le_gt_cases (Z.to_nat s) L) as [Hle|Hgt].
  - replace (Z.to_nat s - Nat.min (Z.to_nat s) L)%nat with 0%nat by lia.
    now rewrite take_0, app_nil_r.
  - replace (L - Z.to_nat s)%nat with 0%nat by lia.
    cbn [repeat]. now rewrite take_nil, app_nil_r.
Qed.

Lemma padded_rows_wf (L D : nat) (x : list (list (list R)))
    (seq_len : list Z) :
  Forall (wf_rows L D) x ->
  Forall (wf_rows L D)
    (zip_with (fun row s => zero_padded zero L D s row) x seq_len).
Proof.
  intros Hx. apply Forall_lookup_2. intros i r Hi.
  apply lookup_zip_with_Some in Hi as (row & s & -> & Hrow & _).
  apply zero_padded_wf.
  eapply Forall_lookup_1 in Hx; [exact Hx | exact Hrow].
Qed.

(** X1: origin pooling returns the batch with every sequence cut to its
    first [seq_len[i]] positions and zero vectors after them, whatever
    [keepdim] is, and pooling the result again changes nothing. *)
Theorem origin_pooling_zero_pads (kd : bool)
    (x : Tensor3 (R := R)) (N L D : nat) (seq_len : list Z)
    (mask_token : option (list (list bool))) :
  shape3 x = (N, L, D) -> wf3 x ->
  length seq_len = N ->
  let padded :=
    mkT3 (N, L, D)
      (zip_with (fun row s => zero_padded zero L D s row)
         (data3 x) seq_len) in
  forward (mkSeqPoolingLayer "origin" kd) x seq_len None mask_token
    = ok (Out3 padded) /\
  wf3 padded /\
  forward (mkSeqPoolingLayer "origin" kd) padded seq_len None mask_token
    = ok (Out3 padded).
Proof.
  intros Hshape Hwf Hlen. cbv zeta.
  unfold wf3 in Hwf. rewrite Hshape in Hwf. destruct Hwf as [Hn Hrows].
  pose proof (padded_rows_wf L D (data3 x) seq_len Hrows) as Hpad.
  split; [|split].
  - rewrite (forward_origin kd x N L D seq_len None mask_token Hshape).
    unfold weighted. now rewrite (pad_rows L D _ seq_len Hrows).
  - unfold wf3. cbn [shape3 data3]. split; [|exact Hpad].
    rewrite length_zip_with. lia.
  - rewrite (forward_origin kd (mkT3 (N, L, D) _) N L D seq_len None
               mask_token eq_refl).
    unfold weighted. cbn [data3]. rewrite (pad_rows L D _ seq_len Hpad).
    rewrite zip_with_zip_with_l. do 3 f_equal.
    apply zip_with_ext_Forall with (P := wf_rows L D); [exact Hrows|].
    intros row s [HL _]. cbv beta. now apply zero_padded_idemp.
Qed.

(** X2: sum pooling returns for every sequence the elementwise sum of
    its first [seq_len[i]] embeddings, each scaled by its weight when a
    weight is passed; [keepdim=True] wraps every row into a sequence of
    length one. *)
Theorem sum_pooling_is_weighted_prefix_sum
    (x : Tensor3 (R := R)) (N L D : nat) (seq_len : list Z)
    (weight : option (list (list R)))
    (mask_token : option (list (list bool))) :
  shape3 x = (N, L, D) -> wf3 x ->
  length seq_len = N ->
  match weight with Some w => wf_rows N L w | None => True end ->
  let sums :=
    map (vsum D) (prefixes (weighted mul weight (data3 x)) seq_len) in
  forward (mkSeqPoolingLayer "sum" false) x seq_len weight mask_token
    = ok (Out2 (mkT2 (N, D) sums)) /\
  forward (mkSeqPoolingLayer "sum" true) x seq_len weight mask_token
    = ok (Out3 (mkT3 (N, 1%nat, D) (map (fun v => [v]) sums))) /\
  wf2 (mkT2 (N, D) sums).
Proof.
  intros Hshape Hwf Hlen Hw. cbv zeta.
  unfold wf3 in Hwf. rewrite Hshape in Hwf. destruct Hwf as [Hn Hrows].
  destruct (weighted_wf N L D (data3 x) weight Hn Hrows Hw) as [Hny Hy].
  rewrite !(forward_sum _ x N L D seq_len weight mask_token Hshape).
  set (y := weighted mul weight (data3 x)) in *.
  assert (Hsum : map (vsum D) (masked_fill y (padding_mask L D seq_len) zero)
                 = map (vsum D) (prefixes y seq_len)).
  { rewrite masked_fill_rows.
    2:{ eapply Forall_impl; [exact Hy|]. now intros row [Hl _]. }
    unfold prefixes. rewrite !map_zip_with_compose.
    apply zip_with_ext_Forall with (P := wf_rows L D); [exact Hy|].
    intros row s [_ HD]. cbv beta. now apply vsum_fill_row. }
  split; [|split].
  - now rewrite Hsum.
  - rewrite <- Hsum, map_map. reflexivity.
  - unfold wf2, wf_rows. cbn [shape2 data2]. split.
    + rewrite length_map. unfold prefixes. rewrite length_zip_with. lia.
    + apply Forall_lookup_2. intros i r Hi.
      apply lookup_map_Some in Hi as (p & Hp & ->).
      apply length_vsum. unfold prefixes in Hp.
      apply lookup_zip_with_Some in Hp as (row & s & -> & Hrow & _).
      apply Forall_take.
      eapply Forall_lookup_1 in Hy; [|exact Hrow]. apply Hy.
Qed.

(** Cutting to the valid prefix commutes with the weights. *)
Lemma prefixes_apply_weight (w : list (list R)) (x : list (list (list R)))
    (seq_len : list Z) :
  prefixes (apply_weight mul w x) seq_len
  = zip_with (zip_with (fun wj v => map (mul wj) v))
      (zip_with (fun r s => take (Z.to_nat s) r) w seq_len)
      (prefixes x seq_len).
Proof.
  unfold prefixes, apply_weight. revert x seq_len.
  induction w as [|wr w IH]; intros [|xr x] [|s seq_len]; cbn;
    try reflexivity.
  f_equal; [|apply IH]. generalize (Z.to_nat s) as n. revert xr.
  induction wr as [|a wr IHw]; intros [|v xr] [|n]; cbn; try reflexivity.
  now rewrite IHw.
Qed.

Lemma reduce_rows {B} (f : list R -> Z -> B) (L D : nat)
    (x : list (list (list R))) (seq_len : list Z) :
  Forall (wf_rows L D) x ->
  zip_with (fun r s => f (vsum D r) s)
    (masked_fill x (padding_mask L D seq_len) zero) seq_len
  = zip_with (fun p s => f (vsum D p) s) (prefixes x seq_len) seq_len.
Proof.
  intros Hx. rewrite masked_fill_rows.
  2:{ eapply Forall_impl; [exact Hx|]. now intros row [Hlen _]. }
  unfold prefixes. rewrite !zip_with_zip_with_l.
  apply zip_with_ext_Forall with (P := wf_rows L D); [exact Hx|].
  intros row s [_ Hrow]. cbv beta. now rewrite vsum_fill_row.
Qed.

(** X3: with a weight of shape [N, L] and [keepdim=False], mean pooling
    returns the [N, D] tensor whose row [i] is the elementwise sum of
    the first [seq_len[i]] embeddings of sequence [i], each scaled by
    its weight, divided by [seq_len[i]]: the weights scale the
    embeddings and do not enter the divisor, and what stands at the
    padding positions has no effect. *)
Theorem mean_pooling_weighted_divides_by_length
    (x : Tensor3 (R := R)) (N L D : nat) (seq_len : list Z)
    (w : list (list R)) (mask_token : option (list (list bool))) :
  shape3 x = (N, L, D) -> wf3 x ->
  length seq_len = N -> wf_rows N L w ->
  forward (mkSeqPoolingLayer "mean" false) x seq_len (Some w) mask_token
    = ok (Out2 (mkT2 (N, D)
        (zip_with (fun p s => map (fun e => div e (of_int s)) (vsum D p))
           (prefixes (apply_weight mul w (data3 x)) seq_len) seq_len))) /\
  forall (x' : Tensor3 (R := R)) (w' : list (list R)),
    shape3 x' = (N, L, D) -> wf3 x' -> wf_rows N L w' ->
    prefixes (data3 x') seq_len = prefixes (data3 x) seq_len ->
    zip_with (fun r s => take (Z.to_nat s) r) w' seq_len
    = zip_with (fun r s => take (Z.to_nat s) r) w seq_len ->
    forward (mkSeqPoolingLayer "mean" false) x' seq_len (Some w') mask_token
    = forward (mkSeqPoolingLayer "mean" false) x seq_len (Some w) mask_token.
Proof.
  intros Hshape Hwf _ Hw.
  assert (Hrun : forall (y : Tensor3 (R := R)) (v : list (list R)),
            shape3 y = (N, L, D) -> wf3 y -> wf_rows N L v ->
            forward (mkSeqPoolingLayer "mean" false) y seq_len (Some v)
              mask_token
            = ok (Out2 (mkT2 (N, D)
                (zip_with
                   (fun p s => map (fun e => div e (of_int s)) (vsum D p))
                   (prefixes (apply_weight mul v (data3 y)) seq_len)
                   seq_len)))).
  { intros y v Hs Hy Hv. unfold wf3 in Hy. rewrite Hs in Hy.
    destruct Hy as [Hn Hrows].
    destruct (weighted_wf N L D (data3 y) (Some v) Hn Hrows Hv) as [_ Hy].
    rewrite (forward_mean _ y N L D seq_len (Some v) mask_token Hs).
    do 3 f_equal.
    apply (reduce_rows
             (fun u s => map (fun e => div e (of_int s)) u) L D _ seq_len Hy). }
  split; [now apply Hrun|].
  intros x' w' Hshape' Hwf' Hw' Hx Hweights.
  rewrite (Hrun x' w' Hshape' Hwf' Hw'), (Hrun x w Hshape Hwf Hw).
  do 4 f_equal.
  rewrite !prefixes_apply_weight. now rewrite Hx, Hweights.
Qed.

Lemma one_hot_pick {A} (row : list A) (p a : nat) :
  concat (zip_with (fun v (b : bool) => if b then [v] else []) row
            (map (fun j => (j =? p)%nat) (seq a (length row))))
  = if (a <=? p)%nat
    then match row !! (p - a)%nat with Some v => [v] | None => [] end
    else [].
Proof.
  revert a. induction row as [|v row IH]; intros a.
  - cbn. now destruct (a <=? p)%nat.
  - cbn [length seq map zip_with concat]. rewrite (IH (S a)).
    destruct (Nat.eqb_spec a p) as [->|Hne].
    + replace (S p <=? p)%nat with false by (symmetry; apply Nat.leb_gt; lia).
      rewrite Nat.leb_refl, Nat.sub_diag. reflexivity.
    + destruct (Nat.leb_spec a p) as [Hle|Hgt].
      * replace (S a <=? p)%nat with true by (symmetry; apply Nat.leb_le; lia).
        replace (p - a)%nat with (S (p - S a)) by lia. reflexivity.
      * replace (S a <=? p)%nat with false
          by (symmetry; apply Nat.leb_gt; lia).
        reflexivity.
Qed.

Lemma bool_index_one_hot (L D : nat) (x : list (list (list R))) :
  Forall (wf_rows L D) x ->
  forall pos : list nat,
    length pos = length x ->
    Forall (fun p => (p < L)%nat) pos ->
    exists rows,
      bool_index x (map (fun p => map (fun j => (j =? p)%nat) (seq 0 L)) pos)
        = rows /\
      length rows = length x /\
      forall (i p : nat) row,
        x !! i = Some row -> pos !! i = Some p -> rows !! i = row !! p.
Proof.
  induction 1 as [|row x Hrow Hx IH]; intros [|p pos] Hlen Hp;
    try discriminate Hlen.
  - exists []. repeat split. intros i p row H; discriminate H.
  - inversion Hp as [|? ? Hp1 Hp2]; subst.
    destruct (IH pos) as (rows & Hrows & Hn & Hget);
      [simpl in Hlen; lia | exact Hp2 |].
    destruct Hrow as [HL HD].
    assert (Hidx : (p < length row)%nat) by lia.
    apply lookup_lt_is_Some_2 in Hidx as [v Hv].
    exists (v :: rows). split; [|split].
    + unfold bool_index in *. cbn [map zip_with concat]. rewrite Hrows.
      rewrite <- HL, one_hot_pick. cbn [Nat.leb].
      now rewrite Nat.sub_0_r, Hv.
    + cbn. now rewrite Hn.
    + intros [|i] p' row' Hi Hpi; cbn in Hi, Hpi.
      * inversion Hi; inversion Hpi; subst. cbn. now rewrite Hv.
      * cbn. now apply Hget.
Qed.

(** X4: mask pooling needs a mask: without [mask_token] it raises
    AssertionError, with or without a weight.  With a mask that marks
    exactly one position
    [pos[i] < L] in every sequence it returns the [N, D] tensor whose
    row [i] is the embedding of sequence [i] at that position; [seq_len]
    and [keepdim] play no part. *)
Theorem mask_pooling_picks_marked_positions (kd : bool)
    (x : Tensor3 (R := R)) (N L D : nat) (seq_len : list Z)
    (weight : option (list (list R))) (pos : list nat) :
  shape3 x = (N, L, D) -> wf3 x ->
  match weight with Some w => wf_rows N L w | None => True end ->
  length pos = N -> Forall (fun p => (p < L)%nat) pos ->
  forward (mkSeqPoolingLayer "mask" kd) x seq_len weight None
    = raise AssertionError /\
  exists rows,
    forward (mkSeqPoolingLayer "mask" kd) x seq_len None
      (Some (map (fun p => map (fun j => (j =? p)%nat) (seq 0 L)) pos))
      = ok (Out2 (mkT2 (N, D) rows)) /\
    length rows = N /\
    forall (i p : nat) row,
      data3 x !! i = Some row -> pos !! i = Some p ->
      rows !! i = row !! p.
Proof.
  intros Hshape Hwf _ Hlen Hpos.
  unfold wf3 in Hwf. rewrite Hshape in Hwf. destruct Hwf as [Hn Hrows].
  split.
  - unfold Layers.forward. rewrite Hshape. reflexivity.
  - destruct (bool_index_one_hot L D (data3 x) Hrows pos)
      as (rows & Hb & Hlr & Hget); [lia | exact Hpos |].
    exists rows.
    rewrite (forward_mask kd x N L D seq_len None _ Hshape).
    unfold weighted. rewrite Hb, Hlr, Hn. repeat split; assumption.
Qed.

Lemma vmax_from_locates (D : nat) (vs : list (list R)) :
  Forall (fun v => length v = D) vs ->
  forall (pre : list (list R)) (acc : list (R * nat)),
    length acc = D ->
    (forall k e j, acc !! k = Some (e, j) ->
       exists v, pre !! j = Some v /\ v !! k = Some e) ->
    length (vmax_from ltb (length pre) acc vs) = D /\
    forall k e j, vmax_from ltb (length pre) acc vs !! k = Some (e, j) ->
      exists v, (pre ++ vs) !! j = Some v /\ v !! k = Some e.
Proof.
  induction 1 as [|v vs Hv Hvs IH]; intros pre acc Hacc Hinv.
  - cbn [vmax_from]. rewrite app_nil_r. now split.
  - cbn [vmax_from].
    replace (S (length pre)) with (length (pre ++ [v]))
      by (rewrite length_app; cbn; lia).
    replace (pre ++ v :: vs) with ((pre ++ [v]) ++ vs)
      by (now rewrite <- app_assoc).
    apply IH.
    + unfold vmax_step. rewrite length_zip_with. lia.
    + intros k e j Hk. unfold vmax_step in Hk.
      apply lookup_zip_with_Some in Hk as (a & e' & Heq & Ha & He').
      destruct (ltb (fst a) e').
      * inversion Heq; subst. exists v. split; [|exact He'].
        now apply list_lookup_middle.
      * subst a. destruct (Hinv k e j Ha) as (u & Hu & Hue).
        exists u. split; [|exact Hue]. now apply lookup_app_l_Some.
Qed.

Lemma vmax_locates (D : nat) (vs : list (list R)) :
  vs <> [] -> Forall (fun v => length v = D) vs ->
  length (vmax ltb vs) = D /\
  forall k e j, vmax ltb vs !! k = Some (e, j) ->
    exists v, vs !! j = Some v /\ v !! k = Some e.
Proof.
  destruct vs as [|v0 vs]; [congruence|]. intros _ Hvs.
  inversion Hvs as [|? ? Hv0 Hvs']; subst. unfold vmax.
  apply (vmax_from_locates (length v0) vs Hvs' [v0]
           (map (fun e => (e, 0%nat)) v0)).
  - apply length_map.
  - intros k e j Hk. apply lookup_map_Some in Hk as (e0 & He0 & Heq).
    inversion Heq; subst. exists v0. now split.
Qed.

Lemma lookup_zero_padded (L D : nat) (s : Z) (row : list (list R))
    (j k : nat) (v : list R) (e : R) :
  length row = L ->
  zero_padded zero L D s row !! j = Some v -> v !! k = Some e ->
  (j < L)%nat /\
  if Z.of_nat j <? s then row !! j = Some v else e = zero.
Proof.
  intros HL Hj Hk. unfold zero_padded in Hj.
  assert (Hlt : (j < L)%nat).
  { apply lookup_lt_Some in Hj.
    rewrite length_app, length_take, repeat_length in Hj. lia. }
  split; [exact Hlt|].
  destruct (Z.ltb_spec (Z.of_nat j) s) as [Hin|Hout].
  - rewrite lookup_app_l in Hj by (rewrite length_take; lia).
    rewrite lookup_take_lt in Hj by lia. exact Hj.
  - rewrite lookup_app_r in Hj by (rewrite length_take; lia).
    apply lookup_repeat_Some in Hj as [-> _].
    now apply lookup_repeat_Some in Hk as [-> _].
Qed.

Section WithOrder.
(** The comparison by which [max] replaces its running value is a
    strict order. *)
Hypothesis ltb_irrefl : forall a : R, ltb a a = false.
Hypothesis ltb_trans :
  forall a b c : R, ltb a b = true -> ltb b c = true -> ltb a c = true.

Lemma vmax_from_greatest (D : nat) (vs : list (list R)) :
  Forall (fun v => length v = D) vs ->
  forall (pre : list (list R)) (acc : list (R * nat)),
    length acc = D ->
    (forall (k : nat) e j, acc !! k = Some (e, j) ->
       forall (j' : nat) v' e',
         pre !! j' = Some v' -> v' !! k = Some e' -> ltb e e' = false) ->
    forall (k : nat) e j,
      vmax_from ltb (length pre) acc vs !! k = Some (e, j) ->
      forall (j' : nat) v' e',
        (pre ++ vs) !! j' = Some v' -> v' !! k = Some e' -> ltb e e' = false.
Proof.
  induction 1 as [|v vs Hv Hvs IH]; intros pre acc Hacc Hinv.
  - cbn [vmax_from]. rewrite app_nil_r. exact Hinv.
  - cbn [vmax_from].
    replace (S (length pre)) with (length (pre ++ [v]))
      by (rewrite length_app; cbn; lia).
    replace (pre ++ v :: vs) with ((pre ++ [v]) ++ vs)
      by (now rewrite <- app_assoc).
    apply IH.
    + unfold vmax_step. rewrite length_zip_with. lia.
    + intros k e j Hk j' v' e' Hj' He'. unfold vmax_step in Hk.
      apply lookup_zip_with_Some in Hk as (a & ev & Heq & Ha & Hev).
      destruct a as [ea ja]. cbn [fst] in Heq.
      destruct (decide (j' < length pre)%nat) as [Hlt | Hge].
      * rewrite lookup_app_l in Hj' by exact Hlt.
        pose proof (Hinv k ea ja Ha j' v' e' Hj' He') as Hold.
        destruct (ltb ea ev) eqn:Hnew.
        -- assert (Hee0 : e = ev) by congruence. rewrite Hee0.
           destruct (ltb ev e') eqn:Hee; [|reflexivity].
           rewrite (ltb_trans _ _ _ Hnew Hee) in Hold. discriminate Hold.
        -- assert (Hea : e = ea) by congruence. rewrite Hea. exact Hold.
      * rewrite lookup_app_r in Hj' by lia.
        destruct (j' - length pre)%nat as [|n] eqn:Hn; [|discriminate Hj'].
        cbn in Hj'. inversion Hj'; subst v'.
        assert (He'v : e' = ev) by congruence. rewrite He'v.
        destruct (ltb ea ev) eqn:Hnew.
        -- assert (Hee0 : e = ev) by congruence. rewrite Hee0.
           apply ltb_irrefl.
        -- assert (Hea : e = ea) by congruence. rewrite Hea. exact Hnew.
Qed.

Lemma vmax_greatest (D : nat) (vs : list (list R)) :
  Forall (fun v => length v = D) vs ->
  forall (k : nat) e j, vmax ltb vs !! k = Some (e, j) ->
    forall (j' : nat) v' e',
      vs !! j' = Some v' -> v' !! k = Some e' -> ltb e e' = false.
Proof.
  destruct vs as [|v0 vs]; [intros _ k e j H; discriminate H|].
  intros Hvs. inversion Hvs as [|? ? Hv0 Hvs']; subst. unfold vmax.
  apply (vmax_from_greatest (length v0) vs Hvs' [v0]
           (map (fun e => (e, 0%nat)) v0)).
  - apply length_map.
  - intros k e j Hk j' v' e' Hj' He'.
    apply lookup_map_Some in Hk as (e0 & He0 & Heq).
    assert (He : e = e0) by congruence.
    destruct j' as [|j']; [|discriminate Hj'].
    cbn in Hj'. assert (Hv' : v' = v0) by congruence.
    rewrite Hv' in He'. assert (Hee : e' = e0) by congruence.
    rewrite He, Hee. apply ltb_irrefl.
Qed.

(** X5: max pooling without [keepdim] on a batch with [L > 0] returns
    [N] by [D] values and indices.  Every index is a position [j < L]
    of the sequence, and the value is the entry found there when
    [j < seq_len[i]] and the padding value zero otherwise.  The value is
    a maximum: no entry of the first [seq_len[i]] positions exceeds it,
    and neither does zero when the sequence is shorter than [L], so the
    padding takes part in the maximum. *)
Theorem max_pooling_indices_locate_values
    (x : Tensor3 (R := R)) (N L D : nat) (seq_len : list Z)
    (mask_token : option (list (list bool))) :
  shape3 x = (N, L, D) -> wf3 x ->
  length seq_len = N -> (0 < L)%nat ->
  exists values indices,
    forward (mkSeqPoolingLayer "max" false) x seq_len None mask_token
      = ok (OutMax (mkT2 (N, D) values) indices) /\
    wf_rows N D values /\ wf_rows N D indices /\
    forall (i k j : nat) row s vr ir e,
      data3 x !! i = Some row -> seq_len !! i = Some s ->
      values !! i = Some vr -> vr !! k = Some e ->
      indices !! i = Some ir -> ir !! k = Some j ->
      (j < L)%nat /\
      (if Z.of_nat j <? s
       then exists v, row !! j = Some v /\ v !! k = Some e
       else e = zero) /\
      (forall (j' : nat) v' e',
         Z.of_nat j' < s -> row !! j' = Some v' -> v' !! k = Some e' ->
         ltb e e' = false) /\
      (s < Z.of_nat L -> ltb e zero = false).
Proof.
  intros Hshape Hwf Hlen HL.
  unfold wf3 in Hwf. rewrite Hshape in Hwf. destruct Hwf as [Hn Hrows].
  rewrite (forward_max x N L D seq_len None mask_token Hshape).
  unfold weighted, max_dim1. rewrite (pad_rows L D _ seq_len Hrows).
  replace (L =? 0)%nat with false by (symmetry; apply Nat.eqb_neq; lia).
  set (padded := zip_with (fun row s => zero_padded zero L D s row)
                   (data3 x) seq_len).
  assert (Hrow : forall i r, map (vmax ltb) padded !! i = Some r ->
            exists row s, data3 x !! i = Some row /\ seq_len !! i = Some s /\
              length row = L /\ length r = D /\
              (forall k e j, r !! k = Some (e, j) ->
                 exists v, zero_padded zero L D s row !! j = Some v /\
                           v !! k = Some e) /\
              (forall (k : nat) e j, r !! k = Some (e, j) ->
                 forall (j' : nat) v' e',
                   zero_padded zero L D s row !! j' = Some v' ->
                   v' !! k = Some e' -> ltb e e' = false)).
  { intros i r Hi. apply lookup_map_Some in Hi as (p & Hp & ->).
    apply lookup_zip_with_Some in Hp as (row & s & -> & Hrow & Hs).
    pose proof (Forall_lookup_1 _ _ _ _ Hrows Hrow) as Hwfrow.
    destruct (zero_padded_wf L D s row Hwfrow) as [HLp HDp].
    destruct (vmax_locates D (zero_padded zero L D s row)) as [Hl Hloc];
      [intros Heq; rewrite Heq in HLp; cbn in HLp; lia | exact HDp |].
    exists row, s. destruct Hwfrow as [HLr _].
    repeat split; try assumption.
    exact (vmax_greatest D (zero_padded zero L D s row) HDp). }
  eexists _, _. split; [reflexivity|]. split; [|split].
  - split.
    + rewrite !length_map. unfold padded. rewrite length_zip_with. lia.
    + apply Forall_lookup_2. intros i r Hi.
      apply lookup_map_Some in Hi as (p & Hp & ->).
      destruct (Hrow i p Hp) as (_ & _ & _ & _ & _ & Hl & _).
      now rewrite length_map.
  - split.
    + rewrite !length_map. unfold padded. rewrite length_zip_with. lia.
    + apply Forall_lookup_2. intros i r Hi.
      apply lookup_map_Some in Hi as (p & Hp & ->).
      destruct (Hrow i p Hp) as (_ & _ & _ & _ & _ & Hl & _).
      now rewrite length_map.
  - intros i k j row s vr ir e Hi Hs Hvr He Hir Hj.
    apply lookup_map_Some in Hvr as (p & Hp & ->).
    apply lookup_map_Some in Hir as (p' & Hp' & ->).
    assert (p' = p) as -> by congruence.
    apply lookup_map_Some in He as ([e1 j1] & H1 & ->).
    apply lookup_map_Some in Hj as ([e2 j2] & H2 & ->).
    assert (Heq : (e2, j2) = (e1, j1)) by congruence.
    inversion Heq; subst. cbn [fst snd].
    destruct (Hrow i p Hp)
      as (row' & s' & Hi' & Hs' & HLr & HDr & Hloc & Hmax).
    assert (row' = row) as -> by congruence.
    assert (s' = s) as -> by congruence.
    destruct (Hloc k e1 j1 H1) as (v & Hv & Hve).
    destruct (lookup_zero_padded L D s row j1 k v e1 HLr Hv Hve)
      as [Hlt Hcase].
    split; [exact Hlt|]. split; [|split].
    + destruct (Z.of_nat j1 <? s); [exists v; now split | exact Hcase].
    + intros j' v' e' Hj' Hv' He'.
      apply (Hmax k e1 j1 H1 j' v' e'); [|exact He'].
      unfold zero_padded. apply lookup_lt_Some in Hv' as Hlj.
      rewrite lookup_app_l by (rewrite length_take; lia).
      rewrite lookup_take_lt by lia. exact Hv'.
    + intros Hshort.
      apply (Hmax k e1 j1 H1 (Z.to_nat s) (repeat zero D) zero).
      * unfold zero_padded.
        rewrite lookup_app_r by (rewrite length_take; lia).
        rewrite length_take.
        apply lookup_repeat_lt. lia.
      * apply lookup_repeat_lt. apply lookup_lt_Some in H1. lia.
Qed.

End WithOrder.

Lemma gather_last_error (L : nat) (row : list (list R)) (s : Z) (e : exn) :
  gather_last L row s = raise e -> e = RuntimeError.
Proof.
  unfold gather_last.
  destruct ((0 <=? s - 1) && (s - 1 <? Z.of_nat L));
    [destruct (row !! Z.to_nat (s - 1))|]; intros H; inversion H;
    reflexivity.
Qed.

Lemma gather_rows_bad_length (L : nat) (seq_len : list Z) :
  forall (i : nat) (s : Z),
    seq_len !! i = Some s -> s < 1 \/ Z.of_nat L < s ->
    forall x : list (list (list R)),
      gather_rows L x seq_len = raise RuntimeError.
Proof.
  induction seq_len as [|s0 seq_len IH]; intros i s Hi Hs x;
    [discriminate Hi|].
  destruct x as [|row x]; [reflexivity|]. cbn [gather_rows].
  destruct i as [|i]; cbn in Hi.
  - inversion Hi; subst. unfold gather_last.
    replace ((0 <=? s - 1) && (s - 1 <? Z.of_nat L)) with false; [reflexivity|].
    symmetry. apply andb_false_iff.
    destruct Hs; [left; apply Z.leb_gt | right; apply Z.ltb_ge]; lia.
  - destruct (gather_last L row s0) as [e|v] eqn:Hg.
    + apply gather_last_error in Hg. now subst.
    + cbn. now rewrite (IH i s Hi Hs x).
Qed.

(** X6: on embeddings of positive dimension, last pooling raises
    RuntimeError as soon as one entry of [seq_len] lies outside [1..L],
    whatever the batch, the weight and [keepdim] are: a sequence of
    length zero cannot be pooled. *)
Theorem last_pooling_rejects_bad_length (kd : bool)
    (x : Tensor3 (R := R)) (N L D : nat) (seq_len : list Z)
    (weight : option (list (list R)))
    (mask_token : option (list (list bool))) (i : nat) (s : Z) :
  shape3 x = (N, L, D) -> (0 < D)%nat ->
  seq_len !! i = Some s -> s < 1 \/ Z.of_nat L < s ->
  forward (mkSeqPoolingLayer "last" kd) x seq_len weight mask_token
    = raise RuntimeError.
Proof.
  intros Hshape HD Hi Hs. unfold Layers.forward. rewrite Hshape. cbn.
  unfold gather.
  replace (D =? 0)%nat with false by (symmetry; apply Nat.eqb_neq; lia).
  now rewrite (gather_rows_bad_length L seq_len i s Hi Hs).
Qed.

(** X7: [GRU4Rec.forward] in training mode returns the encoder output
    for all [L] positions, zeroed from position [seq_len[i]] on; with
    [need_pooling=False] it returns the encoder output untouched in
    either mode. *)
Theorem gru4rec_training_forward_zero_pads
    (query_encoder : gmap string Base.tensor -> res (Tensor3 (R := R)))
    (batch : gmap string Base.tensor)
    (x : Tensor3 (R := R)) (N L D : nat) (seq_len : list Z) :
  query_encoder batch = ok x ->
  batch !! "seqlen" = Some (Base.T1 seq_len) ->
  shape3 x = (N, L, D) -> wf3 x ->
  length seq_len = N ->
  GRU4Rec.forward zero eps add mul div of_int ltb query_encoder
    true batch true
    = ok (Out3 (mkT3 (N, L, D)
        (zip_with (fun row s => zero_padded zero L D s row)
           (data3 x) seq_len))) /\
  forall training : bool,
    GRU4Rec.forward zero eps add mul div of_int ltb query_encoder
      training batch false
    = ok (Out3 x).
Proof.
  intros Henc Hseq Hshape Hwf _.
  unfold wf3 in Hwf. rewrite Hshape in Hwf. destruct Hwf as [Hn Hrows].
  unfold GRU4Rec.forward, GRU4Rec.seqlen_of. rewrite Henc. cbn [rbind ok].
  split; [|reflexivity].
  rewrite Hseq. cbn [rbind ok]. unfold GRU4Rec.training_pooling_layer.
  rewrite (forward_origin false x N L D seq_len None None Hshape).
  unfold weighted. now rewrite (pad_rows L D _ seq_len Hrows).
Qed.

(** *** 4-D batches *)

Lemma chunks_concat {A} (n : nat) (ls : list (list A)) :
  Forall (fun l => length l = n) ls ->
  Base.chunks (length ls) n (concat ls) = ls.
Proof.
  induction 1 as [|l ls Hl Hls IH]; [reflexivity|].
  cbn [length concat Base.chunks].
  rewrite take_app_length', drop_app_length' by (symmetry; exact Hl).
  now rewrite IH.
Qed.

Lemma zip_with_concat {A B C} (f : A -> B -> C) (xs : list (list A))
    (ys : list (list B)) :
  Forall2 (fun x y => length x = length y) xs ys ->
  zip_with f (concat xs) (concat ys) = concat (zip_with (zip_with f) xs ys).
Proof.
  induction 1 as [|x y xs ys Hxy _ IH]; [reflexivity|].
  cbn [concat zip_with]. rewrite zip_with_app by exact Hxy. now rewrite IH.
Qed.

Lemma sum_rows (L D : nat) (x : list (list (list R))) (seq_len : list Z) :
  Forall (wf_rows L D) x ->
  map (vsum D) (masked_fill x (padding_mask L D seq_len) zero)
  = map (vsum D) (prefixes x seq_len).
Proof.
  intros Hx. rewrite masked_fill_rows.
  2:{ eapply Forall_impl; [exact Hx|]. now intros row [Hl _]. }
  unfold prefixes. rewrite !map_zip_with_compose.
  apply zip_with_ext_Forall with (P := wf_rows L D); [exact Hx|].
  intros row s [_ HD]. cbv beta. now apply vsum_fill_row.
Qed.

Lemma flat_batch_wf (B Neg L D : nat) (x : list (list (list (list R)))) :
  length x = B ->
  Forall (fun xb => length xb = Neg /\ Forall (wf_rows L D) xb) x ->
  length (concat x) = (B * Neg)%nat /\ Forall (wf_rows L D) (concat x).
Proof.
  intros <- Hx. induction Hx as [|xb x [Hn Hxb] _ [IHl IHf]];
    [split; [reflexivity | constructor]|].
  cbn [concat length]. rewrite length_app, IHl, Hn. split; [lia|].
  apply Forall_app. now split.
Qed.

(** X26: origin pooling of a 4-D batch [B, Neg, L, D] returns the
    zero-padded batch in its flattened shape [B * Neg, L, D]: the call
    returns on line 45, before line 71 would regroup the result. *)
Theorem origin_pooling_4d_stays_flat (kd : bool)
    (x : Layers4.Tensor4 (R := R)) (B Neg L D : nat)
    (seq_len : list (list Z)) (mask_token : option (list (list bool))) :
  Layers4.shape4 x = (B, Neg, L, D) -> Layers4.wf4 x ->
  (0 < L * D)%nat -> wf_rows B Neg seq_len ->
  Layers4.forward4 zero eps add mul div of_int ltb
    (mkSeqPoolingLayer "origin" kd) x seq_len None mask_token
  = ok (Layers4.Flat (Out3 (mkT3 ((B * Neg)%nat, L, D)
      (zip_with (fun row s => zero_padded zero L D s row)
         (concat (Layers4.data4 x)) (concat seq_len))))).
Proof.
  intros Hshape Hwf HLD _. unfold Layers4.wf4 in Hwf.
  rewrite Hshape in Hwf. destruct Hwf as [Hb Hx].
  destruct (flat_batch_wf B Neg L D _ Hb Hx) as [_ Hflat].
  unfold Layers4.forward4. rewrite Hshape.
  replace (L * D =? 0)%nat with false by (symmetry; apply Nat.eqb_neq; lia).
  rewrite (forward_origin kd (mkT3 ((B * Neg)%nat, L, D) _) (B * Neg) L D
             (concat seq_len) None mask_token eq_refl).
  unfold weighted, option_map. cbn [data3 rbind ok pooling_type].
  now rewrite (pad_rows L D _ (concat seq_len) Hflat).
Qed.

(** X27: sum pooling of a 4-D batch [B, Neg, L, D] with [seq_len] of
    shape [B, Neg] pools every sequence on its own and keeps the
    grouping: the result has shape [B, Neg, D], and its entry [b][n] is
    the elementwise sum of the first [seq_len[b][n]] embeddings of
    sequence [x[b][n]]. *)
Theorem sum_pooling_4d_pools_every_sequence
    (x : Layers4.Tensor4 (R := R)) (B Neg L D : nat)
    (seq_len : list (list Z)) (mask_token : option (list (list bool))) :
  Layers4.shape4 x = (B, Neg, L, D) -> Layers4.wf4 x ->
  (0 < B)%nat -> (0 < L * D)%nat ->
  wf_rows B Neg seq_len ->
  Layers4.forward4 zero eps add mul div of_int ltb
    (mkSeqPoolingLayer "sum" false) x seq_len None mask_token
  = ok (Layers4.Grouped3 (mkT3 (B, Neg, D)
      (zip_with (fun xb sb => map (vsum D) (prefixes xb sb))
         (Layers4.data4 x) seq_len))).
Proof.
  intros Hshape Hwf HB HLD [Hsl Hsn]. unfold Layers4.wf4 in Hwf.
  rewrite Hshape in Hwf. destruct Hwf as [Hb Hx].
  destruct (flat_batch_wf B Neg L D _ Hb Hx) as [Hlen Hflat].
  set (groups := zip_with (fun xb sb => map (vsum D) (prefixes xb sb))
                   (Layers4.data4 x) seq_len).
  assert (Hrows : map (vsum D)
                    (masked_fill (concat (Layers4.data4 x))
                       (padding_mask L D (concat seq_len)) zero)
                  = concat groups).
  { rewrite (sum_rows L D _ _ Hflat). unfold prefixes.
    rewrite zip_with_concat.
    - rewrite concat_map. f_equal. apply map_zip_with_compose.
    - apply Forall2_same_length_lookup_2; [lia|].
      intros i xb sb Hxb Hsb.
      eapply Forall_lookup_1 in Hx; [|exact Hxb].
      eapply Forall_lookup_1 in Hsn; [|exact Hsb].
      destruct Hx as [Hn _]. lia. }
  assert (Hgl : length groups = B)
    by (unfold groups; rewrite length_zip_with; lia).
  assert (Hgn : Forall (fun g => length g = Neg) groups).
  { apply Forall_lookup_2. intros i g Hg. unfold groups in Hg.
    apply lookup_zip_with_Some in Hg as (xb & sb & -> & Hxb & Hsb).
    eapply Forall_lookup_1 in Hx; [|exact Hxb].
    eapply Forall_lookup_1 in Hsn; [|exact Hsb].
    destruct Hx as [Hn _]. unfold prefixes.
    rewrite length_map, length_zip_with. lia. }
  assert (Hgd : Forall (fun v => length v = D) (concat groups)).
  { apply Forall_concat, Forall_lookup_2. intros i g Hg. unfold groups in Hg.
    apply lookup_zip_with_Some in Hg as (xb & sb & -> & Hxb & Hsb).
    eapply Forall_lookup_1 in Hx; [|exact Hxb]. destruct Hx as [_ Hxb'].
    apply Forall_lookup_2. intros j v Hv.
    apply lookup_map_Some in Hv as (p & Hp & ->). apply length_vsum.
    unfold prefixes in Hp.
    apply lookup_zip_with_Some in Hp as (row & s & -> & Hrow & _).
    apply Forall_take.
    eapply Forall_lookup_1 in Hxb'; [|exact Hrow]. apply Hxb'. }
  assert (Hcl : length (concat groups) = (B * Neg)%nat).
  { rewrite <- Hrows, length_map. unfold Layers.masked_fill, padding_mask.
    rewrite length_zip_with, length_map, Hlen.
    assert (Hc : length (concat seq_len) = (B * Neg)%nat).
    { clear -Hsl Hsn. subst B.
      induction Hsn as [|sb sl Hn _ IH]; [reflexivity|].
      cbn [concat length]. rewrite length_app, IH, Hn. lia. }
    lia. }
  unfold Layers4.forward4. rewrite Hshape.
  replace (L * D =? 0)%nat with false by (symmetry; apply Nat.eqb_neq; lia).
  rewrite (forward_sum false (mkT3 ((B * Neg)%nat, L, D) _) (B * Neg) L D
             (concat seq_len) None mask_token eq_refl).
  unfold weighted, option_map. cbn [data3 rbind ok pooling_type].
  rewrite Hrows. change (String.eqb "sum" "origin") with false. cbv iota.
  replace (B =? 0)%nat with false by (symmetry; apply Nat.eqb_neq; lia).
  cbn [shape2 data2]. unfold Layers4.reshape_rows.
  replace (B * Neg / B)%nat with Neg
    by (symmetry; rewrite Nat.mul_comm; apply Nat.div_mul; lia).
  rewrite Nat.eqb_refl. cbn [rbind ok].
  assert (Hc1 : Base.chunks (B * Neg) D (concat (concat groups))
                = concat groups)
    by (rewrite <- Hcl; apply chunks_concat; exact Hgd).
  assert (Hc2 : Base.chunks B Neg (concat groups) = groups)
    by (rewrite <- Hgl; apply chunks_concat; exact Hgn).
  now rewrite Hc1, Hc2.
Qed.

(** X23: on a well-formed batch without weight, max pooling with
    [keepdim=True] always raises: IndexError when [L = 0], and otherwise
    AttributeError, because [unsqueeze] is called on the pair that
    [max(dim=1)] returns; with [keepdim=False] and [L = 0] it raises
    IndexError as well. *)
Theorem max_pooling_keepdim_always_raises
    (x : Tensor3 (R := R)) (N L D : nat) (seq_len : list Z)
    (mask_token : option (list (list bool))) :
  shape3 x = (N, L, D) -> wf3 x -> length seq_len = N ->
  forward (mkSeqPoolingLayer "max" true) x seq_len None mask_token
    = raise (if (L =? 0)%nat then IndexError else AttributeError) /\
  (L = 0%nat ->
   forward (mkSeqPoolingLayer "max" false) x seq_len None mask_token
     = raise IndexError).
Proof.
  intros Hshape _ _. unfold Layers.forward. rewrite Hshape.
  cbn. unfold max_dim1. split.
  - now destruct (L =? 0)%nat.
  - now intros ->.
Qed.

(** X28: max pooling of a 4-D batch never returns: the pair produced by
    [max(dim=1)] has neither [unsqueeze] nor [reshape], so the call ends
    in AttributeError, or in RuntimeError when [L * D = 0] and the batch
    cannot be flattened. *)
Theorem max_pooling_4d_always_raises (kd : bool)
    (x : Layers4.Tensor4 (R := R)) (seq_len : list (list Z))
    (weight : option (list (list (list R))))
    (mask_token : option (list (list bool))) :
  exists e,
    Layers4.forward4 zero eps add mul div of_int ltb
      (mkSeqPoolingLayer "max" kd) x seq_len weight mask_token = raise e /\
    (e = RuntimeError \/ e = AttributeError).
Proof.
  unfold Layers4.forward4. destruct (Layers4.shape4 x) as [[[B Neg] L] D].
  destruct (Nat.eqb_spec (L * D) 0) as [Hz|Hnz]; [eauto|].
  assert (HL : (L =? 0)%nat = false) by (apply Nat.eqb_neq; lia).
  unfold Layers.forward. cbn [shape3 pooling_type keepdim].
  destruct kd; cbn; unfold max_dim1; rewrite HL; cbn; eauto.
Qed.

End WithNeutralZero.

End PoolingFacts.

(** *** Concrete runs over the rationals *)

Lemma Qadd_zero_r (q : Q) : QScalar.add q QScalar.zero = q.
Proof.
  destruct q as [n d]. unfold QScalar.add, QScalar.zero, Qplus. cbn.
  now rewrite Z.mul_1_r, Z.add_0_r, Pos.mul_1_r.
Qed.

Lemma mean_pooling_is_prefix_mean_witness :
  QScalar.forward QScalar.ltb (mkSeqPoolingLayer "mean" false)
    (mkT3 (2, 3, 2)%nat
       [[[1; 2]; [3; 4]; [9; 9]]; [[5; 6]; [7; 7]; [0; 2]]]%Q)
    [2; 3] None None
  = ok (Out2 (mkT2 (2, 2)%nat [[4 # 2; 6 # 2]; [12 # 3; 15 # 3]]%Q)).
Proof.
  refine (proj1 (mean_pooling_is_prefix_mean QScalar.zero QScalar.eps
           QScalar.add QScalar.mul QScalar.div QScalar.of_int QScalar.ltb
           Qadd_zero_r
           (mkT3 (2, 3, 2)%nat
              [[[1; 2]; [3; 4]; [9; 9]]; [[5; 6]; [7; 7]; [0; 2]]]%Q)
           2%nat 3%nat 2%nat [2; 3] None _ _ _ _)).
  - reflexivity.
  - cbn. repeat constructor.
  - reflexivity.
  - repeat constructor; lia.
Defined.

Lemma last_pooling_no_weight_witness :
  exists rows,
    QScalar.forward QScalar.ltb (mkSeqPoolingLayer "last" false)
      (mkT3 (2, 3, 2)%nat
         [[[1; 2]; [3; 4]; [9; 9]]; [[5; 6]; [7; 7]; [0; 2]]]%Q)
      [2; 3] None None
    = ok (Out2 (mkT2 (2, 2)%nat rows)) /\
    rows !! 0%nat = Some [3; 4]%Q /\ rows !! 1%nat = Some [0; 2]%Q.
Proof.
  destruct (last_pooling_no_weight QScalar.zero QScalar.eps QScalar.add
              QScalar.mul QScalar.div QScalar.of_int QScalar.ltb
              (mkT3 (2, 3, 2)%nat
                 [[[1; 2]; [3; 4]; [9; 9]]; [[5; 6]; [7; 7]; [0; 2]]]%Q)
              2%nat 3%nat 2%nat [2; 3] None)
    as (rows & Hfwd & _ & Hget).
  - reflexivity.
  - cbn. repeat constructor.
  - reflexivity.
  - repeat constructor; lia.
  - exists rows. split; [exact Hfwd|]. split.
    + destruct (Hget 0%nat [[1; 2]; [3; 4]; [9; 9]]%Q 2)
        as (v & Hv & Hr); [reflexivity | reflexivity |].
      cbn in Hv. now inversion Hv; subst.
    + destruct (Hget 1%nat [[5; 6]; [7; 7]; [0; 2]]%Q 3)
        as (v & Hv & Hr); [reflexivity | reflexivity |].
      cbn in Hv. now inversion Hv; subst.
Defined.

(** C3 as stated fails when a weight is passed: with [weight = [[2]]]
    the single row returned is [[2]], not the embedding [[1]] found at
    position [seq_len[0]-1 = 0]. *)
Lemma last_pooling_weight_counterexample :
  let x := mkT3 (1, 1, 1)%nat [[[1%Q]]] in
  shape3 x = (1, 1, 1)%nat /\ wf3 x /\
  Forall (fun s => 1 <= s <= Z.of_nat 1) [1] /\
  QScalar.forward QScalar.ltb (mkSeqPoolingLayer "last" false)
    x [1] (Some [[2%Q]]) None
  = ok (Out2 (mkT2 (1, 1)%nat [[2%Q]])) /\
  [[2%Q]] !! 0%nat <> (data3 x !! 0%nat) ≫= (fun row => row !! Z.to_nat (1 - 1)).
Proof.
  cbn. repeat split; try (repeat constructor; lia).
  discriminate.
Qed.

(** C4 at a concrete batch: the call does not return an [N, D] tensor
    but the pair of the maxima and their positions. *)
Theorem max_pooling_returns_values_and_indices :
  QScalar.forward QScalar.ltb (mkSeqPoolingLayer "max" false)
    (mkT3 (1, 2, 1)%nat [[[1%Q]; [5%Q]]]) [2] None None
  = ok (OutMax (mkT2 (1, 1)%nat [[5%Q]]) [[1%nat]]).
Proof. reflexivity. Qed.

(** *** The other branches on the sample batch *)

Lemma origin_pooling_zero_pads_witness :
  QScalar.forward QScalar.ltb (mkSeqPoolingLayer "origin" true)
    LayerSamples.sample_embeddings LayerSamples.sample_seq_len None None
  = ok (Out3 (mkT3 (2, 3, 2)%nat
      [[[1; 2]; [3; 4]; [0; 0]]; [[5; 6]; [7; 7]; [0; 2]]]%Q)).
Proof.
  refine (proj1 (origin_pooling_zero_pads QScalar.zero QScalar.eps
           QScalar.add QScalar.mul QScalar.div QScalar.of_int QScalar.ltb
           true LayerSamples.sample_embeddings 2%nat 3%nat 2%nat
           LayerSamples.sample_seq_len None _ _ _)).
  - reflexivity.
  - vm_compute. repeat constructor.
  - reflexivity.
Defined.

Lemma sum_pooling_is_weighted_prefix_sum_witness :
  QScalar.forward QScalar.ltb (mkSeqPoolingLayer "sum" false)
    LayerSamples.sample_embeddings LayerSamples.sample_seq_len
    (Some LayerSamples.sample_weight) None
  = ok (Out2 (mkT2 (2, 2)%nat [[5; 8]; [12; 19]]%Q)).
Proof.
  refine (proj1 (sum_pooling_is_weighted_prefix_sum QScalar.zero QScalar.eps
           QScalar.add QScalar.mul QScalar.div QScalar.of_int QScalar.ltb
           Qadd_zero_r
           LayerSamples.sample_embeddings 2%nat 3%nat 2%nat
           LayerSamples.sample_seq_len (Some LayerSamples.sample_weight)
           None _ _ _ _)).
  - reflexivity.
  - vm_compute. repeat constructor.
  - reflexivity.
  - vm_compute. repeat constructor.
Defined.

Lemma mean_pooling_weighted_divides_by_length_witness :
  QScalar.forward QScalar.ltb (mkSeqPoolingLayer "mean" false)
    LayerSamples.sample_embeddings LayerSamples.sample_seq_len
    (Some LayerSamples.sample_weight) None
  = ok (Out2 (mkT2 (2, 2)%nat [[5 / 2; 8 / 2]; [12 / 3; 19 / 3]]%Q)).
Proof.
  refine (proj1 (mean_pooling_weighted_divides_by_length QScalar.zero
           QScalar.eps QScalar.add QScalar.mul QScalar.div QScalar.of_int
           QScalar.ltb Qadd_zero_r
           LayerSamples.sample_embeddings 2%nat 3%nat 2%nat
           LayerSamples.sample_seq_len LayerSamples.sample_weight None
           _ _ _ _)).
  - reflexivity.
  - vm_compute. repeat constructor.
  - reflexivity.
  - vm_compute. repeat constructor.
Defined.

Lemma mask_pooling_picks_marked_positions_witness :
  exists rows,
    QScalar.forward QScalar.ltb (mkSeqPoolingLayer "mask" false)
      LayerSamples.sample_embeddings LayerSamples.sample_seq_len None
      (Some [[false; true; false]; [true; false; false]])
    = ok (Out2 (mkT2 (2, 2)%nat rows)) /\
    rows !! 0%nat = Some [3; 4]%Q /\ rows !! 1%nat = Some [5; 6]%Q.
Proof.
  destruct (proj2 (mask_pooling_picks_marked_positions QScalar.zero
              QScalar.eps QScalar.add QScalar.mul QScalar.div
              QScalar.of_int QScalar.ltb false
              LayerSamples.sample_embeddings 2%nat 3%nat 2%nat
              LayerSamples.sample_seq_len None [1; 0]%nat
              eq_refl
              ltac:(vm_compute; repeat constructor)
              I
              eq_refl
              ltac:(repeat constructor)))
    as (rows & Hfwd & _ & Hget).
  exists rows. split; [exact Hfwd|]. split.
  - exact (Hget 0%nat 1%nat _ eq_refl eq_refl).
  - exact (Hget 1%nat 0%nat _ eq_refl eq_refl).
Defined.

Lemma Qltb_irrefl (a : Q) : QScalar.ltb a a = false.
Proof.
  unfold QScalar.ltb. apply negb_false_iff, Qle_bool_iff, Qle_refl.
Qed.

Lemma Qltb_trans (a b c : Q) :
  QScalar.ltb a b = true -> QScalar.ltb b c = true -> QScalar.ltb a c = true.
Proof.
  unfold QScalar.ltb. rewrite !negb_true_iff. intros Hab Hbc.
  destruct (Qle_bool c a) eqn:Hca; [|reflexivity].
  apply Qle_bool_iff in Hca.
  assert (H1 : ~ (b <= a)%Q)
    by (intros H; apply Qle_bool_iff in H; congruence).
  assert (H2 : ~ (c <= b)%Q)
    by (intros H; apply Qle_bool_iff in H; congruence).
  apply Qnot_le_lt in H1, H2. exfalso.
  apply (Qlt_not_le _ _ (Qlt_trans _ _ _ H1 H2) Hca).
Qed.

Lemma max_pooling_indices_locate_values_witness :
  exists values indices,
    QScalar.forward QScalar.ltb (mkSeqPoolingLayer "max" false)
      LayerSamples.sample_embeddings LayerSamples.sample_seq_len None None
    = ok (OutMax (mkT2 (2, 2)%nat values) indices) /\
    wf_rows 2 2 values /\ wf_rows 2 2 indices /\
    values = [[3; 4]; [7; 7]]%Q /\ indices = [[1; 1]; [1; 1]]%nat.
Proof.
  destruct (max_pooling_indices_locate_values QScalar.zero QScalar.eps
              QScalar.add QScalar.mul QScalar.div QScalar.of_int QScalar.ltb
              Qltb_irrefl Qltb_trans
              LayerSamples.sample_embeddings 2%nat 3%nat 2%nat
              LayerSamples.sample_seq_len None
              eq_refl
              ltac:(vm_compute; repeat constructor)
              eq_refl
              ltac:(lia))
    as (values & indices & Hfwd & Hv & Hi & _).
  exists values, indices. split; [exact Hfwd|].
  split; [exact Hv|]. split; [exact Hi|].
  vm_compute in Hfwd. inversion Hfwd. split; reflexivity.
Defined.

Lemma last_pooling_rejects_bad_length_witness :
  QScalar.forward QScalar.ltb (mkSeqPoolingLayer "last" false)
    LayerSamples.sample_embeddings [2; 0] None None
  = raise RuntimeError.
Proof.
  apply (last_pooling_rejects_bad_length QScalar.zero QScalar.eps
           QScalar.add QScalar.mul QScalar.div QScalar.of_int QScalar.ltb
           false LayerSamples.sample_embeddings 2%nat 3%nat 2%nat [2; 0]
           None None 1%nat 0).
  - reflexivity.
  - lia.
  - reflexivity.
  - left. lia.
Defined.

Lemma gru4rec_training_forward_zero_pads_witness :
  GRU4Rec.forward QScalar.zero QScalar.eps QScalar.add QScalar.mul
    QScalar.div QScalar.of_int QScalar.ltb LayerSamples.sample_encoder
    true LayerSamples.sample_seq_batch true
  = ok (Out3 (mkT3 (2, 3, 2)%nat
      [[[1; 2]; [3; 4]; [0; 0]]; [[5; 6]; [7; 7]; [0; 2]]]%Q)).
Proof.
  refine (proj1 (gru4rec_training_forward_zero_pads QScalar.zero QScalar.eps
           QScalar.add QScalar.mul QScalar.div QScalar.of_int QScalar.ltb
           LayerSamples.sample_encoder LayerSamples.sample_seq_batch
           LayerSamples.sample_embeddings 2%nat 3%nat 2%nat
           LayerSamples.sample_seq_len _ _ _ _ _)).
  - reflexivity.
  - reflexivity.
  - reflexivity.
  - vm_compute. repeat constructor.
  - reflexivity.
Defined.

Lemma gru4rec_eval_forward_last_witness :
  exists rows,
    GRU4Rec.forward QScalar.zero QScalar.eps QScalar.add QScalar.mul
      QScalar.div QScalar.of_int QScalar.ltb LayerSamples.sample_encoder
      false LayerSamples.sample_seq_batch true
    = ok (Out2 (mkT2 (2, 2)%nat rows)) /\
    rows !! 0%nat = Some [3; 4]%Q /\ rows !! 1%nat = Some [0; 2]%Q.
Proof.
  destruct (gru4rec_eval_forward_last QScalar.zero QScalar.eps
              QScalar.add QScalar.mul QScalar.div QScalar.of_int QScalar.ltb
              LayerSamples.sample_encoder LayerSamples.sample_seq_batch
              LayerSamples.sample_embeddings 2%nat 3%nat 2%nat
              LayerSamples.sample_seq_len
              eq_refl eq_refl eq_refl
              ltac:(vm_compute; repeat constructor)
              eq_refl
              ltac:(repeat constructor; lia))
    as (rows & Hfwd & Hget).
  exists rows. split; [exact Hfwd|]. split.
  - destruct (Hget 0%nat _ 2 eq_refl eq_refl) as (v & Hv & Hr).
    cbn in Hv. now inversion Hv; subst.
  - destruct (Hget 1%nat _ 3 eq_refl eq_refl) as (v & Hv & Hr).
    cbn in Hv. now inversion Hv; subst.
Defined.

Lemma last_pooling_weighted_witness :
  exists rows,
    QScalar.forward QScalar.ltb (mkSeqPoolingLayer "last" false)
      LayerSamples.sample_embeddings LayerSamples.sample_seq_len
      (Some LayerSamples.sample_weight) None
    = ok (Out2 (mkT2 (2, 2)%nat rows)) /\
    rows !! 1%nat = Some (map (Qmult 3) [0; 2]%Q).
Proof.
  destruct (last_pooling_weighted QScalar.zero QScalar.eps
              QScalar.add QScalar.mul QScalar.div QScalar.of_int QScalar.ltb
              LayerSamples.sample_embeddings 2%nat 3%nat 2%nat
              LayerSamples.sample_seq_len LayerSamples.sample_weight None
              eq_refl
              ltac:(vm_compute; repeat constructor)
              ltac:(vm_compute; repeat constructor)
              eq_refl
              ltac:(repeat constructor; lia))
    as (rows & Hfwd & Hget).
  exists rows. split; [exact Hfwd|].
  destruct (Hget 1%nat _ _ 3 eq_refl eq_refl eq_refl)
    as (v & wj & Hv & Hwj & Hr).
  cbn in Hv, Hwj. inversion Hv; inversion Hwj; subst. exact Hr.
Defined.

Lemma origin_pooling_4d_stays_flat_witness :
  Layers4.forward4 QScalar.zero QScalar.eps QScalar.add QScalar.mul
    QScalar.div QScalar.of_int QScalar.ltb (mkSeqPoolingLayer "origin" false)
    LayerSamples.sample_embeddings4 LayerSamples.sample_seq_len4 None None
  = ok (Layers4.Flat (Out3 (mkT3 (2, 3, 2)%nat
      [[[1; 2]; [3; 4]; [0; 0]]; [[5; 6]; [7; 7]; [0; 2]]]%Q))).
Proof.
  refine (origin_pooling_4d_stays_flat QScalar.zero QScalar.eps
            QScalar.add QScalar.mul QScalar.div QScalar.of_int QScalar.ltb
            false LayerSamples.sample_embeddings4 2%nat 1%nat 3%nat 2%nat
            LayerSamples.sample_seq_len4 None _ _ _ _).
  - reflexivity.
  - vm_compute. repeat constructor.
  - cbn. lia.
  - vm_compute. repeat constructor.
Defined.

Lemma sum_pooling_4d_pools_every_sequence_witness :
  Layers4.forward4 QScalar.zero QScalar.eps QScalar.add QScalar.mul
    QScalar.div QScalar.of_int QScalar.ltb (mkSeqPoolingLayer "sum" false)
    LayerSamples.sample_embeddings4 LayerSamples.sample_seq_len4 None None
  = ok (Layers4.Grouped3 (mkT3 (2, 1, 2)%nat [[[4; 6]]; [[12; 15]]]%Q)).
Proof.
  refine (sum_pooling_4d_pools_every_sequence QScalar.zero QScalar.eps
            QScalar.add QScalar.mul QScalar.div QScalar.of_int QScalar.ltb
            Qadd_zero_r
            LayerSamples.sample_embeddings4 2%nat 1%nat 3%nat 2%nat
            LayerSamples.sample_seq_len4 None _ _ _ _ _).
  - reflexivity.
  - vm_compute. repeat constructor.
  - lia.
  - cbn. lia.
  - vm_compute. repeat constructor.
Defined.

Lemma max_pooling_keepdim_always_raises_witness :
  QScalar.forward QScalar.ltb (mkSeqPoolingLayer "max" true)
    LayerSamples.sample_embeddings LayerSamples.sample_seq_len None None
  = raise AttributeError.
Proof.
  refine (proj1 (max_pooling_keepdim_always_raises QScalar.zero QScalar.eps
           QScalar.add QScalar.mul QScalar.div QScalar.of_int QScalar.ltb
           LayerSamples.sample_embeddings 2%nat 3%nat 2%nat
           LayerSamples.sample_seq_len None _ _ _)).
  - reflexivity.
  - vm_compute. repeat constructor.
  - reflexivity.
Defined.

End LayersFacts.

(** ** BaseModel *)

Module BaseFacts.
Import Base.

(** *** Negative sampling *)

Lemma norm_index_lt (n : nat) (j : Z) (i : nat) :
  norm_index n j = Some i -> (i < n)%nat.
Proof.
  unfold norm_index. intros H.
  destruct ((0 <=? j) && (j <? Z.of_nat n)) eqn:H1.
  - inversion H. lia.
  - destruct ((- Z.of_nat n <=? j) && (j <? 0)) eqn:H2; [|discriminate H].
    inversion H. lia.
Qed.

Lemma norm_index_of_nat (n i : nat) :
  (i < n)%nat -> norm_index n (Z.of_nat i) = Some i.
Proof.
  intros Hi. unfold norm_index.
  replace ((0 <=? Z.of_nat i) && (Z.of_nat i <? Z.of_nat n)) with true
    by (symmetry; apply andb_true_iff; lia).
  now rewrite Nat2Z.id.
Qed.

Lemma zero_out_spec (idx : list Z) :
  forall w w', zero_out w idx = ok w' ->
    length w' = length w /\
    forall (i x : nat), w' !! i = Some x -> x <> 0%nat ->
      w !! i = Some x /\
      forall j, j ∈ idx -> norm_index (length w) j <> Some i.
Proof.
  induction idx as [|j idx IH]; intros w w' H; cbn in H.
  - inversion H; subst. split; [reflexivity|]. intros i x Hi Hx.
    split; [exact Hi|]. intros j Hj. inversion Hj.
  - destruct (norm_index (length w) j) as [i0|] eqn:Hj; [|discriminate H].
    destruct (IH _ _ H) as [Hlen Hw']. rewrite length_insert in Hlen, Hw'.
    split; [exact Hlen|]. intros i x Hi Hx.
    destruct (Hw' i x Hi Hx) as [Hins Hrest].
    assert (Hne : i0 <> i).
    { intros ->. rewrite list_lookup_insert_eq in Hins.
      - inversion Hins. lia.
      - eapply norm_index_lt, Hj. }
    rewrite list_lookup_insert_ne in Hins by exact Hne.
    split; [exact Hins|]. intros j' Hj'.
    apply elem_of_cons in Hj' as [-> | Hj'].
    + rewrite Hj. congruence.
    + now apply Hrest.
Qed.

Lemma pick_positive (w : list nat) :
  forall r, (r < total w)%nat ->
    exists x, w !! pick w r = Some x /\ x <> 0%nat.
Proof.
  induction w as [|x w IH]; intros r Hr; cbn in Hr; [lia|].
  cbn [pick]. destruct (Nat.ltb_spec r x) as [Hlt | Hge].
  - exists x. split; [reflexivity | lia].
  - destruct (IH (r - x)%nat) as (y & Hy & Hpos); [unfold total; lia|].
    exists y. now split.
Qed.

Lemma multinomial_row_spec (w : list nat) (n : nat) (draw : nat -> nat)
    (r : list nat) :
  multinomial_row w n draw = ok r ->
  length r = n /\
  forall i, i ∈ r -> exists x, w !! i = Some x /\ x <> 0%nat.
Proof.
  unfold multinomial_row. destruct (Nat.eqb_spec (total w) 0) as [|Hpos];
    [discriminate|]. intros H. inversion H; subst. split.
  - now rewrite length_map, length_seq.
  - intros i Hi. apply list_elem_of_fmap in Hi as (t & -> & _).
    apply pick_positive. apply Nat.mod_upper_bound. exact Hpos.
Qed.

Lemma length_chunks {A} (m n : nat) (l : list A) :
  length (chunks m n l) = m.
Proof.
  revert l. induction m as [|m IH]; intros l; cbn; [reflexivity|].
  now rewrite IH.
Qed.

Lemma chunks_rows {A} (m n : nat) (l : list A) :
  length l = (m * n)%nat -> Forall (fun c => length c = n) (chunks m n l).
Proof.
  revert l. induction m as [|m IH]; intros l Hl; cbn; constructor.
  - rewrite length_take. lia.
  - apply IH. rewrite length_drop. lia.
Qed.

Lemma chunks_elem {A} (m n : nat) (l c : list A) (x : A) :
  c ∈ chunks m n l -> x ∈ c -> x ∈ l.
Proof.
  revert l. induction m as [|m IH]; intros l Hc Hx; cbn in Hc.
  - inversion Hc.
  - apply elem_of_cons in Hc as [-> | Hc].
    + rewrite <- (take_drop n l). apply elem_of_app. now left.
    + rewrite <- (take_drop n l). apply elem_of_app. right. now apply IH.
Qed.

(** C1: every index that [_neg_sampling] returns for row [b] is an item
    the user has not interacted with -- it does not occur in
    [user_seq[b]] and is not the padding item 0 -- and the result has
    shape [batch_size, max_seq_len, num_neg]. *)
Theorem neg_sampling_avoids_history
    (self : BaseModel) (batch : gmap string tensor)
    (draws : nat -> nat -> nat) (user_seq : list (list Z))
    (neg : list (list (list nat))) :
  batch !! "user_seq" = Some (T2 user_seq) ->
  _neg_sampling self batch draws = ok neg ->
  exists num_neg,
    config (self) !! "num_neg" = Some (CInt num_neg) /\
    length neg = length user_seq /\
    Forall (wf_rows (Z.to_nat (max_seq_len self)) (Z.to_nat num_neg)) neg /\
    forall (b : nat) seq_b negs_b,
      user_seq !! b = Some seq_b -> neg !! b = Some negs_b ->
      forall row (item : nat),
        row ∈ negs_b -> item ∈ row ->
        item <> 0%nat /\ Z.of_nat item ∉ seq_b.
Proof.
  intros Hbatch H. unfold _neg_sampling in H. rewrite Hbatch in H.
  cbn [rbind ok] in H.
  destruct (mapM_res _ (zip _ user_seq)) as [e|w1] eqn:H1; [discriminate H|].
  cbn [rbind] in H.
  destruct (num_items self =? 0)%nat; [discriminate H|]. cbn [rbind ok] in H.
  unfold config_int in H.
  destruct (config self !! "num_neg") as [[num_neg| |]|] eqn:Hcfg;
    try discriminate H.
  cbn [rbind ok] in H.
  destruct (multinomial _ _ _ draws) as [e|neg_idx] eqn:Hm; [discriminate H|].
  cbn [rbind] in H.
  destruct ((max_seq_len self <? 0) || (num_neg <? 0)) eqn:Hsign;
    [discriminate H|].
  inversion H; subst neg; clear H.
  apply orb_false_iff in Hsign as [Hmsl Hnn].
  apply Z.ltb_ge in Hmsl, Hnn.
  unfold multinomial in Hm.
  destruct (Z.leb_spec (num_neg * max_seq_len self) 0) as [|Hpos];
    [discriminate Hm|].
  destruct (2 ^ 24 <? Z.of_nat (num_items self)); [discriminate Hm|].
  apply mapM_res_ok in Hm. apply mapM_res_ok in H1.
  pose proof (Forall2_length _ _ _ Hm) as Hlm.
  pose proof (Forall2_length _ _ _ H1) as Hl1.
  rewrite length_zip_with, length_seq, length_map in Hlm.
  rewrite length_zip_with, repeat_length in Hl1.
  exists num_neg. split; [reflexivity|]. split; [rewrite length_map; lia|].
  split.
  - apply Forall_lookup_2. intros b negs_b Hb.
    apply lookup_map_Some in Hb as (r & Hr & ->).
    destruct (Forall2_lookup_r _ _ _ _ _ Hm Hr) as (bw & _ & Hrow).
    apply multinomial_row_spec in Hrow as [Hlen _].
    split; [apply length_chunks|]. apply chunks_rows. rewrite Hlen. nia.
  - intros b seq_b negs_b Hseq Hb row item Hrow Hitem.
    apply lookup_map_Some in Hb as (r & Hr & ->).
    pose proof (chunks_elem _ _ _ _ _ Hrow Hitem) as Hin.
    destruct (Forall2_lookup_r _ _ _ _ _ Hm Hr) as (bw & Hbw & Hmr).
    apply lookup_zip_Some in Hbw as [_ Hw2].
    apply multinomial_row_spec in Hmr as [_ Hpos'].
    destruct (Hpos' item Hin) as (x & Hx & Hx0).
    apply lookup_map_Some in Hw2 as (w1b & Hw1b & Hw2).
    rewrite Hw2 in Hx.
    destruct (Forall2_lookup_r _ _ _ _ _ H1 Hw1b) as (wu & Hwu & Hz).
    apply lookup_zip_Some in Hwu as [Hones Hu].
    assert (Hu' : wu.2 = seq_b) by congruence. rewrite Hu' in Hz.
    apply lookup_repeat_Some in Hones as [Hones _].
    rewrite Hones in Hz.
    destruct (zero_out_spec _ _ _ Hz) as [Hlen Hw].
    assert (Hne : item <> 0%nat).
    { intros ->. destruct w1b; cbn in Hx; [discriminate Hx|].
      inversion Hx. lia. }
    rewrite list_lookup_insert_ne in Hx by lia.
    destruct (Hw item x Hx Hx0) as [Hone Hno].
    split; [exact Hne|]. intros Hmem.
    apply (Hno _ Hmem). apply norm_index_of_nat.
    apply lookup_lt_Some in Hone. exact Hone.
Qed.

(** The call does return when every user has an item left to sample. *)

Lemma zero_out_total (idx : list Z) :
  forall w,
    Forall (fun j => is_Some (norm_index (length w) j)) idx ->
    exists w',
      zero_out w idx = ok w' /\
      forall i : nat,
        (forall j, j ∈ idx -> norm_index (length w) j <> Some i) ->
        w' !! i = w !! i.
Proof.
  induction idx as [|j idx IH]; intros w Hidx; cbn.
  - exists w. split; [reflexivity | auto].
  - inversion Hidx as [|? ? [i0 Hj] Hrest]; subst. rewrite Hj.
    destruct (IH (<[i0 := 0%nat]> w)) as (w' & Hrun & Hkeep).
    { now rewrite length_insert. }
    exists w'. split; [exact Hrun|]. intros i Hi.
    rewrite Hkeep.
    + apply list_lookup_insert_ne. intros ->. apply (Hi j); [|exact Hj].
      apply elem_of_cons. now left.
    + intros j' Hj'. rewrite length_insert. apply Hi.
      apply elem_of_cons. now right.
Qed.

Lemma lookup_le_total (w : list nat) (i x : nat) :
  w !! i = Some x -> (x <= total w)%nat.
Proof.
  revert i. induction w as [|y w IH]; intros [|i] H; cbn in H;
    try discriminate H; cbn.
  - inversion H. lia.
  - specialize (IH _ H). unfold total in IH. lia.
Qed.

(** X24: [_neg_sampling] returns when [num_neg] and [max_seq_len] are
    positive, there are at most [2^24] items, the indices of the batch
    are in range and every user has an item other than the padding item
    left to sample. *)
Lemma neg_sampling_returns
    (self : BaseModel) (batch : gmap string tensor)
    (draws : nat -> nat -> nat) (user_seq : list (list Z)) (num_neg : Z) :
  batch !! "user_seq" = Some (T2 user_seq) ->
  config self !! "num_neg" = Some (CInt num_neg) ->
  0 < num_neg -> 0 < max_seq_len self -> (0 < num_items self)%nat ->
  Z.of_nat (num_items self) <= 2 ^ 24 ->
  Forall (fun seq_b =>
            Forall (fun j => is_Some (norm_index (num_items self) j)) seq_b /\
            exists i : nat,
              i <> 0%nat /\ (i < num_items self)%nat /\
              forall j, j ∈ seq_b -> norm_index (num_items self) j <> Some i)
    user_seq ->
  exists neg, _neg_sampling self batch draws = ok neg.
Proof.
  intros Hbatch Hcfg Hnn Hmsl Hn Hcat Hseq. unfold _neg_sampling.
  rewrite Hbatch. cbn [rbind ok].
  destruct (mapM_res_total
              (fun wu : list nat * list Z => zero_out (fst wu) (snd wu))
              (zip (repeat (repeat 1%nat (num_items self)) (length user_seq))
                 user_seq)) as [w1 Hw1].
  { apply Forall_lookup_2. intros b wu Hwu.
    apply lookup_zip_Some in Hwu as [Hones Hu].
    apply lookup_repeat_Some in Hones as [Hones _].
    eapply Forall_lookup_1 in Hseq; [|exact Hu]. destruct Hseq as [Hok _].
    destruct (zero_out_total (snd wu) (fst wu)) as (w' & Hrun & _).
    { rewrite Hones, repeat_length. exact Hok. }
    eauto. }
  rewrite Hw1. cbn [rbind].
  replace (num_items self =? 0)%nat with false
    by (symmetry; apply Nat.eqb_neq; lia).
  cbn [rbind ok]. unfold config_int. rewrite Hcfg. cbn [rbind ok].
  unfold multinomial.
  replace (num_neg * max_seq_len self <=? 0) with false
    by (symmetry; apply Z.leb_gt; nia).
  replace (2 ^ 24 <? Z.of_nat (num_items self)) with false
    by (symmetry; apply Z.ltb_ge; exact Hcat).
  match goal with
  | |- context [mapM_res ?f ?l] =>
      destruct (mapM_res_total f l) as [neg_idx Hneg]
  end.
  { apply mapM_res_ok in Hw1. apply Forall_lookup_2. intros b bw Hbw.
    apply lookup_zip_Some in Hbw as [_ Hw2].
    apply lookup_map_Some in Hw2 as (w1b & Hw1b & Hw2).
    destruct (Forall2_lookup_r _ _ _ _ _ Hw1 Hw1b) as (wu & Hwu & Hz).
    apply lookup_zip_Some in Hwu as [Hones Hu].
    apply lookup_repeat_Some in Hones as [Hones _].
    eapply Forall_lookup_1 in Hseq; [|exact Hu].
    destruct Hseq as [Hok (i & Hi0 & Hin & Hfree)].
    destruct (zero_out_total (snd wu) (fst wu)) as (w' & Hrun & Hkeep).
    { rewrite Hones, repeat_length. exact Hok. }
    rewrite Hz in Hrun. inversion Hrun; subst w'.
    assert (Hone : fst wu !! i = Some 1%nat).
    { rewrite Hones. clear -Hin. revert i Hin.
      induction (num_items self) as [|n IH]; intros [|i] Hi; cbn;
        try lia; try reflexivity.
      apply IH. lia. }
    assert (Hpos : snd bw !! i = Some 1%nat).
    { rewrite Hw2, list_lookup_insert_ne by lia. rewrite Hkeep; [exact Hone|].
      intros j Hj. rewrite Hones, repeat_length. now apply Hfree. }
    unfold multinomial_row. apply lookup_le_total in Hpos.
    replace (total (snd bw) =? 0)%nat with false
      by (symmetry; apply Nat.eqb_neq; lia).
    eauto. }
  rewrite Hneg. cbn [rbind].
  replace ((max_seq_len self <? 0) || (num_neg <? 0)) with false
    by (symmetry; apply orb_false_iff; split; apply Z.ltb_ge; lia).
  eauto.
Qed.

Lemma neg_sampling_avoids_history_witness :
  _neg_sampling Samples.sample_model Samples.sample_batch Samples.sample_draws
    = ok Samples.sample_neg /\
  Samples.sample_neg
    = [[[4; 3]; [4; 3]; [4; 3]]; [[2; 4]; [1; 2]; [4; 1]]]%nat /\
  forall (b : nat) seq_b negs_b,
    Samples.sample_user_seq !! b = Some seq_b ->
    Samples.sample_neg !! b = Some negs_b ->
    forall row (item : nat),
      row ∈ negs_b -> item ∈ row -> item <> 0%nat /\ Z.of_nat item ∉ seq_b.
Proof.
  split; [vm_compute; reflexivity|]. split; [reflexivity|].
  destruct (neg_sampling_avoids_history Samples.sample_model
              Samples.sample_batch Samples.sample_draws
              Samples.sample_user_seq Samples.sample_neg)
    as (num_neg & _ & _ & _ & H).
  - reflexivity.
  - vm_compute. reflexivity.
  - exact H.
Defined.

(** *** Checkpoints *)


Lemma copy_fitting_same_shape (own sd : state_dict) :
  mshape <$> own = mshape <$> sd -> copy_fitting own sd = sd.
Proof.
  intros H. apply map_eq. intros key. unfold copy_fitting.
  rewrite lookup_merge.
  pose proof (f_equal (fun m => m !! key) H) as Hk. cbv beta in Hk.
  rewrite !lookup_fmap in Hk.
  destruct (own !! key) as [o|], (sd !! key) as [n|]; cbn in *;
    try discriminate Hk; [|reflexivity].
  rewrite bool_decide_eq_true_2; [reflexivity|]. congruence.
Qed.

(** A state dictionary with the keys and shapes of the model is loaded
    as it is. *)
Lemma load_state_dict_fits (sd : state_dict) (self : BaseModel) :
  mshape <$> state_dict_of self = mshape <$> sd ->
  load_state_dict sd self = (ok tt, set_parameters sd self).
Proof.
  intros H. unfold load_state_dict.
  rewrite bool_decide_eq_true_2 by exact H.
  now rewrite copy_fitting_same_shape.
Qed.


(** The configuration is replaced as soon as the checkpoint holds one,
    also when loading the parameters then fails. *)
Lemma load_checkpoint_replaces_config
    (fs : gmap string (gmap string ckpt_value)) (path : string)
    (ckpt : gmap string ckpt_value) (cfg : gmap string cfg_value)
    (self : BaseModel) :
  fs !! path = Some ckpt ->
  ckpt !! "config" = Some (CkConfig cfg) ->
  config (snd (load_checkpoint fs path self)) = cfg.
Proof.
  intros Hpath Hcfg.
  unfold load_checkpoint, mbind', mlift, mmodify, load_state_dict, ok.
  rewrite Hpath. cbv beta iota. rewrite Hcfg. cbv beta iota.
  destruct (ckpt !! "parameters") as [[c|sd|]|]; try reflexivity.
  cbv beta iota. now destruct (bool_decide _).
Qed.



(** *** Negative sampling: the failing case *)

Lemma zero_out_keeps_zero (idx : list Z) :
  forall w w' (i : nat), zero_out w idx = ok w' ->
    w !! i = Some 0%nat -> w' !! i = Some 0%nat.
Proof.
  induction idx as [|j idx IH]; intros w w' i H Hi; cbn in H.
  - now inversion H; subst.
  - destruct (norm_index (length w) j) as [i0|] eqn:Hj; [|discriminate H].
    apply (IH _ _ i H).
    destruct (decide (i0 = i)) as [->|Hne].
    + apply list_lookup_insert_eq. now apply lookup_lt_Some in Hi.
    + now rewrite list_lookup_insert_ne.
Qed.

Lemma zero_out_zeroes (idx : list Z) :
  forall w w' (j : Z) (i : nat), zero_out w idx = ok w' ->
    j ∈ idx -> norm_index (length w) j = Some i -> w' !! i = Some 0%nat.
Proof.
  induction idx as [|j0 idx IH]; intros w w' j i H Hj Hn; cbn in H.
  - inversion Hj.
  - destruct (norm_index (length w) j0) as [i0|] eqn:Hj0; [|discriminate H].
    apply elem_of_cons in Hj as [->|Hj].
    + assert (i0 = i) as -> by congruence.
      apply (zero_out_keeps_zero _ _ _ _ H).
      apply list_lookup_insert_eq. eapply norm_index_lt, Hn.
    + apply (IH _ _ j i H Hj). now rewrite length_insert.
Qed.

Lemma total_zero (w : list nat) :
  (forall (i x : nat), w !! i = Some x -> x = 0%nat) -> total w = 0%nat.
Proof.
  unfold total. induction w as [|x w IH]; intros H; [reflexivity|].
  cbn. rewrite (H 0%nat x eq_refl). cbn. apply IH.
  intros i y Hi. apply (H (S i) y Hi).
Qed.

Lemma mapM_res_raise {A B} (f : A -> res B) (l : list A) (E : exn)
    (i : nat) (a : A) :
  (forall x e, x ∈ l -> f x = raise e -> e = E) ->
  l !! i = Some a -> f a = raise E -> mapM_res f l = raise E.
Proof.
  revert i. induction l as [|x l IH]; intros i Hall Hi Ha;
    [discriminate Hi|].
  cbn. destruct (f x) as [e|b] eqn:Hx.
  - cbn. unfold raise. f_equal.
    apply (Hall x e); [apply elem_of_cons; now left | exact Hx].
  - cbn. destruct i as [|i]; cbn in Hi.
    + inversion Hi; subst. rewrite Ha in Hx. discriminate Hx.
    + rewrite (IH i); [reflexivity| |exact Hi|exact Ha].
      intros y e Hy. apply Hall. apply elem_of_cons. now right.
Qed.

(** X8: when the indices of the batch are in range and one user has
    interacted with every item but the padding item, no weight is left
    in that user's row and [_neg_sampling] raises RuntimeError, whatever
    the generator draws. *)
Theorem neg_sampling_fails_on_exhausted_user
    (self : BaseModel) (batch : gmap string tensor)
    (draws : nat -> nat -> nat) (user_seq : list (list Z)) (num_neg : Z)
    (b : nat) (seq_b : list Z) :
  batch !! "user_seq" = Some (T2 user_seq) ->
  config self !! "num_neg" = Some (CInt num_neg) ->
  (0 < num_items self)%nat ->
  Forall (Forall (fun j => is_Some (norm_index (num_items self) j)))
    user_seq ->
  user_seq !! b = Some seq_b ->
  (forall i : nat, (0 < i < num_items self)%nat ->
     exists j, j ∈ seq_b /\ norm_index (num_items self) j = Some i) ->
  _neg_sampling self batch draws = raise RuntimeError.
Proof.
  intros Hbatch Hcfg Hn Hseq Hb Hfull. unfold _neg_sampling.
  rewrite Hbatch. cbn [rbind ok].
  destruct (mapM_res_total
              (fun wu : list nat * list Z => zero_out (fst wu) (snd wu))
              (zip (repeat (repeat 1%nat (num_items self)) (length user_seq))
                 user_seq)) as [w1 Hw1].
  { apply Forall_lookup_2. intros c wu Hwu.
    apply lookup_zip_Some in Hwu as [Hones Hu].
    apply lookup_repeat_Some in Hones as [Hones _].
    eapply Forall_lookup_1 in Hseq; [|exact Hu].
    destruct (zero_out_total (snd wu) (fst wu)) as (w' & Hrun & _).
    { rewrite Hones, repeat_length. exact Hseq. }
    eauto. }
  rewrite Hw1. cbn [rbind].
  replace (num_items self =? 0)%nat with false
    by (symmetry; apply Nat.eqb_neq; lia).
  cbn [rbind ok]. unfold config_int. rewrite Hcfg. cbn [rbind ok].
  assert (Hm : multinomial (map (fun w => <[0%nat := 0%nat]> w) w1)
                 (num_items self) (num_neg * max_seq_len self) draws
               = raise RuntimeError).
  { unfold multinomial.
    destruct (num_neg * max_seq_len self <=? 0); [reflexivity|].
    destruct (2 ^ 24 <? Z.of_nat (num_items self)); [reflexivity|].
    apply mapM_res_ok in Hw1.
    assert (Hzb : zip (repeat (repeat 1%nat (num_items self))
                         (length user_seq)) user_seq !! b
                  = Some (repeat 1%nat (num_items self), seq_b)).
    { apply lookup_zip_with_Some.
      exists (repeat 1%nat (num_items self)), seq_b.
      split; [reflexivity|]. split; [|exact Hb].
      apply lookup_repeat_lt. now apply lookup_lt_Some in Hb. }
    destruct (Forall2_lookup_l _ _ _ _ _ Hw1 Hzb) as (w1b & Hw1b & Hz).
    cbn [fst snd] in Hz.
    destruct (zero_out_spec _ _ _ Hz) as [Hlen _].
    rewrite repeat_length in Hlen.
    apply (mapM_res_raise _ _ RuntimeError b (b, <[0%nat := 0%nat]> w1b)).
    - intros x e _ Hx. unfold multinomial_row in Hx.
      destruct (total (snd x) =? 0)%nat; inversion Hx; reflexivity.
    - apply lookup_zip_with_Some. exists b, (<[0%nat := 0%nat]> w1b).
      split; [reflexivity|]. split.
      + rewrite lookup_seq_lt; [reflexivity|].
        rewrite length_map. now apply lookup_lt_Some in Hw1b.
      + now rewrite lookup_map, Hw1b.
    - unfold multinomial_row. cbn [snd]. rewrite total_zero; [reflexivity|].
      intros i x Hi. destruct (decide (i = 0%nat)) as [->|Hi0].
      + rewrite list_lookup_insert_eq in Hi; [now inversion Hi|]. lia.
      + rewrite list_lookup_insert_ne in Hi by lia.
        destruct (Hfull i) as (j & Hj & Hji).
        { apply lookup_lt_Some in Hi. lia. }
        pose proof (zero_out_zeroes _ _ _ j i Hz Hj) as H0.
        rewrite repeat_length in H0. specialize (H0 Hji). congruence. }
  rewrite Hm. reflexivity.
Qed.

Lemma neg_sampling_fails_on_exhausted_user_witness :
  _neg_sampling Samples.sample_model ExtraSamples.exhausted_batch
    Samples.sample_draws = raise RuntimeError.
Proof.
  apply (neg_sampling_fails_on_exhausted_user Samples.sample_model
           ExtraSamples.exhausted_batch Samples.sample_draws
           [[1; 2; 3; 4]; [1; 2; 0; 0]] 2 0%nat [1; 2; 3; 4]).
  - reflexivity.
  - reflexivity.
  - cbn. lia.
  - repeat constructor; vm_compute; eauto.
  - reflexivity.
  - cbn. intros i Hi. exists (Z.of_nat i).
    assert (Hcases : i = 1%nat \/ i = 2%nat \/ i = 3%nat \/ i = 4%nat)
      by lia.
    destruct Hcases as [-> | [-> | [-> | ->]]];
      (split; [apply list_elem_of_In; cbn; tauto | reflexivity]).
Defined.

Lemma sample_user_seq_has_free_item (seq_b : list Z) :
  seq_b = [1; 2; 0] \/ seq_b = [3; 0; 0] ->
  Forall (fun j => is_Some (norm_index 5 j)) seq_b /\
  exists i : nat, i <> 0%nat /\ (i < 5)%nat /\
    forall j, j ∈ seq_b -> norm_index 5 j <> Some i.
Proof.
  intros H. split.
  - destruct H as [-> | ->]; repeat constructor; vm_compute; eauto.
  - exists 4%nat. split; [lia|]. split; [lia|].
    intros j Hj. apply list_elem_of_In in Hj.
    destruct H as [-> | ->]; cbn in Hj;
      decompose [or] Hj; subst; try contradiction; vm_compute; discriminate.
Defined.

Lemma neg_sampling_returns_witness :
  exists neg,
    _neg_sampling Samples.sample_model Samples.sample_batch
      Samples.sample_draws = ok neg.
Proof.
  apply (neg_sampling_returns Samples.sample_model Samples.sample_batch
           Samples.sample_draws Samples.sample_user_seq 2).
  - reflexivity.
  - reflexivity.
  - lia.
  - cbn. lia.
  - cbn. lia.
  - cbn. lia.
  - constructor; [apply sample_user_seq_has_free_item; now left|].
    constructor; [apply sample_user_seq_has_free_item; now right|].
    constructor.
Defined.

(** *** Checkpoints: partial and trivial loads *)

(** X9: [load_checkpoint] assigns [self.config] before it touches the
    parameters: when the checkpoint has no 'parameters' entry the call
    raises KeyError, when the stored parameters do not have the keys and
    shapes of the model it raises RuntimeError, and in both cases the
    model is left with the configuration of the checkpoint. *)
Theorem load_checkpoint_config_first
    (fs : gmap string (gmap string ckpt_value)) (path : string)
    (ckpt : gmap string ckpt_value) (cfg : gmap string cfg_value)
    (self : BaseModel) :
  fs !! path = Some ckpt ->
  ckpt !! "config" = Some (CkConfig cfg) ->
  config (snd (load_checkpoint fs path self)) = cfg /\
  (ckpt !! "parameters" = None ->
     fst (load_checkpoint fs path self) = raise (KeyError "parameters")) /\
  (forall sd, ckpt !! "parameters" = Some (CkState sd) ->
     mshape <$> sd <> mshape <$> state_dict_of self ->
     fst (load_checkpoint fs path self) = raise RuntimeError).
Proof.
  intros Hpath Hcfg.
  unfold load_checkpoint, mbind', mlift, mmodify, load_state_dict, ok.
  rewrite Hpath. cbv beta iota. rewrite Hcfg. cbv beta iota.
  split; [|split].
  - destruct (ckpt !! "parameters") as [[c|sd|]|]; try reflexivity.
    cbv beta iota. now destruct (bool_decide _).
  - intros ->. reflexivity.
  - intros sd -> Hne. cbv beta iota.
    replace (state_dict_of (set_config cfg self)) with (state_dict_of self)
      by reflexivity.
    rewrite bool_decide_eq_false_2; [reflexivity|].
    intros Heq. apply Hne. now symmetry.
Qed.

Lemma load_checkpoint_config_first_witness :
  config (snd (load_checkpoint ExtraSamples.config_only_fs "saved/half.ckpt"
                 Samples.sample_model)) = Samples.stored_config /\
  fst (load_checkpoint ExtraSamples.config_only_fs "saved/half.ckpt"
         Samples.sample_model) = raise (KeyError "parameters").
Proof.
  destruct (load_checkpoint_config_first ExtraSamples.config_only_fs
              "saved/half.ckpt"
              (<["config" := CkConfig Samples.stored_config]> ∅)
              Samples.stored_config Samples.sample_model eq_refl eq_refl)
    as (Hcfg & Hkey & _).
  split; [exact Hcfg | exact (Hkey eq_refl)].
Defined.

(** X10: loading a checkpoint that holds the model's own configuration
    and its own state dictionary succeeds and leaves the model as it
    is. *)
Theorem load_checkpoint_own_state_is_identity
    (fs : gmap string (gmap string ckpt_value)) (path : string)
    (ckpt : gmap string ckpt_value) (self : BaseModel) :
  fs !! path = Some ckpt ->
  ckpt !! "config" = Some (CkConfig (config self)) ->
  ckpt !! "parameters" = Some (CkState (state_dict_of self)) ->
  other_parameters self !! embedding_key = None ->
  load_checkpoint fs path self = (ok tt, self).
Proof.
  intros Hpath Hcfg Hsd Hnone.
  unfold load_checkpoint, mbind', mlift, mmodify, ok.
  rewrite Hpath. cbv beta iota. rewrite Hcfg. cbv beta iota.
  rewrite Hsd. cbv beta iota.
  rewrite load_state_dict_fits by reflexivity. f_equal.
  destruct self as [c p m n dl dm ed emb other]. cbn in Hnone.
  unfold set_parameters, set_config, state_dict_of. cbn.
  rewrite lookup_total_insert_eq. now rewrite delete_insert_id.
Qed.

Lemma load_checkpoint_own_state_is_identity_witness :
  load_checkpoint ExtraSamples.own_fs "saved/own.ckpt" Samples.sample_model
  = (ok tt, Samples.sample_model).
Proof.
  apply (load_checkpoint_own_state_is_identity ExtraSamples.own_fs
           "saved/own.ckpt"
           (<["config" := CkConfig Samples.sample_config]>
              (<["parameters" :=
                   CkState (state_dict_of Samples.sample_model)]> ∅))).
  - reflexivity.
  - reflexivity.
  - reflexivity.
  - reflexivity.
Defined.

End BaseFacts.

(** ** BaseModel.topk *)

Module TopKFacts.
Import Base.

Lemma score_ltb_irrefl (a : score) : score_ltb a a = false.
Proof. destruct a; cbn; [reflexivity | apply Z.ltb_irrefl]. Qed.

Lemma score_ltb_asym (a b : score) :
  score_ltb a b = true -> score_ltb b a = false.
Proof.
  destruct a, b; cbn; try reflexivity; try discriminate.
  intros H. apply Z.ltb_lt in H. apply Z.ltb_ge. lia.
Qed.

Lemma score_ltb_negtrans (a b c : score) :
  score_ltb a b = false -> score_ltb b c = false -> score_ltb a c = false.
Proof.
  destruct a, b, c; cbn; try reflexivity; try discriminate.
  intros H1 H2. apply Z.ltb_ge in H1, H2. apply Z.ltb_ge. lia.
Qed.

Lemma is_max_spec (cs : list (nat * score)) (c : nat * score) :
  is_max cs c = true <->
  forall x, x ∈ cs -> score_ltb (snd c) (snd x) = false.
Proof.
  unfold is_max. rewrite forallb_forall. split.
  - intros H x Hx. apply negb_true_iff, H. now apply list_elem_of_In.
  - intros H x Hx. apply negb_true_iff, H. now apply list_elem_of_In.
Qed.

(** A list of candidates that is not empty has a largest one. *)
Lemma exists_max (cs : list (nat * score)) :
  cs <> [] -> exists (p : nat) c, cs !! p = Some c /\ is_max cs c = true.
Proof.
  induction cs as [|c cs IH]; intros Hne; [congruence|].
  destruct cs as [|c' cs'].
  - exists 0%nat, c. split; [reflexivity|]. apply is_max_spec.
    intros x Hx. apply list_elem_of_singleton in Hx as ->.
    apply score_ltb_irrefl.
  - destruct IH as (p & m & Hp & Hm); [discriminate|].
    rewrite is_max_spec in Hm.
    destruct (score_ltb (snd c) (snd m)) eqn:Hlt.
    + exists (S p), m. split; [exact Hp|]. apply is_max_spec.
      intros x Hx. apply elem_of_cons in Hx as [-> | Hx].
      * now apply score_ltb_asym.
      * now apply Hm.
    + exists 0%nat, c. split; [reflexivity|]. apply is_max_spec.
      intros x Hx. apply elem_of_cons in Hx as [-> | Hx].
      * apply score_ltb_irrefl.
      * eapply score_ltb_negtrans; [exact Hlt | now apply Hm].
Qed.

Lemma max_positions_spec (cs : list (nat * score)) (p : nat) :
  p ∈ max_positions cs <->
  exists c, cs !! p = Some c /\ is_max cs c = true.
Proof.
  unfold max_positions. rewrite list_elem_of_In, filter_In. split.
  - intros [_ H]. destruct (cs !! p) as [c|]; [|discriminate H]. eauto.
  - intros (c & Hc & Hm). split.
    + apply in_seq. apply lookup_lt_Some in Hc. lia.
    + now rewrite Hc.
Qed.

(** What [extract_max] takes is a largest candidate, at some position
    of the list; the others are left in their order. *)
Lemma extract_max_inv (choice : nat) (cs : list (nat * score))
    (m : nat * score) (rest : list (nat * score)) :
  extract_max choice cs = Some (m, rest) ->
  exists p : nat,
    cs !! p = Some m /\ rest = delete p cs /\ is_max cs m = true.
Proof.
  unfold extract_max. intros H.
  destruct (max_positions cs !! (choice mod length (max_positions cs))%nat)
    as [p|] eqn:Hp; [|discriminate H].
  apply list_elem_of_lookup_2, max_positions_spec in Hp as (c & Hc & Hm).
  rewrite Hc in H. inversion H; subst. eauto.
Qed.

(** It takes one whenever there is a candidate, whatever the choice. *)
Lemma extract_max_None (choice : nat) (cs : list (nat * score)) :
  extract_max choice cs = None -> cs = [].
Proof.
  intros H. destruct cs as [|c cs]; [reflexivity|]. exfalso.
  destruct (exists_max (c :: cs)) as (p & m & Hp & Hm); [discriminate|].
  assert (Hin : p ∈ max_positions (c :: cs))
    by (apply max_positions_spec; eauto).
  assert (Hlen : (0 < length (max_positions (c :: cs)))%nat).
  { destruct (max_positions (c :: cs)); [inversion Hin | cbn; lia]. }
  unfold extract_max in H.
  destruct (lookup_lt_is_Some_2 (max_positions (c :: cs))
              (choice mod length (max_positions (c :: cs)))%nat) as [q Hq].
  { apply Nat.mod_upper_bound. lia. }
  rewrite Hq in H.
  apply list_elem_of_lookup_2, max_positions_spec in Hq as (c' & Hc' & _).
  rewrite Hc' in H. discriminate H.
Qed.

Lemma extract_max_perm (choice : nat) (cs : list (nat * score))
    (m : nat * score) (rest : list (nat * score)) :
  extract_max choice cs = Some (m, rest) -> m :: rest ≡ₚ cs.
Proof.
  intros H. apply extract_max_inv in H as (p & Hp & -> & _).
  symmetry. now apply delete_Permutation.
Qed.

Lemma extract_max_greatest (choice : nat) (cs : list (nat * score))
    (m : nat * score) (rest : list (nat * score)) :
  extract_max choice cs = Some (m, rest) ->
  forall x, x ∈ cs -> score_ltb (snd m) (snd x) = false.
Proof.
  intros H. apply extract_max_inv in H as (p & _ & _ & Hm).
  now apply is_max_spec.
Qed.

Lemma count_fin_perm (l l' : list (nat * score)) :
  l ≡ₚ l' -> count_fin l = count_fin l'.
Proof.
  unfold count_fin. induction 1 as [|x l l' _ IH|x y l|l l' l'' _ IH1 _ IH2];
    cbn.
  - reflexivity.
  - destruct (is_fin (snd x)); cbn; now rewrite IH.
  - now destruct (is_fin (snd x)), (is_fin (snd y)).
  - now rewrite IH1.
Qed.

Lemma count_fin_pos_elem (cands : list (nat * score)) :
  (0 < count_fin cands)%nat -> exists x, x ∈ cands /\ is_fin (snd x) = true.
Proof.
  unfold count_fin. induction cands as [|c cands IH]; cbn; [lia|].
  destruct (is_fin (snd c)) eqn:Hc; cbn; intros H.
  - exists c. split; [apply elem_of_cons; now left | exact Hc].
  - destruct (IH H) as (x & Hx & Hfin). exists x.
    split; [apply elem_of_cons; now right | exact Hfin].
Qed.

(** With at least [k] finite candidates, the [k] picked are candidates
    with a finite score, however equal scores are ordered. *)
Lemma topk_row_finite (k : nat) :
  forall (tie : nat -> nat) cands, (k <= count_fin cands)%nat ->
    forall c, c ∈ topk_row tie k cands -> c ∈ cands /\ is_fin (snd c) = true.
Proof.
  induction k as [|k IH]; intros tie cands Hk c Hc; cbn in Hc;
    [inversion Hc|].
  destruct (extract_max (tie 0%nat) cands) as [[m rest]|] eqn:He;
    [|inversion Hc].
  pose proof (extract_max_perm _ _ _ _ He) as Hperm.
  pose proof (extract_max_greatest _ _ _ _ He) as Hmax.
  assert (Hm : is_fin (snd m) = true).
  { destruct (count_fin_pos_elem cands) as (x & Hx & Hfin); [lia|].
    specialize (Hmax x Hx). destruct (snd m), (snd x); cbn in *; congruence. }
  apply elem_of_cons in Hc as [-> | Hc].
  - split; [rewrite <- Hperm; apply elem_of_cons; now left | exact Hm].
  - destruct (IH (fun t => tie (S t)) rest) with (c := c) as [Hin Hfin];
      [|exact Hc|].
    + pose proof (count_fin_perm _ _ Hperm) as Hcount.
      assert (Hs : count_fin (m :: rest) = S (count_fin rest))
        by (unfold count_fin; cbn; now rewrite Hm).
      lia.
    + split; [rewrite <- Hperm; apply elem_of_cons; now right | exact Hfin].
Qed.

Lemma clear_mask_spec (items : list Z) :
  forall m m', clear_mask m items = ok m' ->
    length m' = length m /\
    forall i : nat,
      m' !! i = (fun b => b && negb (in_domainb (length m) items i))
                  <$> (m !! i).
Proof.
  induction items as [|j items IH]; intros m m' H; cbn in H.
  - assert (m' = m) as -> by (inversion H; reflexivity).
    split; [reflexivity|]. intros i.
    destruct (m !! i) as [b|]; cbn; [|reflexivity].
    now rewrite andb_true_r.
  - destruct (norm_index (length m) j) as [i0|] eqn:Hj; [|discriminate H].
    destruct (IH _ _ H) as [Hlen Hm']. rewrite length_insert in Hlen, Hm'.
    split; [exact Hlen|]. intros i. rewrite Hm'. cbn [in_domainb existsb].
    rewrite Hj. fold (in_domainb (length m) items i).
    destruct (Nat.eqb_spec i0 i) as [-> | Hne].
    + destruct (m !! i) as [b|] eqn:Hb.
      * rewrite list_lookup_insert_eq by (now apply lookup_lt_Some in Hb).
        cbn. now rewrite andb_false_r.
      * apply lookup_ge_None in Hb. apply BaseFacts.norm_index_lt in Hj. lia.
    + now rewrite list_lookup_insert_ne by exact Hne.
Qed.

Lemma scatter_row_spec (index : list Z) :
  forall row row', scatter_row row index = ok row' ->
    length row' = length row /\
    forall i : nat,
      row' !! i = (fun s => if in_historyb index i then NegInf else s)
                    <$> (row !! i).
Proof.
  induction index as [|h index IH]; intros row row' H; cbn in H.
  - assert (row' = row) as -> by (inversion H; reflexivity).
    split; [reflexivity|]. intros i.
    now destruct (row !! i).
  - destruct ((0 <=? h) && (h <? Z.of_nat (length row))) eqn:Hh;
      [|discriminate H].
    apply andb_true_iff in Hh as [Hh0 Hh1].
    apply Z.leb_le in Hh0. apply Z.ltb_lt in Hh1.
    destruct (IH _ _ H) as [Hlen Hrow']. rewrite length_insert in Hlen.
    split; [exact Hlen|]. intros i. rewrite Hrow'.
    cbn [in_historyb existsb]. fold (in_historyb index i).
    destruct (Z.eqb_spec h (Z.of_nat i)) as [-> | Hne].
    + rewrite Nat2Z.id. destruct (row !! i) as [s|] eqn:Hs.
      * rewrite list_lookup_insert_eq by lia. cbn.
        now destruct (in_historyb index i).
      * apply lookup_ge_None in Hs. lia.
    + rewrite list_lookup_insert_ne by lia. reflexivity.
Qed.

Lemma scatter_spec (index : list (list Z)) :
  forall rows rows', scatter rows index = ok rows' ->
    length rows' = length rows /\
    forall (b : nat) row', rows' !! b = Some row' ->
      exists row, rows !! b = Some row /\
                  scatter_row row (index !!! b) = ok row'.
Proof.
  induction index as [|h index IH]; intros rows rows' H; cbn in H.
  - assert (rows' = rows) as -> by (inversion H; reflexivity).
    split; [reflexivity|]. intros b row' Hb.
    exists row'. split; [exact Hb|]. now rewrite lookup_total_nil.
  - destruct rows as [|r rows]; [discriminate H|].
    destruct (scatter_row r h) as [e|r'] eqn:Hr; [discriminate H|].
    cbn in H. destruct (scatter rows index) as [e|rs] eqn:Hrs;
      [discriminate H|].
    cbn in H. inversion H; subst. destruct (IH _ _ Hrs) as [Hlen Hget].
    split; [cbn; now rewrite Hlen|]. intros [|b] row' Hb; cbn in Hb.
    + inversion Hb; subst. exists r. now split.
    + destruct (Hget b row' Hb) as (row & Hrow & Hs). exists row. now split.
Qed.

Lemma torch_topk_spec (rows : list (list score)) (k : Z)
    (ties : nat -> nat -> nat)
    (scores : list (list score)) (picked : list (list nat)) :
  torch_topk rows k ties = ok (scores, picked) ->
  forall (b : nat) row_items, picked !! b = Some row_items ->
    exists row, rows !! b = Some row /\
      row_items
      = map fst (topk_row (ties b) (Z.to_nat k)
                   (imap (fun i s => (i, s)) row)).
Proof.
  unfold torch_topk. intros H.
  destruct (mapM_res _ (zip _ rows)) as [e|out] eqn:Hout; [discriminate H|].
  cbn in H. inversion H; subst. apply mapM_res_ok in Hout.
  intros b row_items Hb. apply lookup_map_Some in Hb as (p & Hp & ->).
  destruct (Forall2_lookup_r _ _ _ _ _ Hout Hp) as ([b' row] & Hrow & Hf).
  apply lookup_zip_Some in Hrow as [Hb' Hrow]. cbn [fst snd] in *.
  apply lookup_seq in Hb' as [-> _].
  exists row. split; [exact Hrow|].
  destruct ((k <? 0) || (Z.of_nat (length row) <? k)); [discriminate Hf|].
  now inversion Hf.
Qed.

Lemma count_fin_imap (l : list score) :
  forall h : nat -> nat,
    count_fin (imap (fun i s => (h i, s)) l) = length (List.filter is_fin l).
Proof.
  unfold count_fin. induction l as [|x l IH]; intros h; [reflexivity|].
  cbn. specialize (IH (fun i => h (S i))). unfold compose.
  destruct (is_fin x); cbn; now rewrite IH.
Qed.

Lemma count_filter_seq (f : nat -> bool) (l : list score) :
  forall a : nat,
    (forall (i : nat) x, l !! i = Some x -> is_fin x = f (a + i)%nat) ->
    length (List.filter is_fin l) = length (List.filter f (seq a (length l))).
Proof.
  induction l as [|x l IH]; intros a H; [reflexivity|].
  cbn. rewrite (H 0%nat x eq_refl), Nat.add_0_r.
  assert (Hl : length (List.filter is_fin l)
               = length (List.filter f (seq (S a) (length l)))).
  { apply IH. intros i y Hi. rewrite (H (S i) y Hi). f_equal. lia. }
  destruct (f a); cbn; now rewrite Hl.
Qed.

Lemma in_historyb_false (hist : list Z) (i : nat) :
  in_historyb hist i = false -> Z.of_nat i ∉ hist.
Proof.
  unfold in_historyb. intros H Hin.
  assert (Ht : existsb (fun h => h =? Z.of_nat i) hist = true).
  { apply existsb_exists. exists (Z.of_nat i).
    split; [now apply list_elem_of_In | apply Z.eqb_refl]. }
  congruence.
Qed.

Lemma in_domainb_true (n : nat) (items : list Z) (i : nat) :
  in_domainb n items i = true ->
  exists j, j ∈ items /\ norm_index n j = Some i.
Proof.
  unfold in_domainb. intros H. apply existsb_exists in H as (j & Hj & Hn).
  exists j. split; [now apply list_elem_of_In|].
  destruct (norm_index n j) as [i'|]; [|discriminate Hn].
  apply Nat.eqb_eq in Hn. now subst.
Qed.

Lemma lookup_total_history (user_h : list (list Z)) (b : nat) :
  map history_ids user_h !!! b = history_ids (user_h !!! b).
Proof.
  revert b. induction user_h as [|h user_h IH]; intros [|b]; cbn;
    try reflexivity.
  apply IH.
Qed.

(** The finite entries of a fully masked row are the candidates. *)
Lemma masked_row_candidates (n : nat) (items hist : list Z)
    (real : list Z) (dm : list bool) (row : list score) :
  length real = n ->
  clear_mask (repeat true n) items = ok dm ->
  scatter_row
    (zip_with (fun s (m : bool) => if m then NegInf else Fin s) real dm) hist
    = ok row ->
  length row = n /\
  forall (i : nat) x, row !! i = Some x ->
    is_fin x = in_domainb n items i && negb (in_historyb hist i).
Proof.
  intros Hreal Hdm Hrow.
  destruct (clear_mask_spec _ _ _ Hdm) as [Hldm Hdmi].
  rewrite repeat_length in Hldm, Hdmi.
  destruct (scatter_row_spec _ _ _ Hrow) as [Hlrow Hrowi].
  rewrite length_zip_with in Hlrow. split; [lia|].
  intros i x Hx. rewrite Hrowi in Hx.
  destruct (zip_with _ real dm !! i) as [s0|] eqn:Hs0; [|discriminate Hx].
  cbn in Hx. inversion Hx; subst x; clear Hx.
  apply lookup_zip_with_Some in Hs0 as (sc & m & -> & _ & Hm).
  rewrite Hdmi in Hm.
  destruct (repeat true n !! i) as [t|] eqn:Ht; [|discriminate Hm].
  apply lookup_repeat_Some in Ht as [-> _]. cbn in Hm. inversion Hm; subst m.
  now destruct (in_historyb hist i), (in_domainb n items i).
Qed.

Section TopKTheorem.
Variable forward : BaseModel -> gmap string tensor -> res (list (list Z)).
Variable ties : nat -> nat -> nat.

Local Abbreviation topk := (topk forward ties).

(** C9: when [k] does not exceed the number of unmasked candidates of
    any row, no item returned by [topk] for row [b] occurs in the
    user's history [user_h[b]] (with -1 read as the padding id 0), and
    every returned item belongs to the selected evaluation domain,
    however [torch.topk] orders equal scores. *)
Theorem topk_excludes_history_and_foreign_items
    (self : BaseModel) (batch : gmap string tensor) (k : Z)
    (user_h : list (list Z))
    (scores : list (list score)) (picked : list (list nat))
    (domain : string) (items : list Z) :
  eval_domain self = Some domain ->
  domain_item_mapping self !! domain = Some items ->
  length (item_embedding self) = num_items self ->
  topk self batch k (Some user_h) = ok (scores, picked) ->
  (forall b : nat, (b < length picked)%nat ->
     k <= Z.of_nat (length (candidates (num_items self) items
                              (history_ids (user_h !!! b))))) ->
  forall (b : nat) row_items (item : nat),
    picked !! b = Some row_items -> item ∈ row_items ->
    (Z.of_nat item ∉ history_ids (user_h !!! b)) /\
    exists j, j ∈ items /\ norm_index (num_items self) j = Some item.
Proof.
  intros Hdom Hitems Hemb H Hk b row_items item Hb Hitem.
  unfold Base.topk in H.
  destruct (forward self batch) as [e|query]; [discriminate H|].
  rewrite Hdom in H. cbn [rbind ok] in H. rewrite Hitems in H.
  cbn [rbind ok] in H.
  destruct (clear_mask _ items) as [e|dm] eqn:Hdm; [discriminate H|].
  cbn [rbind ok] in H.
  destruct (scatter _ _) as [e|ms] eqn:Hms; [discriminate H|].
  cbn [rbind] in H.
  destruct (torch_topk_spec _ _ _ _ _ H b row_items Hb) as (row & Hrow & ->).
  destruct (scatter_spec _ _ _ Hms) as [_ Hget].
  destruct (Hget b row Hrow) as (mrow & Hmrow & Hsc).
  rewrite lookup_total_history in Hsc.
  apply lookup_map_Some in Hmrow as (real & Hreal & ->).
  unfold matmul_T in Hreal.
  apply lookup_map_Some in Hreal as (u & _ & ->).
  destruct (masked_row_candidates (num_items self) items
              (history_ids (user_h !!! b))
              (map (dot u) (item_embedding self)) dm row) as [Hlen Hfin];
    [now rewrite length_map | exact Hdm | exact Hsc |].
  assert (Hcount : count_fin (imap (fun i s => (i, s)) row)
                   = length (candidates (num_items self) items
                               (history_ids (user_h !!! b)))).
  { rewrite (count_fin_imap row (fun i => i)). unfold candidates.
    replace (seq 0 (num_items self)) with (seq 0 (length row))
      by now rewrite Hlen.
    apply count_filter_seq. intros i x Hx. now apply Hfin. }
  apply list_elem_of_fmap in Hitem as (c & -> & Hc).
  apply topk_row_finite in Hc as [Hin Hc].
  2:{ rewrite Hcount. apply lookup_lt_Some in Hb. specialize (Hk b Hb). lia. }
  apply elem_of_lookup_imap in Hin as (i & y & -> & Hy).
  cbn in *. rewrite (Hfin i y Hy) in Hc.
  apply andb_true_iff in Hc as [Hd Hh]. apply negb_true_iff in Hh.
  split; [now apply in_historyb_false | now apply in_domainb_true].
Qed.

End TopKTheorem.

Lemma topk_excludes_history_and_foreign_items_witness :
  topk Samples.sample_forward Samples.sample_ties Samples.sample_model
    Samples.sample_batch 2 (Some Samples.sample_user_h)
  = ok ([[Fin 1; Fin 0]; [Fin 1; Fin 1]], [[3; 2]; [3; 2]]%nat) /\
  forall (b : nat) row_items (item : nat),
    [[3; 2]; [3; 2]]%nat !! b = Some row_items -> item ∈ row_items ->
    (Z.of_nat item ∉ history_ids (Samples.sample_user_h !!! b)) /\
    exists j, j ∈ [1; 2; 3] /\ norm_index 5 j = Some item.
Proof.
  split; [vm_compute; reflexivity|].
  apply (topk_excludes_history_and_foreign_items Samples.sample_forward
           Samples.sample_ties
           Samples.sample_model Samples.sample_batch 2 Samples.sample_user_h
           [[Fin 1; Fin 0]; [Fin 1; Fin 1]] [[3; 2]; [3; 2]]%nat
           "book" [1; 2; 3]).
  - reflexivity.
  - reflexivity.
  - reflexivity.
  - vm_compute. reflexivity.
  - intros [|[|b]] Hb; cbn in Hb; [vm_compute; discriminate ..|lia].
Defined.

(** *** What [topk] returns: its shape, its order, and what happens when
        [k] is too large *)

Lemma topk_row_split (k : nat) :
  forall (tie : nat -> nat) cands, exists others,
    topk_row tie k cands ++ others ≡ₚ cands /\
    length (topk_row tie k cands) = Nat.min k (length cands).
Proof.
  induction k as [|k IH]; intros tie cands.
  - exists cands. split; reflexivity.
  - cbn [topk_row].
    destruct (extract_max (tie 0%nat) cands) as [[m rest]|] eqn:He.
    + destruct (IH (fun t => tie (S t)) rest) as (others & Hperm & Hlen).
      apply extract_max_perm in He.
      exists others. split.
      * cbn. now rewrite Hperm.
      * apply Permutation_length in He. cbn in He. cbn [length].
        rewrite Hlen. lia.
    + apply extract_max_None in He. subst cands.
      exists []. split; reflexivity.
Qed.

Lemma topk_row_elem (tie : nat -> nat) (k : nat) (cands : list (nat * score))
    (c : nat * score) :
  c ∈ topk_row tie k cands -> c ∈ cands.
Proof.
  intros Hc. destruct (topk_row_split k tie cands) as (others & Hperm & _).
  rewrite <- Hperm. apply elem_of_app. now left.
Qed.

Lemma topk_row_sorted (k : nat) :
  forall (tie : nat -> nat) cands (j1 j2 : nat) c1 c2,
    (j1 < j2)%nat ->
    topk_row tie k cands !! j1 = Some c1 ->
    topk_row tie k cands !! j2 = Some c2 ->
    score_ltb (snd c1) (snd c2) = false.
Proof.
  induction k as [|k IH]; intros tie cands j1 j2 c1 c2 Hlt H1 H2;
    [discriminate H1|].
  cbn [topk_row] in H1, H2.
  destruct (extract_max (tie 0%nat) cands) as [[m rest]|] eqn:He;
    [|discriminate H1].
  destruct j2 as [|j2]; [lia|]. cbn in H2.
  destruct j1 as [|j1]; cbn in H1.
  - inversion H1; subst c1. apply (extract_max_greatest _ _ _ _ He).
    rewrite <- (extract_max_perm _ _ _ _ He). apply elem_of_cons. right.
    apply (topk_row_elem (fun t => tie (S t)) k).
    eapply list_elem_of_lookup_2, H2.
  - apply (IH (fun t => tie (S t)) rest j1 j2); [lia | assumption | assumption].
Qed.

(** No candidate that is left out has a larger score than one that is
    picked. *)
Lemma topk_row_best (k : nat) :
  forall (tie : nat -> nat) cands others c x,
    topk_row tie k cands ++ others ≡ₚ cands ->
    c ∈ topk_row tie k cands -> x ∈ cands ->
    x ∈ topk_row tie k cands \/ score_ltb (snd c) (snd x) = false.
Proof.
  induction k as [|k IH]; intros tie cands others c x Hperm Hc Hx;
    [inversion Hc|].
  cbn [topk_row] in *.
  destruct (extract_max (tie 0%nat) cands) as [[m rest]|] eqn:He;
    [|inversion Hc].
  pose proof (extract_max_perm _ _ _ _ He) as Hp.
  pose proof (extract_max_greatest _ _ _ _ He) as Hmax.
  destruct (topk_row_split k (fun t => tie (S t)) rest)
    as (others' & Hperm' & _).
  rewrite <- Hp in Hx. apply elem_of_cons in Hx as [-> | Hx].
  { left. apply elem_of_cons. now left. }
  apply elem_of_cons in Hc as [-> | Hc].
  - right. apply Hmax. rewrite <- Hp. apply elem_of_cons. now right.
  - destruct (IH _ rest others' c x Hperm' Hc Hx) as [Hin | Hle].
    + left. apply elem_of_cons. now right.
    + now right.
Qed.

(** The choices cover what [torch.topk] may answer: every list that is
    sorted best first and leaves out nothing better than what it holds
    is the answer for some way of settling the equal scores. *)
Lemma topk_row_complete (out : list (nat * score)) :
  forall cands others,
    out ++ others ≡ₚ cands ->
    (forall (j1 j2 : nat) c1 c2,
       (j1 < j2)%nat -> out !! j1 = Some c1 -> out !! j2 = Some c2 ->
       score_ltb (snd c1) (snd c2) = false) ->
    (forall c x, c ∈ out -> x ∈ others ->
       score_ltb (snd c) (snd x) = false) ->
    exists tie : nat -> nat, topk_row tie (length out) cands = out.
Proof.
  induction out as [|m out IH]; intros cands others Hperm Hsorted Hbest.
  - exists (fun _ => 0%nat). reflexivity.
  - assert (Hm : is_max cands m = true).
    { apply is_max_spec. intros x Hx. rewrite <- Hperm in Hx.
      cbn in Hx. apply elem_of_cons in Hx as [-> | Hx];
        [apply score_ltb_irrefl|].
      apply elem_of_app in Hx as [Hx | Hx].
      - apply list_elem_of_lookup_1 in Hx as [j Hj].
        apply (Hsorted 0%nat (S j)); [lia | reflexivity | exact Hj].
      - apply Hbest; [apply elem_of_cons; now left | exact Hx]. }
    assert (Hin : m ∈ cands)
      by (rewrite <- Hperm; apply elem_of_cons; now left).
    apply list_elem_of_lookup_1 in Hin as [p Hp].
    assert (Hpos : p ∈ max_positions cands)
      by (apply max_positions_spec; eauto).
    apply list_elem_of_lookup_1 in Hpos as [i Hi].
    assert (He : extract_max i cands = Some (m, delete p cands)).
    { unfold extract_max.
      rewrite Nat.mod_small by (now apply lookup_lt_Some in Hi).
      now rewrite Hi, Hp. }
    destruct (IH (delete p cands) others) as [tie' Htie].
    + apply (Permutation_cons_inv (a := m)).
      rewrite <- (delete_Permutation cands p m Hp). exact Hperm.
    + intros j1 j2 c1 c2 Hlt H1 H2.
      apply (Hsorted (S j1) (S j2)); [lia | exact H1 | exact H2].
    + intros c x Hc Hx. apply Hbest; [apply elem_of_cons; now right|exact Hx].
    + exists (fun t => match t with O => i | S t' => tie' t' end).
      cbn [length topk_row]. rewrite He. f_equal. exact Htie.
Qed.

Lemma fst_imap_seq {A} (l : list A) :
  forall h : nat -> nat,
    map fst (imap (fun i s => (h i, s)) l) = map h (seq 0 (length l)).
Proof.
  induction l as [|x l IH]; intros h; [reflexivity|].
  cbn. f_equal. specialize (IH (fun i => h (S i))). unfold compose.
  rewrite IH. now rewrite <- seq_shift, map_map.
Qed.

Lemma count_fin_app (l l' : list (nat * score)) :
  count_fin (l ++ l') = (count_fin l + count_fin l')%nat.
Proof.
  unfold count_fin. now rewrite List.filter_app, length_app.
Qed.

Lemma count_fin_all (l : list (nat * score)) :
  (count_fin l < length l)%nat ->
  exists c, c ∈ l /\ is_fin (snd c) = false.
Proof.
  unfold count_fin. induction l as [|c l IH]; cbn; [lia|].
  destruct (is_fin (snd c)) eqn:Hc; cbn; intros H.
  - destruct IH as (x & Hx & Hfin); [lia|]. exists x.
    split; [apply elem_of_cons; now right | exact Hfin].
  - exists c. split; [apply elem_of_cons; now left | exact Hc].
Qed.

Lemma in_historyb_true (hist : list Z) (i : nat) :
  in_historyb hist i = true -> Z.of_nat i ∈ hist.
Proof.
  unfold in_historyb. intros H. apply existsb_exists in H as (h & Hh & Heq).
  apply Z.eqb_eq in Heq. subst. now apply list_elem_of_In.
Qed.

Lemma in_domainb_false (n : nat) (items : list Z) (i : nat) :
  in_domainb n items i = false ->
  forall j, j ∈ items -> norm_index n j <> Some i.
Proof.
  unfold in_domainb. intros H j Hj Hn.
  assert (Ht : existsb (fun j => match norm_index n j with
                                 | Some i' => (i' =? i)%nat
                                 | None => false
                                 end) items = true).
  { apply existsb_exists. exists j. split; [now apply list_elem_of_In|].
    rewrite Hn. apply Nat.eqb_refl. }
  congruence.
Qed.

Lemma torch_topk_rows (rows : list (list score)) (k : Z)
    (ties : nat -> nat -> nat)
    (scores : list (list score)) (picked : list (list nat)) :
  torch_topk rows k ties = ok (scores, picked) ->
  length scores = length rows /\ length picked = length rows /\
  forall (b : nat) row, rows !! b = Some row ->
    0 <= k <= Z.of_nat (length row) /\
    picked !! b
      = Some (map fst (topk_row (ties b) (Z.to_nat k)
                         (imap (fun i s => (i, s)) row))) /\
    scores !! b
      = Some (map snd (topk_row (ties b) (Z.to_nat k)
                         (imap (fun i s => (i, s)) row))).
Proof.
  unfold torch_topk. intros H.
  destruct (mapM_res _ (zip _ rows)) as [e|out] eqn:Hout; [discriminate H|].
  cbn in H. inversion H; subst. apply mapM_res_ok in Hout.
  pose proof (Forall2_length _ _ _ Hout) as Hlen.
  rewrite length_zip_with, length_seq, Nat.min_id in Hlen.
  rewrite !length_map. split; [now symmetry|]. split; [now symmetry|].
  intros b row Hrow.
  assert (Hz : zip (seq 0 (length rows)) rows !! b = Some (b, row)).
  { apply lookup_zip_with_Some. exists b, row.
    split; [reflexivity|]. split; [|exact Hrow].
    apply lookup_seq. split; [reflexivity|].
    now apply lookup_lt_Some in Hrow. }
  destruct (Forall2_lookup_l _ _ _ _ _ Hout Hz) as (p & Hp & Hf).
  cbn [fst snd] in Hf.
  destruct ((k <? 0) || (Z.of_nat (length row) <? k)) eqn:Hk;
    [discriminate Hf|].
  apply orb_false_iff in Hk as [Hk0 Hk1]. apply Z.ltb_ge in Hk0, Hk1.
  inversion Hf; subst p. rewrite !lookup_map, Hp. split; [lia|].
  split; reflexivity.
Qed.

Section TopKShape.
Variable forward : BaseModel -> gmap string tensor -> res (list (list Z)).
Variable ties : nat -> nat -> nat.

Local Abbreviation topk := (topk forward ties).

(** The masked score rows [topk] hands to [torch.topk]. *)
Lemma topk_masked_rows
    (self : BaseModel) (batch : gmap string tensor) (k : Z)
    (user_h : list (list Z))
    (scores : list (list score)) (picked : list (list nat))
    (domain : string) (items : list Z) :
  eval_domain self = Some domain ->
  domain_item_mapping self !! domain = Some items ->
  length (item_embedding self) = num_items self ->
  topk self batch k (Some user_h) = ok (scores, picked) ->
  exists query ms,
    forward self batch = ok query /\ length ms = length query /\
    torch_topk ms k ties = ok (scores, picked) /\
    forall (b : nat) row, ms !! b = Some row ->
      length row = num_items self /\
      forall (i : nat) x, row !! i = Some x ->
        is_fin x = in_domainb (num_items self) items i
                   && negb (in_historyb (history_ids (user_h !!! b)) i).
Proof.
  intros Hdom Hitems Hemb H. unfold Base.topk in H.
  destruct (forward self batch) as [e|query]; [discriminate H|].
  rewrite Hdom in H. cbn [rbind ok] in H. rewrite Hitems in H.
  cbn [rbind ok] in H.
  destruct (clear_mask _ items) as [e|dm] eqn:Hdm; [discriminate H|].
  cbn [rbind ok] in H.
  destruct (scatter _ _) as [e|ms] eqn:Hms; [discriminate H|].
  cbn [rbind] in H.
  destruct (scatter_spec _ _ _ Hms) as [Hlen Hget].
  exists query, ms. split; [reflexivity|]. split.
  { rewrite Hlen. unfold matmul_T. now rewrite !length_map. }
  split; [exact H|]. intros b row Hrow.
  destruct (Hget b row Hrow) as (mrow & Hmrow & Hsc).
  rewrite lookup_total_history in Hsc.
  apply lookup_map_Some in Hmrow as (real & Hreal & ->).
  unfold matmul_T in Hreal.
  apply lookup_map_Some in Hreal as (u & _ & ->).
  apply (masked_row_candidates (num_items self) items
           (history_ids (user_h !!! b))
           (map (dot u) (item_embedding self)) dm row);
    [now rewrite length_map | exact Hdm | exact Hsc].
Qed.

(** X11: when [topk] returns, it returns one row of scores and one row
    of items for every query; every row holds exactly [k] distinct item
    ids below [num_items], [0 <= k <= num_items], and the scores of a
    row never increase from left to right, however equal scores are
    ordered. *)
Theorem topk_returns_k_distinct_items_best_first
    (self : BaseModel) (batch : gmap string tensor) (k : Z)
    (user_h : list (list Z))
    (scores : list (list score)) (picked : list (list nat))
    (domain : string) (items : list Z) :
  eval_domain self = Some domain ->
  domain_item_mapping self !! domain = Some items ->
  length (item_embedding self) = num_items self ->
  topk self batch k (Some user_h) = ok (scores, picked) ->
  length scores = length picked /\
  forall (b : nat) items_b, picked !! b = Some items_b ->
    exists scores_b,
      scores !! b = Some scores_b /\
      0 <= k <= Z.of_nat (num_items self) /\
      length items_b = Z.to_nat k /\ length scores_b = Z.to_nat k /\
      NoDup items_b /\
      Forall (fun item => (item < num_items self)%nat) items_b /\
      forall (j1 j2 : nat) s1 s2,
        (j1 < j2)%nat ->
        scores_b !! j1 = Some s1 -> scores_b !! j2 = Some s2 ->
        score_ltb s1 s2 = false.
Proof.
  intros Hdom Hitems Hemb H.
  destruct (topk_masked_rows self batch k user_h scores picked domain items
              Hdom Hitems Hemb H) as (query & ms & _ & _ & Htop & Hrows).
  destruct (torch_topk_rows _ _ _ _ _ Htop) as (Hls & Hlp & Hget).
  split; [congruence|]. intros b items_b Hb.
  destruct (lookup_lt_is_Some_2 ms b) as [row Hrow].
  { rewrite <- Hlp. now apply lookup_lt_Some in Hb. }
  destruct (Hget b row Hrow) as (Hk & Hpb & Hsb).
  destruct (Hrows b row Hrow) as [Hlen _].
  rewrite Hpb in Hb. inversion Hb; subst items_b; clear Hb.
  set (cands := imap (fun i s => (i, s)) row) in *.
  destruct (topk_row_split (Z.to_nat k) (ties b) cands) as (others & Hperm & Hl).
  assert (Hlc : length cands = num_items self)
    by (unfold cands; now rewrite length_imap).
  eexists. split; [exact Hsb|]. rewrite !length_map, Hl.
  split; [lia|]. split; [lia|]. split; [lia|].
  assert (Hfst : map fst (topk_row (ties b) (Z.to_nat k) cands) ++ map fst others
                 ≡ₚ seq 0 (num_items self)).
  { rewrite <- map_app, Hperm. unfold cands.
    rewrite (fst_imap_seq row (fun i => i)), map_id. now rewrite Hlen. }
  split; [|split].
  - pose proof (NoDup_seq 0 (num_items self)) as Hnd.
    rewrite <- Hfst in Hnd. now apply NoDup_app in Hnd as [Hnd _].
  - apply Forall_forall. intros item Hitem.
    assert (Hin : item ∈ seq 0 (num_items self)).
    { rewrite <- Hfst. apply elem_of_app. now left. }
    apply elem_of_seq in Hin. lia.
  - intros j1 j2 s1 s2 Hlt H1 H2.
    apply lookup_map_Some in H1 as (c1 & Hc1 & ->).
    apply lookup_map_Some in H2 as (c2 & Hc2 & ->).
    now apply (topk_row_sorted (Z.to_nat k) (ties b) cands j1 j2).
Qed.

(** X12: when [k] exceeds the number of unmasked candidates of a row and
    [topk] still returns, the row contains a masked item: one of the
    user's history or one outside the evaluation domain. *)
Theorem topk_returns_masked_item_when_k_too_large
    (self : BaseModel) (batch : gmap string tensor) (k : Z)
    (user_h : list (list Z))
    (scores : list (list score)) (picked : list (list nat))
    (domain : string) (items : list Z) (b : nat) (items_b : list nat) :
  eval_domain self = Some domain ->
  domain_item_mapping self !! domain = Some items ->
  length (item_embedding self) = num_items self ->
  topk self batch k (Some user_h) = ok (scores, picked) ->
  picked !! b = Some items_b ->
  Z.of_nat (length (candidates (num_items self) items
                      (history_ids (user_h !!! b)))) < k ->
  exists item : nat,
    item ∈ items_b /\
    (Z.of_nat item ∈ history_ids (user_h !!! b) \/
     forall j, j ∈ items -> norm_index (num_items self) j <> Some item).
Proof.
  intros Hdom Hitems Hemb H Hb Hk.
  destruct (topk_masked_rows self batch k user_h scores picked domain items
              Hdom Hitems Hemb H) as (query & ms & _ & _ & Htop & Hrows).
  destruct (torch_topk_rows _ _ _ _ _ Htop) as (Hls & Hlp & Hget).
  destruct (lookup_lt_is_Some_2 ms b) as [row Hrow].
  { rewrite <- Hlp. now apply lookup_lt_Some in Hb. }
  destruct (Hget b row Hrow) as (Hkr & Hpb & _).
  destruct (Hrows b row Hrow) as [Hlen Hfin].
  rewrite Hpb in Hb. inversion Hb; subst items_b; clear Hb.
  set (cands := imap (fun i s => (i, s)) row) in *.
  destruct (topk_row_split (Z.to_nat k) (ties b) cands) as (others & Hperm & Hl).
  assert (Hlc : length cands = num_items self)
    by (unfold cands; now rewrite length_imap).
  assert (Hcount : count_fin cands
                   = length (candidates (num_items self) items
                               (history_ids (user_h !!! b)))).
  { unfold cands. rewrite (count_fin_imap row (fun i => i)).
    unfold candidates.
    replace (seq 0 (num_items self)) with (seq 0 (length row))
      by now rewrite Hlen.
    apply count_filter_seq. intros i x Hx. now apply Hfin. }
  destruct (count_fin_all (topk_row (ties b) (Z.to_nat k) cands))
    as (c & Hc & Hcfin).
  { pose proof (count_fin_perm _ _ Hperm) as Hp.
    rewrite count_fin_app in Hp. lia. }
  exists (fst c). split.
  { apply list_elem_of_In, in_map, list_elem_of_In, Hc. }
  apply topk_row_elem in Hc. unfold cands in Hc.
  apply elem_of_lookup_imap in Hc as (i & y & -> & Hy).
  cbn [fst snd] in *. rewrite (Hfin i y Hy) in Hcfin.
  apply andb_false_iff in Hcfin as [Hd | Hh].
  - right. now apply in_domainb_false.
  - left. apply negb_false_iff in Hh. now apply in_historyb_true.
Qed.

(** X13: [topk] with its default [user_h=None] never returns: line 307
    indexes [user_h] before any score is ranked. *)
Theorem topk_without_history_raises
    (self : BaseModel) (batch : gmap string tensor) (k : Z) :
  exists e, topk self batch k None = raise e.
Proof.
  unfold Base.topk. destruct (forward self batch) as [e|query]; cbn; [eauto|].
  destruct (eval_domain self) as [d|]; cbn; [|eauto].
  destruct (domain_item_mapping self !! d) as [items|]; cbn; [|eauto].
  destruct (clear_mask _ items) as [e|dm]; cbn; eauto.
Qed.

End TopKShape.

Lemma topk_returns_k_distinct_items_best_first_witness :
  length [[Fin 1; Fin 0]; [Fin 1; Fin 1]] = length [[3; 2]; [3; 2]]%nat /\
  exists scores_b,
    [[Fin 1; Fin 0]; [Fin 1; Fin 1]] !! 1%nat = Some scores_b /\
    length [3; 2]%nat = 2%nat /\ NoDup [3; 2]%nat.
Proof.
  destruct (topk_returns_k_distinct_items_best_first
              Samples.sample_forward Samples.sample_ties
              Samples.sample_model Samples.sample_batch 2
              Samples.sample_user_h
              [[Fin 1; Fin 0]; [Fin 1; Fin 1]] [[3; 2]; [3; 2]]%nat
              "book" [1; 2; 3] eq_refl eq_refl eq_refl
              ltac:(vm_compute; reflexivity)) as [Hlen Hrows].
  split; [exact Hlen|].
  destruct (Hrows 1%nat [3; 2]%nat eq_refl)
    as (scores_b & Hs & _ & Hl & _ & Hnd & _).
  exists scores_b. repeat split; assumption.
Defined.

Lemma topk_returns_masked_item_when_k_too_large_witness :
  exists item : nat,
    item ∈ [3; 2; 4]%nat /\
    (Z.of_nat item ∈ history_ids (Samples.sample_user_h !!! 0%nat) \/
     forall j, j ∈ [1; 2; 3] -> norm_index 5 j <> Some item).
Proof.
  apply (topk_returns_masked_item_when_k_too_large Samples.sample_forward
           Samples.sample_ties
           Samples.sample_model Samples.sample_batch 3
           Samples.sample_user_h
           [[Fin 1; Fin 0; NegInf]; [Fin 1; Fin 1; Fin 0]]
           [[3; 2; 4]; [3; 2; 1]]%nat
           "book" [1; 2; 3] 0%nat [3; 2; 4]%nat).
  - reflexivity.
  - reflexivity.
  - reflexivity.
  - vm_compute. reflexivity.
  - reflexivity.
  - vm_compute. reflexivity.
Defined.

End TopKFacts.

(** ** BaseModel._test_step *)

Module EvalFacts.
Import Base Eval TopKFacts.

Lemma topk_row_fst_nodup (tie : nat -> nat) (k : nat) (row : list score) :
  NoDup (map fst (topk_row tie k (imap (fun i s => (i, s)) row))).
Proof.
  destruct (topk_row_split k tie (imap (fun i s => (i, s)) row))
    as (others & Hperm & _).
  assert (Hfst : map fst (topk_row tie k (imap (fun i s => (i, s)) row))
                   ++ map fst others ≡ₚ seq 0 (length row)).
  { rewrite <- map_app, Hperm.
    now rewrite (fst_imap_seq row (fun i => i)), map_id. }
  pose proof (NoDup_seq 0 (length row)) as Hnd.
  rewrite <- Hfst in Hnd. now apply NoDup_app in Hnd as [Hnd _].
Qed.

Lemma compare_one_hit (t : Z) (items : list nat) (j1 j2 : nat) :
  NoDup items ->
  map (fun i => Z.of_nat i =? t) items !! j1 = Some true ->
  map (fun i => Z.of_nat i =? t) items !! j2 = Some true ->
  j1 = j2.
Proof.
  intros Hnd H1 H2.
  apply lookup_map_Some in H1 as (i1 & Hi1 & He1).
  apply lookup_map_Some in H2 as (i2 & Hi2 & He2).
  symmetry in He1, He2. apply Z.eqb_eq in He1, He2.
  assert (i1 = i2) as -> by lia.
  exact (NoDup_lookup _ _ _ _ Hnd Hi1 Hi2).
Qed.

(** Every row of the hit matrix compares one target with one row of
    items; when there are as many targets as rows, row [b] compares
    target [b] with the items of row [b]. *)
Lemma eq_broadcast_rows (target : list Z) (items : list (list nat))
    (label : list (list bool)) :
  eq_broadcast target items = ok label ->
  (forall (b : nat) row, label !! b = Some row ->
     exists t items_b,
       t ∈ target /\ items_b ∈ items /\
       row = map (fun i => Z.of_nat i =? t) items_b) /\
  (length target = length items ->
   forall (b : nat) row, label !! b = Some row ->
     exists t items_b,
       target !! b = Some t /\ items !! b = Some items_b /\
       row = map (fun i => Z.of_nat i =? t) items_b).
Proof.
  unfold eq_broadcast. intros H.
  destruct (Nat.eqb_spec (length target) (length items)) as [Heq|Hne].
  - inversion H; subst label; clear H.
    assert (Hrow : forall (b : nat) row,
              zip_with (fun t r => map (fun i => Z.of_nat i =? t) r)
                target items !! b = Some row ->
              exists t items_b,
                target !! b = Some t /\ items !! b = Some items_b /\
                row = map (fun i => Z.of_nat i =? t) items_b).
    { intros b row Hb.
      apply lookup_zip_with_Some in Hb as (t & r & -> & Ht & Hr). eauto. }
    split; [|intros _; exact Hrow].
    intros b row Hb. destruct (Hrow b row Hb) as (t & r & Ht & Hr & ->).
    exists t, r. repeat split;
      eapply list_elem_of_lookup_2; eassumption.
  - split; [|intros Heq; contradiction].
    intros b row Hb.
    destruct target as [|t [|t' target]].
    + destruct items as [|r [|r' items]]; try discriminate H.
      inversion H; subst label. discriminate Hb.
    + inversion H; subst label; clear H.
      apply lookup_map_Some in Hb as (r & Hr & ->).
      exists t, r. repeat split.
      * apply elem_of_cons. now left.
      * eapply list_elem_of_lookup_2, Hr.
    + destruct items as [|r [|r' items]]; try discriminate H.
      inversion H; subst label; clear H.
      change (map (fun t => map (fun i => Z.of_nat i =? t) r)
                (t :: t' :: target) !! b = Some row) in Hb.
      apply lookup_map_Some in Hb as (t0 & Ht0 & ->).
      exists t0, r. repeat split.
      * eapply list_elem_of_lookup_2, Ht0.
      * apply elem_of_cons. now left.
Qed.

Lemma no_hit_count (row : list bool) :
  (forall j : nat, row !! j <> Some true) ->
  List.filter (fun x : bool => x) row = [].
Proof.
  induction row as [|x row IH]; intros H; [reflexivity|].
  destruct x; [now destruct (H 0%nat)|]. cbn. apply IH.
  intros j. apply (H (S j)).
Qed.

Lemma one_hit_count (row : list bool) :
  (forall j1 j2 : nat,
     row !! j1 = Some true -> row !! j2 = Some true -> j1 = j2) ->
  (length (List.filter (fun x : bool => x) row) <= 1)%nat.
Proof.
  induction row as [|x row IH]; intros H; [cbn; lia|].
  destruct x; cbn.
  - rewrite no_hit_count; [cbn; lia|].
    intros j Hj. specialize (H 0%nat (S j) eq_refl Hj). discriminate H.
  - apply IH. intros j1 j2 H1 H2.
    specialize (H (S j1) (S j2) H1 H2). now inversion H.
Qed.

(** The dictionary a comprehension fills: what is found under a key
    was put there by an entry, and every entry leaves its key bound. *)
Lemma filled_lookup {V} (entries : list (string * V)) :
  forall (d : gmap string V) key v,
    foldl (fun (d : gmap string V) (kv : string * V) =>
             <[fst kv := snd kv]> d) d entries !! key = Some v ->
    (key, v) ∈ entries \/ d !! key = Some v.
Proof.
  induction entries as [|[k0 v0] entries IH]; intros d key v H; cbn in H.
  - now right.
  - destruct (IH _ _ _ H) as [Hin | Hd].
    + left. apply elem_of_cons. now right.
    + destruct (decide (k0 = key)) as [-> | Hne].
      * rewrite lookup_insert_eq in Hd. inversion Hd; subst.
        left. apply elem_of_cons. now left.
      * rewrite lookup_insert_ne in Hd by exact Hne. now right.
Qed.

Lemma filled_keeps {V} (entries : list (string * V)) :
  forall (d : gmap string V) key,
    is_Some (d !! key) ->
    is_Some (foldl (fun (d : gmap string V) (kv : string * V) =>
                      <[fst kv := snd kv]> d) d entries !! key).
Proof.
  induction entries as [|[k0 v0] entries IH]; intros d key H; cbn;
    [exact H|].
  apply IH. destruct (decide (k0 = key)) as [-> | Hne].
  - rewrite lookup_insert_eq. eauto.
  - now rewrite lookup_insert_ne.
Qed.

Lemma filled_covers {V} (entries : list (string * V)) :
  forall (d : gmap string V) key v,
    (key, v) ∈ entries ->
    is_Some (foldl (fun (d : gmap string V) (kv : string * V) =>
                      <[fst kv := snd kv]> d) d entries !! key).
Proof.
  induction entries as [|[k0 v0] entries IH]; intros d key v H;
    [inversion H|].
  cbn. apply elem_of_cons in H as [Heq | Hin].
  - inversion Heq; subst. apply filled_keeps.
    rewrite lookup_insert_eq. eauto.
  - now apply (IH _ key v).
Qed.

Section Hits.
Variable forward : BaseModel -> gmap string tensor -> res (list (list Z)).
Variable ties : nat -> nat -> nat.
Context {V : Type}.
Variable rank_m : list (string * (list (list bool) -> list Z -> Z -> V)).

Local Abbreviation hits := (hits forward ties rank_m).
Local Abbreviation topk := (topk forward ties).

Lemma topk_picked_nodup (self : BaseModel) (batch : gmap string tensor)
    (k : Z) (user_h : option (list (list Z)))
    (scores : list (list score)) (picked : list (list nat)) :
  topk self batch k user_h = ok (scores, picked) ->
  Forall NoDup picked.
Proof.
  unfold Base.topk. intros H.
  destruct (forward self batch) as [e|query]; [discriminate H|].
  cbn [rbind] in H.
  destruct (eval_domain self) as [d|]; [|discriminate H].
  cbn [rbind ok] in H.
  destruct (domain_item_mapping self !! d) as [items|]; [|discriminate H].
  cbn [rbind ok] in H.
  destruct (clear_mask _ items) as [e|dm]; [discriminate H|].
  cbn [rbind ok] in H.
  destruct user_h as [h|]; [|discriminate H]. cbn [rbind ok] in H.
  destruct (scatter _ _) as [e|ms]; [discriminate H|]. cbn [rbind] in H.
  destruct (torch_topk_rows _ _ _ _ _ H) as (_ & Hlp & Hget).
  apply Forall_lookup_2. intros b items_b Hb.
  destruct (lookup_lt_is_Some_2 ms b) as [row Hrow].
  { rewrite <- Hlp. now apply lookup_lt_Some in Hb. }
  destruct (Hget b row Hrow) as (_ & Hpb & _).
  rewrite Hpb in Hb. inversion Hb. apply topk_row_fst_nodup.
Qed.

(** When [k] does not exceed the candidates of row [b], the items of
    that row are in the evaluation domain and not in the history. *)
Lemma topk_items_unmasked
    (self : BaseModel) (batch : gmap string tensor) (k : Z)
    (user_h : list (list Z))
    (scores : list (list score)) (picked : list (list nat))
    (domain : string) (items : list Z) (b : nat) (items_b : list nat) :
  eval_domain self = Some domain ->
  domain_item_mapping self !! domain = Some items ->
  length (item_embedding self) = num_items self ->
  topk self batch k (Some user_h) = ok (scores, picked) ->
  picked !! b = Some items_b ->
  k <= Z.of_nat (length (candidates (num_items self) items
                           (history_ids (user_h !!! b)))) ->
  forall item : nat, item ∈ items_b ->
    in_domainb (num_items self) items item = true /\
    in_historyb (history_ids (user_h !!! b)) item = false.
Proof.
  intros Hdom Hitems Hemb H Hb Hk item Hitem.
  destruct (topk_masked_rows forward ties self batch k user_h scores picked
              domain items Hdom Hitems Hemb H)
    as (query & ms & _ & _ & Htop & Hrows).
  destruct (torch_topk_rows _ _ _ _ _ Htop) as (_ & Hlp & Hget).
  destruct (lookup_lt_is_Some_2 ms b) as [row Hrow].
  { rewrite <- Hlp. now apply lookup_lt_Some in Hb. }
  destruct (Hget b row Hrow) as (_ & Hpb & _).
  destruct (Hrows b row Hrow) as [Hlen Hfin].
  rewrite Hpb in Hb. inversion Hb; subst items_b; clear Hb.
  assert (Hcount : count_fin (imap (fun i s => (i, s)) row)
                   = length (candidates (num_items self) items
                               (history_ids (user_h !!! b)))).
  { rewrite (count_fin_imap row (fun i => i)). unfold candidates.
    replace (seq 0 (num_items self)) with (seq 0 (length row))
      by now rewrite Hlen.
    apply count_filter_seq. intros i x Hx. now apply Hfin. }
  apply list_elem_of_In, in_map_iff in Hitem as (c & <- & Hc).
  apply list_elem_of_In in Hc.
  apply topk_row_finite in Hc as [Hin Hc]; [|rewrite Hcount; lia].
  apply elem_of_lookup_imap in Hin as (i & y & -> & Hy).
  cbn [fst snd] in *. rewrite (Hfin i y Hy) in Hc.
  apply andb_true_iff in Hc as [Hd Hh]. apply negb_true_iff in Hh.
  now split.
Qed.

(** What a successful [hits] has computed. *)
Lemma hits_inv (self : BaseModel) (batch : gmap string tensor)
    (label : list (list bool)) :
  hits self batch = ok label ->
  exists k h scores picked target,
    config_int (config self) "topk" = ok k /\
    batch !! "user_hist" = Some (T2 h) /\
    topk self batch k (Some h) = ok (scores, picked) /\
    batch !! "target_item" = Some target /\
    eq_broadcast (flatten target) picked = ok label.
Proof.
  unfold Eval.hits, batch_get. intros H.
  destruct (config_int (config self) "topk") as [e|k]; [discriminate H|].
  cbn [rbind] in H.
  destruct (batch !! "user_id") as [uid|]; [|discriminate H].
  cbn [rbind ok] in H.
  destruct (length rank_m =? 0)%nat; [discriminate H|].
  destruct (batch !! "user_hist") as [[v|h|c]|]; cbn [rbind ok] in H;
    try discriminate H.
  - destruct (forward self batch); discriminate H.
  - destruct (Base.topk forward ties self batch k (Some h))
      as [e|[scores picked]] eqn:Htop; [discriminate H|].
    cbn [rbind snd] in H.
    destruct (batch !! "target_item") as [target|]; [|discriminate H].
    cbn [rbind ok] in H. exists k, h, scores, picked, target. auto.
  - destruct (Base.topk forward ties self batch k (Some []));
      discriminate H.
Qed.

Lemma hits_one_per_row
    (self : BaseModel) (batch : gmap string tensor)
    (label : list (list bool)) :
  hits self batch = ok label ->
  Forall (fun row => (length (List.filter (fun x : bool => x) row) <= 1)%nat)
    label.
Proof.
  intros H. apply Forall_lookup_2. intros b row Hb.
  destruct (hits_inv self batch label H)
    as (k & h & scores & picked & target & _ & _ & Htop & _ & Heq).
  destruct (proj1 (eq_broadcast_rows _ _ _ Heq) b row Hb)
    as (t & items_b & _ & Hin & ->).
  pose proof (topk_picked_nodup self batch k (Some h) scores picked Htop)
    as Hnd.
  apply list_elem_of_lookup_1 in Hin as [i Hi].
  eapply Forall_lookup_1 in Hnd; [|exact Hi].
  apply one_hit_count. intros j1 j2.
  exact (compare_one_hit t items_b j1 j2 Hnd).
Qed.

(** X19: when [_test_step] returns, the batch size is
    [user_id.size(0)] and the hit matrix is the comparison of the
    targets with the items [topk] returned for the batch's history:
    every row compares one target with one row of distinct items and so
    has at most one hit.  Every value of the dictionary is a rank
    metric of the batch applied to that hit matrix, the labels and one
    of the cutoffs, under the key made of its name and the cutoff, and
    every metric at every cutoff has its key in the dictionary. *)
Theorem test_step_at_most_one_hit_per_row
    (self : BaseModel) (batch : gmap string tensor) (cutoffs : list Z)
    (out : gmap string V) (bs : nat) :
  _test_step forward ties rank_m self batch cutoffs = ok (out, bs) ->
  exists label pos_rating user_id k h scores picked target,
    batch !! "label" = Some pos_rating /\
    batch !! "user_id" = Some user_id /\ bs = size0 user_id /\
    config_int (config self) "topk" = ok k /\
    batch !! "user_hist" = Some (T2 h) /\
    batch !! "target_item" = Some target /\
    topk self batch k (Some h) = ok (scores, picked) /\
    eq_broadcast (flatten target) picked = ok label /\
    (forall (b : nat) row, label !! b = Some row ->
       exists t items_b,
         t ∈ flatten target /\ items_b ∈ picked /\ NoDup items_b /\
         row = map (fun i => Z.of_nat i =? t) items_b /\
         (length (List.filter (fun x : bool => x) row) <= 1)%nat) /\
    (forall key v, out !! key = Some v ->
       exists cutoff name func,
         cutoff ∈ cutoffs /\ (name, func) ∈ rank_m /\
         key = metric_key name cutoff /\
         v = func label (flatten pos_rating) cutoff) /\
    (forall cutoff name func,
       cutoff ∈ cutoffs -> (name, func) ∈ rank_m ->
       is_Some (out !! metric_key name cutoff)).
Proof.
  unfold _test_step, batch_get. intros H.
  destruct (Eval.hits forward ties rank_m self batch) as [e|label] eqn:Hhits;
    [discriminate H|]. cbn [rbind] in H.
  destruct (batch !! "label") as [pos|] eqn:Hpos; [|discriminate H].
  cbn [rbind ok] in H.
  destruct (batch !! "user_id") as [uid|] eqn:Huid; [|discriminate H].
  cbn [rbind ok] in H. inversion H; subst out bs; clear H.
  destruct (hits_inv self batch label Hhits)
    as (k & h & scores & picked & target & Hk & Hh & Htop & Ht & Heq).
  exists label, pos, uid, k, h, scores, picked, target.
  do 8 (split; [first [reflexivity | assumption]|]).
  split; [|split].
  - intros b row Hb.
    destruct (proj1 (eq_broadcast_rows _ _ _ Heq) b row Hb)
      as (t & items_b & Hin & Hitems & ->).
    pose proof (topk_picked_nodup self batch k (Some h) scores picked Htop)
      as Hnd.
    pose proof Hitems as Hi. apply list_elem_of_lookup_1 in Hi as [i Hi].
    eapply Forall_lookup_1 in Hnd; [|exact Hi].
    exists t, items_b. repeat split; try assumption.
    apply one_hit_count. intros j1 j2.
    exact (compare_one_hit t items_b j1 j2 Hnd).
  - intros key v Hkey. apply filled_lookup in Hkey as [Hin | Hempty];
      [|rewrite lookup_empty in Hempty; discriminate Hempty].
    apply list_elem_of_In, in_flat_map in Hin as (cutoff & Hc & Hin).
    apply in_map_iff in Hin as ([name func] & Heq' & Hnf).
    inversion Heq'; subst. exists cutoff, name, func.
    repeat split; now apply list_elem_of_In.
  - intros cutoff name func Hc Hnf.
    apply (filled_covers _ _ _ (func label (flatten pos) cutoff)).
    apply list_elem_of_In, in_flat_map. exists cutoff.
    split; [now apply list_elem_of_In|].
    apply in_map_iff. exists (name, func).
    split; [reflexivity | now apply list_elem_of_In].
Qed.

(** X20: when there is one target per query and [k] does not exceed the
    candidates of user [b], a target that the user has in the history,
    or that lies outside the evaluation domain, is never a hit: row
    [b] of the hit matrix is all false. *)
Theorem masked_target_is_never_a_hit
    (self : BaseModel) (batch : gmap string tensor)
    (label : list (list bool)) (h : list (list Z)) (target : tensor)
    (query : list (list Z)) (k : Z) (domain : string) (items : list Z)
    (b : nat) (t : Z) (row : list bool) :
  hits self batch = ok label ->
  batch !! "user_hist" = Some (T2 h) ->
  batch !! "target_item" = Some target ->
  forward self batch = ok query -> length query = length (flatten target) ->
  eval_domain self = Some domain ->
  domain_item_mapping self !! domain = Some items ->
  length (item_embedding self) = num_items self ->
  config_int (config self) "topk" = ok k ->
  k <= Z.of_nat (length (candidates (num_items self) items
                           (history_ids (h !!! b)))) ->
  flatten target !! b = Some t -> label !! b = Some row ->
  (t ∈ history_ids (h !!! b) \/
   forall (j : Z) (i : nat),
     j ∈ items -> norm_index (num_items self) j = Some i -> Z.of_nat i <> t) ->
  Forall (fun x => x = false) row.
Proof.
  intros H Hh Htarget Hq Hlen Hdom Hitems Hemb Hk Hcount Ht Hb Hmasked.
  destruct (hits_inv self batch label H)
    as (k' & h' & scores & picked & target' & Hk' & Hh' & Htop & Ht' & Heq).
  assert (k' = k) as -> by (rewrite Hk in Hk'; now inversion Hk').
  assert (h' = h) as -> by congruence.
  assert (target' = target) as -> by congruence.
  destruct (topk_masked_rows forward ties self batch k h scores picked
              domain items Hdom Hitems Hemb Htop)
    as (query' & ms & Hq' & Hlms & Htopk & _).
  assert (query' = query) as -> by (rewrite Hq in Hq'; now inversion Hq').
  destruct (torch_topk_rows _ _ _ _ _ Htopk) as (_ & Hlp & _).
  destruct (proj2 (eq_broadcast_rows _ _ _ Heq)) with (b := b) (row := row)
    as (t' & items_b & Htb & Hib & ->); [congruence | exact Hb |].
  assert (t' = t) as -> by congruence.
  apply Forall_lookup_2. intros j x Hj.
  apply lookup_map_Some in Hj as (item & Hitem & ->).
  apply Z.eqb_neq.
  destruct (topk_items_unmasked self batch k h scores picked domain items
              b items_b Hdom Hitems Hemb Htop Hib Hcount item)
    as [Hd Hhist]; [eapply list_elem_of_lookup_2, Hitem|].
  destruct Hmasked as [Hin | Hout].
  - intros <-. apply in_historyb_false in Hhist. contradiction.
  - apply in_domainb_true in Hd as (j0 & Hj0 & Hn). now apply (Hout j0 item).
Qed.

End Hits.

Lemma test_step_at_most_one_hit_per_row_witness :
  exists label pos_rating user_id k h scores picked target,
    ExtraSamples.eval_batch !! "label" = Some pos_rating /\
    ExtraSamples.eval_batch !! "user_id" = Some user_id /\
    2%nat = size0 user_id /\
    config_int (config Samples.sample_model) "topk" = ok k /\
    ExtraSamples.eval_batch !! "user_hist" = Some (T2 h) /\
    ExtraSamples.eval_batch !! "target_item" = Some target /\
    topk Samples.sample_forward Samples.sample_ties Samples.sample_model
      ExtraSamples.eval_batch k (Some h) = ok (scores, picked) /\
    eq_broadcast (flatten target) picked = ok label /\
    (forall (b : nat) row, label !! b = Some row ->
       exists t items_b,
         t ∈ flatten target /\ items_b ∈ picked /\ NoDup items_b /\
         row = map (fun i => Z.of_nat i =? t) items_b /\
         (length (List.filter (fun x : bool => x) row) <= 1)%nat) /\
    (forall key v, (<["hit@2" := 1]> ∅ : gmap string Z) !! key = Some v ->
       exists cutoff name func,
         cutoff ∈ [2] /\ (name, func) ∈ ExtraSamples.sample_rank_m /\
         key = metric_key name cutoff /\
         v = func label (flatten pos_rating) cutoff) /\
    (forall cutoff name func,
       cutoff ∈ [2] -> (name, func) ∈ ExtraSamples.sample_rank_m ->
       is_Some ((<["hit@2" := 1]> ∅ : gmap string Z)
                  !! metric_key name cutoff)).
Proof.
  apply (test_step_at_most_one_hit_per_row Samples.sample_forward
           Samples.sample_ties
           ExtraSamples.sample_rank_m Samples.sample_model
           ExtraSamples.eval_batch [2] (<["hit@2" := 1]> ∅) 2%nat).
  vm_compute. reflexivity.
Defined.

Lemma masked_target_is_never_a_hit_witness :
  Forall (fun x => x = false) [false; false].
Proof.
  apply (masked_target_is_never_a_hit Samples.sample_forward
           Samples.sample_ties
           ExtraSamples.sample_rank_m Samples.sample_model
           ExtraSamples.eval_batch [[true; false]; [false; false]]
           Samples.sample_user_h (T1 [3; 4]) [[1; 0]; [0; 1]] 2
           "book" [1; 2; 3] 1%nat 4).
  - vm_compute. reflexivity.
  - reflexivity.
  - reflexivity.
  - reflexivity.
  - reflexivity.
  - reflexivity.
  - reflexivity.
  - reflexivity.
  - reflexivity.
  - vm_compute. discriminate.
  - reflexivity.
  - reflexivity.
  - left. vm_compute. apply list_elem_of_In. cbn. tauto.
Defined.

End EvalFacts.

(** ** BaseModel.fit_loop *)

Module FitFacts.
Import Base.

Lemma epochs_done_snoc (tr : list call) (c : call) :
  epochs_done (tr ++ [c])
  = (epochs_done tr + if completes_epoch c then 1 else 0)%nat.
Proof.
  unfold epochs_done. rewrite List.filter_app, length_app. cbn.
  now destruct (completes_epoch c).
Qed.

Section Interrupted.
Variable k : nat.
Variable stop : list call -> nat -> bool.
Variable path : list call -> string.

Local Abbreviation env := (interrupt_at k stop path).

(** *** Rules for [careful] *)

Lemma careful_ret {A} (a : A) : careful k (mret a).
Proof. intros s Hs. exact Hs. Qed.

Lemma careful_get : careful k mget.
Proof. intros s Hs. exact Hs. Qed.

Lemma careful_bind {A B} (m : M FitState A) (f : A -> M FitState B) :
  careful k m -> (forall a, careful k (f a)) -> careful k (mbind' m f).
Proof.
  intros Hm Hf s Hs. unfold mbind'. specialize (Hm s Hs).
  destruct (m s) as [[e|a] s1]; [exact Hm|]. now apply Hf.
Qed.

Lemma careful_on_model (f : BaseModel -> BaseModel) :
  careful k (mmodify (on_model f)).
Proof. intros s Hs. exact Hs. Qed.

Lemma careful_read_nepoch : careful k read_nepoch.
Proof. intros s Hs. exact Hs. Qed.

Lemma careful_external {A} (ret : list call -> A) (c : A -> call) :
  (forall a, completes_epoch (c a) = false) ->
  careful k (external env ret c).
Proof.
  intros Hc s Hs. unfold external, interrupt_at, ok, raise. cbn [raised].
  destruct (clock s =? k)%nat eqn:Hk.
  - apply Nat.eqb_eq in Hk. repeat split; [now rewrite Hk | exact Hs].
  - unfold steady in *. cbn [nepoch trace].
    rewrite epochs_done_snoc, Hc. cbv iota. lia.
Qed.

Lemma careful_proc (c : call) :
  completes_epoch c = false -> careful k (proc env c).
Proof. intros Hc. apply careful_external. intros _. exact Hc. Qed.

Create HintDb careful.
#[local] Hint Resolve careful_ret careful_get careful_on_model
  careful_read_nepoch : careful.
#[local] Hint Extern 2 (careful _ (proc _ _)) =>
  apply careful_proc; reflexivity : careful.
#[local] Hint Extern 3 (careful _ (mbind' _ _)) =>
  apply careful_bind; [| intros ?] : careful.

Lemma careful_validate_domain (d : string) :
  careful k (validate_domain env d).
Proof. unfold validate_domain. auto 20 with careful. Qed.

Lemma careful_validate_domains (ds : list string) :
  careful k (validate_domains env ds).
Proof.
  induction ds as [|d ds IH]; cbn [validate_domains].
  - apply careful_ret.
  - apply careful_bind; [apply careful_validate_domain | intros _; exact IH].
Qed.

Lemma careful_callback_step : careful k (callback_step env).
Proof.
  intros s Hs. unfold callback_step, read_nepoch, mbind', mget, mret,
    mmodify, external, interrupt_at, ok, raise. cbn [raised stop_training].
  destruct (clock s =? k)%nat eqn:Hk.
  - apply Nat.eqb_eq in Hk. repeat split; [now rewrite Hk | exact Hs].
  - unfold steady in *. destruct (stop (trace s) (nepoch s));
      cbn [nepoch trace set_nepoch]; rewrite epochs_done_snoc;
      cbn [completes_epoch]; cbv iota; lia.
Qed.

Lemma careful_epoch_body : careful k (epoch_body env).
Proof.
  unfold epoch_body.
  do 12 (apply careful_bind;
          [first [ apply careful_proc; reflexivity
                 | apply careful_read_nepoch
                 | apply careful_get
                 | apply careful_validate_domains ]
          | intros ?]).
  apply careful_callback_step.
Qed.

Lemma careful_epoch_loop (n : nat) : careful k (epoch_loop env n).
Proof.
  induction n as [|n IH]; cbn [epoch_loop].
  - apply careful_ret.
  - apply careful_bind; [apply careful_epoch_body|].
    intros [|]; [apply careful_ret | exact IH].
Qed.

(** *** Saving the checkpoint *)

(** Lines 138-139 after the loop: either the checkpoint of the current
    epoch is saved and its path recorded, or the interrupt arrives. *)
Lemma save_and_record_outcome (s : FitState) :
  steady s ->
  match save_and_record env s with
  | (inr _, s') => checkpointed env s'
  | (inl e, s') => e = KeyboardInterrupt /\ clock s' = S k /\ steady s'
  end.
Proof.
  intros Hs. unfold save_and_record, read_nepoch, proc, mbind', mget, mret,
    mmodify, external, interrupt_at, ok, raise.
  cbn [raised checkpoint_path].
  destruct (clock s =? k)%nat eqn:Hk; cbn [clock].
  - apply Nat.eqb_eq in Hk. repeat split; [now rewrite Hk | exact Hs].
  - destruct (S (clock s) =? k)%nat eqn:Hk'.
    + apply Nat.eqb_eq in Hk'. repeat split; [now rewrite Hk'|].
      unfold steady in *. cbn [nepoch trace].
      rewrite epochs_done_snoc. cbn [completes_epoch]. cbv iota. lia.
    + exists (trace s). unfold checkpointed, on_model.
      cbn [nepoch trace model checkpoint_path set_ckpt_path ckpt_path].
      rewrite <- app_assoc. repeat split. exact Hs.
Qed.

(** Lines 142-143 in the handler: the interrupt has been delivered, so
    both calls complete. *)
Lemma save_and_record_handler (s : FitState) :
  clock s = S k ->
  save_and_record env s
  = (ok tt,
     mkFitState
       (set_ckpt_path
          (Some (path (trace s ++ [SaveCheckpoint (nepoch s)]))) (model s))
       (nepoch s) (S (S (clock s)))
       (trace s ++ [SaveCheckpoint (nepoch s);
                    GetCheckpointPath
                      (path (trace s ++ [SaveCheckpoint (nepoch s)]))])).
Proof.
  intros Hc.
  assert (H1 : (clock s =? k)%nat = false) by (apply Nat.eqb_neq; lia).
  assert (H2 : (S (clock s) =? k)%nat = false) by (apply Nat.eqb_neq; lia).
  unfold save_and_record, read_nepoch, proc, mbind', mget, mret,
    mmodify, external, interrupt_at, ok, raise, on_model.
  cbn [raised checkpoint_path]. rewrite H1. cbn [clock]. rewrite H2.
  cbn [model nepoch clock trace]. now rewrite <- app_assoc.
Qed.

Lemma try_body_outcome (s0 : FitState) (epochs : Z) :
  trace s0 = [] ->
  config (model s0) !! "epochs" = Some (CInt epochs) ->
  match try_body env s0 with
  | (inr _, s') => checkpointed env s'
  | (inl e, s') => e = KeyboardInterrupt /\ clock s' = S k /\ steady s'
  end.
Proof.
  intros Htr Hcfg.
  assert (Hrest : forall s, steady s ->
    match (let! _ := epoch_loop env (Z.to_nat epochs) in
           let! _ := proc env TrainingEnd in
           save_and_record env) s with
    | (inr _, s') => checkpointed env s'
    | (inl e, s') => e = KeyboardInterrupt /\ clock s' = S k /\ steady s'
    end).
  { intros s Hs. unfold mbind' at 1.
    pose proof (careful_epoch_loop (Z.to_nat epochs) s Hs) as Hl.
    destruct (epoch_loop env (Z.to_nat epochs) s) as [[e|[]] s1];
      [exact Hl|].
    unfold mbind'.
    pose proof (careful_proc TrainingEnd eq_refl s1 Hl) as Ht.
    destruct (proc env TrainingEnd s1) as [[e|[]] s2]; [exact Ht|].
    now apply save_and_record_outcome. }
  unfold try_body. unfold mbind' at 1. unfold mmodify at 1.
  unfold mbind' at 1.
  assert (H0 : steady (set_nepoch 0 s0)).
  { unfold steady. cbn. now rewrite Htr. }
  pose proof (careful_proc TrainStart eq_refl _ H0) as Hts.
  destruct (proc env TrainStart (set_nepoch 0 s0)) as [[e|[]] s1] eqn:Hp;
    [exact Hts|].
  assert (Hm : model s1 = model s0).
  { unfold proc, external in Hp. cbn in Hp.
    destruct (clock s0 =? k)%nat; inversion Hp; reflexivity. }
  rewrite mbind_mget, Hm. unfold config_int. rewrite Hcfg, mbind_mlift_ok.
  exact (Hrest s1 Hts).
Qed.

(** C5: a KeyboardInterrupt raised at any call of the [try] block, in
    particular anywhere in the training loop, does not leave
    [fit_loop]: the callback saves a checkpoint for the current epoch,
    its path is stored in [self.ckpt_path], and [fit_loop] returns
    normally. *)
Theorem fit_loop_saves_on_interrupt (s0 : FitState) (epochs : Z) :
  trace s0 = [] ->
  config (model s0) !! "epochs" = Some (CInt epochs) ->
  exists s',
    fit_loop env s0 = (ok tt, s') /\
    checkpointed env s' /\
    forall s1,
      try_body env s0 = (raise KeyboardInterrupt, s1) ->
      clock s1 = S k /\
      nepoch s1 = epochs_done (trace s1) /\
      nepoch s' = nepoch s1 /\
      trace s'
      = trace s1 ++ [SaveCheckpoint (nepoch s1);
                     GetCheckpointPath
                       (path (trace s1 ++ [SaveCheckpoint (nepoch s1)]))] /\
      ckpt_path (model s')
      = Some (path (trace s1 ++ [SaveCheckpoint (nepoch s1)])).
Proof.
  intros Htr Hcfg. pose proof (try_body_outcome s0 epochs Htr Hcfg) as Hb.
  unfold fit_loop.
  destruct (try_body env s0) as [[e|[]] s1] eqn:Htry.
  - destruct Hb as (-> & Hclock & Hsteady).
    rewrite (save_and_record_handler s1 Hclock).
    eexists. split; [reflexivity|]. split.
    + exists (trace s1). cbn. repeat split. exact Hsteady.
    + intros s1' Heq. inversion Heq; subst s1'. cbn. repeat split.
      * exact Hclock.
      * exact Hsteady.
  - exists s1. split; [reflexivity|]. split; [exact Hb|].
    intros s1' Heq. discriminate Heq.
Qed.

End Interrupted.

Lemma fit_loop_saves_on_interrupt_witness :
  let env := interrupt_at 21 Samples.never_stop Samples.fixed_path in
  exists s',
    fit_loop env Samples.fresh_run = (ok tt, s') /\
    checkpointed env s' /\
    forall s1,
      try_body env Samples.fresh_run = (raise KeyboardInterrupt, s1) ->
      clock s1 = 22%nat /\
      nepoch s1 = epochs_done (trace s1) /\
      nepoch s' = nepoch s1 /\
      trace s'
      = trace s1 ++ [SaveCheckpoint (nepoch s1);
                     GetCheckpointPath
                       (Samples.fixed_path
                          (trace s1 ++ [SaveCheckpoint (nepoch s1)]))] /\
      ckpt_path (model s')
      = Some (Samples.fixed_path (trace s1 ++ [SaveCheckpoint (nepoch s1)])).
Proof.
  apply (fit_loop_saves_on_interrupt 21 Samples.never_stop Samples.fixed_path
           Samples.fresh_run 2).
  - reflexivity.
  - reflexivity.
Defined.

(** Call 21 of the sample run is [training_epoch] of the second pass:
    interrupted there, the loop is left with [nepoch = 1] and that epoch
    is saved. *)
Example fit_loop_interrupted_in_second_epoch :
  let r := fit_loop (interrupt_at 21 Samples.never_stop Samples.fixed_path)
             Samples.fresh_run in
  fst (try_body (interrupt_at 21 Samples.never_stop Samples.fixed_path)
         Samples.fresh_run) = raise KeyboardInterrupt /\
  fst r = ok tt /\
  nepoch (snd r) = 1%nat /\
  ckpt_path (model (snd r)) = Some "saved/best.ckpt" /\
  drop 19 (trace (snd r))
  = [TimeTime; Train; SaveCheckpoint 1; GetCheckpointPath "saved/best.ckpt"].
Proof. vm_compute. repeat split. Qed.

(** Any other exception leaves [fit_loop]: the handler is for the
    keyboard interrupt only. *)
Example fit_loop_propagates_runtime_error :
  fst (fit_loop
         (mkEnv (fun t => if (t =? 3)%nat then Some RuntimeError else None)
            Samples.never_stop Samples.fixed_path)
         Samples.fresh_run)
  = raise RuntimeError.
Proof. vm_compute. reflexivity. Qed.

(** *** Any surroundings: when is the checkpoint path recorded *)

Section AnySurroundings.
Variable env : Env.

Lemma orderly_ret {A} (a : A) : orderly (mret a).
Proof. intros s Hs. now split. Qed.

Lemma orderly_get : orderly mget.
Proof. intros s Hs. now split. Qed.

Lemma orderly_lift {A} (r : res A) : orderly (mlift r).
Proof. intros s Hs. now split. Qed.

Lemma orderly_bind {A B} (m : M FitState A) (f : A -> M FitState B) :
  orderly m -> (forall a, orderly (f a)) -> orderly (mbind' m f).
Proof.
  intros Hm Hf s Hs. unfold mbind'. destruct (Hm s Hs) as [H1 H2].
  destruct (m s) as [[e|a] s1]; cbn [snd] in *; [now split|].
  destruct (Hf a s1 H1) as [H3 H4]. split; [exact H3 | congruence].
Qed.

Lemma orderly_set_eval_domain (d : string) :
  orderly (mmodify (on_model (set_eval_domain d))).
Proof. intros s Hs. now split. Qed.

Lemma orderly_read_nepoch : orderly read_nepoch.
Proof. intros s Hs. now split. Qed.

Lemma orderly_external {A} (ret : list call -> A) (c : A -> call) :
  (forall a, completes_epoch (c a) = false) ->
  orderly (external env ret c).
Proof.
  intros Hc s Hs. unfold external.
  destruct (raised env (clock s)); cbn [snd model]; [now split|].
  split; [|reflexivity]. unfold steady in *. cbn [nepoch trace].
  rewrite epochs_done_snoc, Hc. cbv iota. lia.
Qed.

Lemma orderly_proc (c : call) :
  completes_epoch c = false -> orderly (proc env c).
Proof. intros Hc. apply orderly_external. intros _. exact Hc. Qed.

Lemma orderly_validate_domain (d : string) :
  orderly (validate_domain env d).
Proof.
  unfold validate_domain.
  do 5 (apply orderly_bind;
         [first [ apply orderly_proc; reflexivity
                | apply orderly_read_nepoch
                | apply orderly_set_eval_domain ]
         | intros ?]).
  apply orderly_proc. reflexivity.
Qed.

Lemma orderly_validate_domains (ds : list string) :
  orderly (validate_domains env ds).
Proof.
  induction ds as [|d ds IH]; cbn [validate_domains].
  - apply orderly_ret.
  - apply orderly_bind; [apply orderly_validate_domain | intros _; exact IH].
Qed.

Lemma orderly_callback_step : orderly (callback_step env).
Proof.
  intros s Hs. unfold callback_step, read_nepoch, mbind', mget, mret,
    mmodify, external, ok, raise.
  destruct (raised env (clock s)); cbn [snd model]; [now split|].
  unfold steady in *.
  destruct (stop_training env (trace s) (nepoch s));
    cbn [snd model nepoch trace set_nepoch]; (split; [|reflexivity]);
    rewrite epochs_done_snoc; cbn [completes_epoch]; cbv iota; lia.
Qed.

Lemma orderly_epoch_body : orderly (epoch_body env).
Proof.
  unfold epoch_body.
  do 12 (apply orderly_bind;
          [first [ apply orderly_proc; reflexivity
                 | apply orderly_read_nepoch
                 | apply orderly_get
                 | apply orderly_validate_domains ]
          | intros ?]).
  apply orderly_callback_step.
Qed.

Lemma orderly_epoch_loop (n : nat) : orderly (epoch_loop env n).
Proof.
  induction n as [|n IH]; cbn [epoch_loop].
  - apply orderly_ret.
  - apply orderly_bind; [apply orderly_epoch_body|].
    intros [|]; [apply orderly_ret | exact IH].
Qed.

(** Lines 138-139 and 142-143 in any surroundings: the path is recorded
    exactly when both calls complete. *)
Lemma save_and_record_ends (s : FitState) :
  steady s ->
  match save_and_record env s with
  | (inr _, s') => checkpointed env s'
  | (inl _, s') => steady s' /\ ckpt_path (model s') = ckpt_path (model s)
  end.
Proof.
  intros Hs. unfold save_and_record, read_nepoch, proc, mbind', mget, mret,
    mmodify, external, ok, raise.
  destruct (raised env (clock s)); cbn [clock]; [now split|].
  destruct (raised env (S (clock s))).
  - split; [|reflexivity]. unfold steady in *. cbn [nepoch trace].
    rewrite epochs_done_snoc. cbn [completes_epoch]. cbv iota. lia.
  - exists (trace s). unfold checkpointed, on_model.
    cbn [nepoch trace model checkpoint_path set_ckpt_path ckpt_path].
    rewrite <- app_assoc. repeat split. exact Hs.
Qed.

Lemma try_body_ends (s0 : FitState) :
  trace s0 = [] ->
  match try_body env s0 with
  | (inr _, s') => checkpointed env s'
  | (inl _, s') => steady s' /\ ckpt_path (model s') = ckpt_path (model s0)
  end.
Proof.
  intros Htr.
  assert (Hpre : orderly
            (let! _ := proc env TrainStart in
             let! s := mget in
             let! epochs := mlift (config_int (config (model s)) "epochs") in
             let! _ := epoch_loop env (Z.to_nat epochs) in
             proc env TrainingEnd)).
  { apply orderly_bind; [apply orderly_proc; reflexivity | intros _].
    apply orderly_bind; [apply orderly_get | intros s].
    apply orderly_bind; [apply orderly_lift | intros epochs].
    apply orderly_bind; [apply orderly_epoch_loop | intros _].
    apply orderly_proc. reflexivity. }
  assert (H0 : steady (set_nepoch 0 s0)).
  { unfold steady. cbn. now rewrite Htr. }
  destruct (Hpre _ H0) as [Hst Hck].
  replace (try_body env s0)
    with (mbind'
            (let! _ := proc env TrainStart in
             let! s := mget in
             let! epochs := mlift (config_int (config (model s)) "epochs") in
             let! _ := epoch_loop env (Z.to_nat epochs) in
             proc env TrainingEnd)
            (fun _ => save_and_record env) (set_nepoch 0 s0)).
  - unfold mbind' at 1.
    destruct ((let! _ := proc env TrainStart in _) (set_nepoch 0 s0))
      as [[e|[]] s1]; cbn [snd] in Hst, Hck.
    + split; [exact Hst | exact Hck].
    + pose proof (save_and_record_ends s1 Hst) as Hsave.
      destruct (save_and_record env s1) as [[e|[]] s2].
      * destruct Hsave as [H1 H2]. split; [exact H1|].
        rewrite H2. exact Hck.
      * exact Hsave.
  - unfold try_body, mbind', mmodify, mget, mlift, ok.
    destruct (proc env TrainStart (set_nepoch 0 s0)) as [[e|[]] s1];
      [reflexivity|].
    destruct (config_int (config (model s1)) "epochs") as [e|epochs];
      [reflexivity|].
    destruct (epoch_loop env (Z.to_nat epochs) s1) as [[e|[]] s2];
      [reflexivity|].
    destruct (proc env TrainingEnd s2) as [[e|[]] s3]; reflexivity.
Qed.

Lemma fit_loop_ends (s0 : FitState) :
  trace s0 = [] ->
  match fit_loop env s0 with
  | (inr _, s') => checkpointed env s'
  | (inl _, s') => ckpt_path (model s') = ckpt_path (model s0)
  end.
Proof.
  intros Htr. pose proof (try_body_ends s0 Htr) as Hb. unfold fit_loop.
  destruct (try_body env s0) as [[e|[]] s1]; [|exact Hb].
  destruct Hb as [Hst Hck].
  assert (Hsave : match save_and_record env s1 with
                  | (inr _, s') => checkpointed env s'
                  | (inl _, s') =>
                      ckpt_path (model s') = ckpt_path (model s0)
                  end).
  { pose proof (save_and_record_ends s1 Hst) as Hsave.
    destruct (save_and_record env s1) as [[e'|[]] s2]; [|exact Hsave].
    destruct Hsave as [_ H2]. congruence. }
  destruct e; try exact Hck. exact Hsave.
Qed.

(** X14: in any surroundings, [fit_loop] on a fresh run records the
    checkpoint path exactly when it returns: a return means that the
    run ended with [save_checkpoint(nepoch)] for the number of completed
    passes and with [get_checkpoint_path()], whose result is stored in
    [self.ckpt_path]; an exception that leaves [fit_loop] finds
    [self.ckpt_path] as it was. *)
Theorem fit_loop_records_path_iff_it_returns (s0 : FitState) :
  trace s0 = [] ->
  match fit_loop env s0 with
  | (inr _, s') => checkpointed env s'
  | (inl _, s') => ckpt_path (model s') = ckpt_path (model s0)
  end.
Proof. exact (fit_loop_ends s0). Qed.

End AnySurroundings.

(** *** Undisturbed runs: how many passes are made *)

Section Undisturbed.
Variable stop : list call -> nat -> bool.
Variable path : list call -> string.

Local Abbreviation quiet_env := (undisturbed stop path).

Lemma still_ret {A} (a : A) : still (mret a).
Proof. intros s. now exists a, s. Qed.

Lemma still_get : still mget.
Proof. intros s. now exists s, s. Qed.

Lemma still_bind {A B} (m : M FitState A) (f : A -> M FitState B) :
  still m -> (forall a, still (f a)) -> still (mbind' m f).
Proof.
  intros Hm Hf s. destruct (Hm s) as (a & s1 & Hr & Hn).
  destruct (Hf a s1) as (b & s2 & Hr' & Hn').
  exists b, s2. unfold mbind'. rewrite Hr. split; [exact Hr' | congruence].
Qed.

Lemma still_on_model (f : BaseModel -> BaseModel) :
  still (mmodify (on_model f)).
Proof. intros s. now exists tt, (on_model f s). Qed.

Lemma still_read_nepoch : still read_nepoch.
Proof. intros s. now exists (nepoch s), s. Qed.

Lemma still_external {A} (ret : list call -> A) (c : A -> call) :
  still (external quiet_env ret c).
Proof. intros s. eexists _, _. split; reflexivity. Qed.

Lemma still_proc (c : call) : still (proc quiet_env c).
Proof. apply still_external. Qed.

Lemma still_validate_domains (ds : list string) :
  still (validate_domains quiet_env ds).
Proof.
  induction ds as [|d ds IH]; cbn [validate_domains].
  - apply still_ret.
  - apply still_bind; [|intros _; exact IH]. unfold validate_domain.
    do 5 (apply still_bind;
           [first [ apply still_proc | apply still_read_nepoch
                  | apply still_on_model ]
           | intros ?]).
    apply still_proc.
Qed.

Lemma still_save_and_record : still (save_and_record quiet_env).
Proof.
  unfold save_and_record.
  apply still_bind; [apply still_read_nepoch | intros n].
  apply still_bind; [apply still_proc | intros _].
  apply still_bind; [apply still_external | intros p].
  apply still_on_model.
Qed.

(** A step that leaves the counter alone, followed by one with a known
    effect on the counter. *)
Lemma still_then {A B} (m : M FitState A) (f : A -> M FitState B)
    (Q : nat -> res B * FitState -> Prop) :
  still m -> (forall a s, Q (nepoch s) (f a s)) ->
  forall s, Q (nepoch s) (mbind' m f s).
Proof.
  intros Hm Hf s. destruct (Hm s) as (a & s1 & Hr & Hn).
  unfold mbind'. rewrite Hr, <- Hn. apply Hf.
Qed.

Lemma callback_step_pass (s : FitState) :
  pass_made stop (nepoch s) (callback_step quiet_env s).
Proof.
  unfold pass_made, callback_step, read_nepoch, mbind', mget, mret, mmodify,
    external, undisturbed, ok. cbn [raised stop_training].
  destruct (stop (trace s) (nepoch s)) eqn:Hstop.
  - eexists true, _. split; [reflexivity|]. split; [reflexivity|].
    intros Hnever. rewrite Hnever in Hstop. discriminate Hstop.
  - eexists false, _. split; [reflexivity|]. split; reflexivity.
Qed.

Lemma epoch_body_pass (s : FitState) :
  pass_made stop (nepoch s) (epoch_body quiet_env s).
Proof.
  revert s. unfold epoch_body.
  do 12 (apply still_then;
          [first [ apply still_proc | apply still_read_nepoch
                 | apply still_get | apply still_validate_domains ]
          | intros ?]).
  apply callback_step_pass.
Qed.

Lemma epoch_loop_passes (epochs : nat) :
  forall s, exists s',
    epoch_loop quiet_env epochs s = (ok tt, s') /\
    (nepoch s <= nepoch s' <= nepoch s + epochs)%nat /\
    ((forall tr m, stop tr m = false) ->
     nepoch s' = (nepoch s + epochs)%nat).
Proof.
  induction epochs as [|epochs IH]; intros s; cbn [epoch_loop].
  - exists s. split; [reflexivity|]. split; lia.
  - destruct (epoch_body_pass s) as (b & s1 & Hr & Hn & Hnever).
    unfold mbind'. rewrite Hr. destruct b.
    + exists s1. split; [reflexivity|]. split; [lia|].
      intros H. specialize (Hnever H). discriminate Hnever.
    + destruct (IH s1) as (s2 & Hr2 & Hn2 & Hnever2).
      exists s2. split; [exact Hr2|]. split; [lia|].
      intros H. rewrite (Hnever2 H). lia.
Qed.

(** X15: when no call raises, [fit_loop] on a fresh run returns, having
    saved the checkpoint and recorded its path; it makes at most
    [config['epochs']] passes, and exactly that many when the callback
    never asks to stop. *)
Theorem fit_loop_runs_at_most_epochs (s0 : FitState) (epochs : Z) :
  trace s0 = [] ->
  config (model s0) !! "epochs" = Some (CInt epochs) ->
  exists s',
    fit_loop quiet_env s0 = (ok tt, s') /\
    checkpointed quiet_env s' /\
    (nepoch s' <= Z.to_nat epochs)%nat /\
    ((forall tr m, stop tr m = false) -> nepoch s' = Z.to_nat epochs).
Proof.
  intros Htr Hcfg.
  pose proof (fit_loop_ends quiet_env s0 Htr) as Hends.
  assert (Hrun : exists s',
    try_body quiet_env s0 = (ok tt, s') /\
    (nepoch s' <= Z.to_nat epochs)%nat /\
    ((forall tr m, stop tr m = false) -> nepoch s' = Z.to_nat epochs)).
  { unfold try_body.
    rewrite (mbind_run (mmodify (set_nepoch 0)) _ s0 (set_nepoch 0 s0) tt
               eq_refl).
    rewrite (mbind_run (proc quiet_env TrainStart) _ (set_nepoch 0 s0)
               (mkFitState (model s0) 0 (S (clock s0))
                  (trace s0 ++ [TrainStart])) tt eq_refl).
    rewrite mbind_mget. cbn [model]. unfold config_int. rewrite Hcfg.
    rewrite mbind_mlift_ok.
    match goal with
    | |- context [mbind' _ _ ?s] =>
        destruct (epoch_loop_passes (Z.to_nat epochs) s)
          as (s1 & Hr1 & Hn1 & Hnever1)
    end.
    cbn [nepoch set_nepoch] in Hn1, Hnever1.
    rewrite (mbind_run _ _ _ _ _ Hr1).
    destruct (still_bind (proc quiet_env TrainingEnd)
                (fun _ => save_and_record quiet_env)
                (still_proc TrainingEnd)
                (fun _ => still_save_and_record) s1)
      as ([] & s2 & Hr2 & Hn2).
    exists s2. split; [exact Hr2|]. rewrite Hn2. split; [lia|].
    intros H. rewrite (Hnever1 H). lia. }
  destruct Hrun as (s' & Hr & Hn & Hnever).
  exists s'. unfold fit_loop in *. rewrite Hr in *.
  repeat split; assumption.
Qed.

End Undisturbed.

Lemma fit_loop_records_path_iff_it_returns_witness :
  let env := mkEnv (fun t => if (t =? 3)%nat then Some RuntimeError else None)
               Samples.never_stop Samples.fixed_path in
  match fit_loop env Samples.fresh_run with
  | (inr _, s') => checkpointed env s'
  | (inl _, s') =>
      ckpt_path (model s') = ckpt_path (model Samples.fresh_run)
  end.
Proof.
  exact (fit_loop_records_path_iff_it_returns
           (mkEnv (fun t => if (t =? 3)%nat then Some RuntimeError else None)
              Samples.never_stop Samples.fixed_path)
           Samples.fresh_run eq_refl).
Defined.

Lemma fit_loop_runs_at_most_epochs_witness :
  exists s',
    fit_loop (undisturbed Samples.never_stop Samples.fixed_path)
      Samples.fresh_run = (ok tt, s') /\
    nepoch s' = 2%nat.
Proof.
  destruct (fit_loop_runs_at_most_epochs Samples.never_stop
              Samples.fixed_path Samples.fresh_run 2 eq_refl eq_refl)
    as (s' & Hr & _ & _ & Hn).
  exists s'. split; [exact Hr|]. apply Hn. reflexivity.
Defined.

End FitFacts.

(** ** MetaModel *)

Module MetaFacts.
Import Base Meta.

Section Sharing.
Variable default_weights : loc -> weights.
Variable normal_initialization : weights -> weights.
Variable update : nat -> loc -> weights -> weights.
Variable raised : nat -> option exn.

Local Abbreviation act := (act raised).
Local Abbreviation _register_sub_model :=
  (_register_sub_model default_weights raised).
Local Abbreviation sub_init_model :=
  (sub_init_model normal_initialization raised).
Local Abbreviation _init_model :=
  (_init_model default_weights normal_initialization raised).
Local Abbreviation _outter_loop :=
  (_outter_loop default_weights normal_initialization update raised).
Local Abbreviation training_batch :=
  (training_batch default_weights normal_initialization update raised).
Local Abbreviation training_epoch :=
  (training_epoch default_weights normal_initialization update raised).

(** *** Rules for [keeps_refs] *)

Lemma keeps_ret {A} (a : A) : keeps_refs (mret a).
Proof. intros w. now split. Qed.

Lemma keeps_raise {A} (e : exn) : keeps_refs (mraise (A := A) e).
Proof. intros w. now split. Qed.

Lemma keeps_get : keeps_refs mget.
Proof. intros w. now split. Qed.

Lemma keeps_lift {A} (r : res A) : keeps_refs (mlift r).
Proof. intros w. now split. Qed.

Lemma keeps_bind {A B} (m : M World A) (f : A -> M World B) :
  keeps_refs m -> (forall a, keeps_refs (f a)) -> keeps_refs (mbind' m f).
Proof.
  intros Hm Hf w. unfold mbind'. specialize (Hm w).
  destruct (m w) as [[e|a] w1]; [exact Hm|].
  cbn in Hm. destruct (Hf a w1) as [H1 H2]. destruct Hm as [H3 H4].
  split; congruence.
Qed.

Lemma keeps_act (c : mcall) (effect : World -> World) :
  (forall w, item_embedding (self (effect w)) = item_embedding (self w) /\
             sub_model (self (effect w)) = sub_model (self w)) ->
  keeps_refs (act c effect).
Proof.
  intros He w. unfold Meta.act. destruct (raised (clock w)); cbn;
    [now split | apply He].
Qed.

Lemma keeps_on_self (f : MetaModel -> MetaModel) :
  (forall m, item_embedding (f m) = item_embedding m /\
             sub_model (f m) = sub_model m) ->
  keeps_refs (mmodify (on_self f)).
Proof. intros Hf w. cbn. apply Hf. Qed.

Lemma keeps_register : keeps_refs _register_sub_model.
Proof.
  intros w. unfold Meta._register_sub_model.
  destruct (raised (clock w)); now split.
Qed.

Create HintDb keeps.
#[local] Hint Resolve keeps_ret keeps_raise keeps_get keeps_lift
  keeps_register : keeps.
#[local] Hint Extern 2 (keeps_refs (Meta.act _ _ _)) =>
  apply keeps_act; intros ?; split; reflexivity : keeps.
#[local] Hint Extern 2 (keeps_refs (mmodify (on_self _))) =>
  apply keeps_on_self; intros ?; split; reflexivity : keeps.
#[local] Hint Extern 3 (keeps_refs (mbind' _ _)) =>
  apply keeps_bind; [| intros ?] : keeps.
#[local] Hint Extern 4 (keeps_refs (match ?x with _ => _ end)) =>
  destruct x : keeps.
#[local] Hint Extern 4 (keeps_refs (if ?x then _ else _)) =>
  destruct x : keeps.

Lemma keeps_sub_init (m : SubModel) : keeps_refs (sub_init_model m).
Proof. unfold Meta.sub_init_model. auto with keeps. Qed.

Lemma keeps_optimizer_step (m : SubModel) :
  keeps_refs (optimizer_step update raised m).
Proof.
  unfold optimizer_step. destruct (sub_optimizer m) as [ps|];
    [|apply keeps_raise].
  intros w.
  apply (keeps_act (OptimizerStep (sub_id m))
           (on_store (update_all (update (clock w)) ps))
           (fun _ => conj eq_refl eq_refl) w).
Qed.

Lemma keeps_meta_step (v t : loss) (a p : list loc) :
  keeps_refs (meta_optimizer_step update raised v t a p).
Proof.
  intros w. unfold meta_optimizer_step.
  destruct (meta_optimizer (self w)) as [ps|]; [|now split].
  apply (keeps_act (MetaOptimizerStep v t a p)
           (on_store (update_all (update (clock w)) ps))
           (fun _ => conj eq_refl eq_refl) w).
Qed.

Lemma keeps_prepare (b : batch) : keeps_refs (prepare raised b).
Proof. unfold prepare. auto with keeps. Qed.

Lemma keeps_training_step (b : batch) (m : SubModel) :
  keeps_refs (training_step raised b m).
Proof. unfold training_step. auto with keeps. Qed.

Lemma keeps_sub_training_step (b : batch) (m : SubModel) :
  keeps_refs (sub_training_step raised b m).
Proof. unfold sub_training_step. auto with keeps. Qed.

Lemma keeps_get_loader : keeps_refs (get_loader raised).
Proof. unfold get_loader. auto with keeps. Qed.

Lemma keeps_the_sub_model : keeps_refs the_sub_model.
Proof.
  unfold the_sub_model. apply keeps_bind; [apply keeps_get|].
  intros w. destruct (sub_model (self w)); auto with keeps.
Qed.

Lemma keeps_load_state (dst src : SubModel) :
  keeps_refs (load_state_from raised dst src).
Proof. unfold load_state_from. auto with keeps. Qed.

#[local] Hint Resolve keeps_sub_init keeps_optimizer_step keeps_meta_step
  keeps_prepare keeps_training_step keeps_sub_training_step keeps_get_loader
  keeps_the_sub_model keeps_load_state : keeps.

Lemma keeps_inner_loop (ds : Z) (proxy : SubModel) (loader : list batch) :
  forall idx, keeps_refs (inner_loop update raised ds proxy idx loader).
Proof.
  induction loader as [|b loader IH]; intros idx; cbn [inner_loop].
  - apply keeps_ret.
  - destruct (idx >=? ds); [apply keeps_ret|].
    do 5 (apply keeps_bind; [auto with keeps | intros ?]).
    apply IH.
Qed.

Lemma keeps_next_meta_batch : keeps_refs (next_meta_batch raised).
Proof.
  unfold next_meta_batch. apply keeps_bind; [apply keeps_get|].
  intros w. destruct (metaloader_iter (self w)) as [[|b rest]|];
    auto 10 with keeps.
Qed.

#[local] Hint Resolve keeps_inner_loop keeps_next_meta_batch : keeps.

Lemma keeps_outter_loop : keeps_refs _outter_loop.
Proof.
  unfold Meta._outter_loop.
  do 3 (apply keeps_bind; [auto with keeps | intros ?]).
  match goal with |- keeps_refs (if ?c then _ else _) => destruct c end;
    [apply keeps_raise|].
  do 9 (apply keeps_bind; [auto with keeps | intros ?]).
  apply keeps_bind;
    [match goal with
     | |- keeps_refs (match ?l with _ => _ end) => destruct l
     end; auto with keeps
    | intros ?].
  do 4 (apply keeps_bind; [auto with keeps | intros ?]).
  apply keeps_meta_step.
Qed.

Lemma keeps_training_batch (nepoch : Z) (b : batch) :
  keeps_refs (training_batch nepoch b).
Proof.
  unfold Meta.training_batch.
  do 11 (apply keeps_bind; [auto with keeps | intros ?]).
  apply keeps_bind; [|intros ?; apply keeps_ret].
  repeat match goal with
         | |- keeps_refs (if ?c then _ else _) => destruct c
         end; auto with keeps.
  apply keeps_bind; [auto with keeps | intros ?].
  match goal with
  | |- keeps_refs (if ?c then _ else _) => destruct c
  end; [apply keeps_outter_loop | apply keeps_ret].
Qed.

Lemma keeps_training_batches (nepoch : Z) (loader : list batch) :
  keeps_refs (training_batches default_weights normal_initialization update
                raised nepoch loader).
Proof.
  induction loader as [|b loader IH]; cbn [training_batches].
  - apply keeps_ret.
  - apply keeps_bind; [apply keeps_training_batch | intros l].
    apply keeps_bind; [exact IH | intros ls; apply keeps_ret].
Qed.

Lemma keeps_training_epoch (nepoch : Z) : keeps_refs (training_epoch nepoch).
Proof.
  unfold Meta.training_epoch.
  apply keeps_bind; [apply keeps_get_loader | intros loader].
  apply keeps_training_batches.
Qed.

Lemma keeps_shares {A} (m : M World A) (w : World) :
  keeps_refs m -> shares_embedding w -> shares_embedding (snd (m w)).
Proof.
  intros Hm (sm & l & Hsub & Hl & Hemb). destruct (Hm w) as [He Hs].
  exists sm, l. repeat split; congruence.
Qed.

Lemma register_ok (w w1 : World) (m : SubModel) :
  _register_sub_model w = (ok m, w1) ->
  sub_item_embedding m = Some (fresh w).
Proof.
  unfold Meta._register_sub_model. destruct (raised (clock w)); intros H;
    inversion H. reflexivity.
Qed.

Lemma sub_init_ok (m m' : SubModel) (w w1 : World) :
  sub_init_model m w = (ok m', w1) ->
  sub_item_embedding m' = sub_item_embedding m.
Proof.
  unfold Meta.sub_init_model. intros H.
  apply mbind_ok_inv in H as ([] & w2 & _ & H). inversion H. reflexivity.
Qed.

(** C6: after [_init_model] has run, the MetaModel and its sub-model
    refer to the same embedding object, so the weights read through one
    are those read through the other and a write through one is seen
    through the other; a training step, an outer-loop step and a whole
    training epoch leave this sharing in place, however they end. *)
Theorem init_model_shares_item_embedding (w w' : World) :
  _init_model w = (ok tt, w') ->
  shares_embedding w' /\
  read_meta_embedding w' = read_sub_embedding w' /\
  (forall v,
     read_meta_embedding (write_sub_embedding v w') = Some v /\
     read_sub_embedding (write_meta_embedding v w') = Some v) /\
  (forall w1, shares_embedding w1 ->
     (forall nepoch b, shares_embedding (snd (training_batch nepoch b w1))) /\
     shares_embedding (snd (_outter_loop w1)) /\
     (forall nepoch, shares_embedding (snd (training_epoch nepoch w1)))).
Proof.
  intros H.
  assert (Hshare : shares_embedding w').
  { unfold Meta._init_model in H.
    apply mbind_ok_inv in H as (m & w1 & Hreg & H).
    apply mbind_ok_inv in H as ([] & w2 & Hset1 & H).
    apply mbind_ok_inv in H as (m' & w3 & Hinit & H).
    apply mbind_ok_inv in H as ([] & w4 & Hset2 & H).
    apply mbind_ok_inv in H as ([] & w5 & Hset3 & H).
    apply register_ok in Hreg. apply sub_init_ok in Hinit.
    inversion Hset2; subst w4. inversion Hset3; subst w5.
    match type of H with
    | ?tail _ = _ =>
        assert (Hk : keeps_refs tail)
    end.
    { do 4 (apply keeps_bind; [auto with keeps | intros ?]).
      auto with keeps. }
    match type of H with
    | ?tail ?w0 = _ => pose proof (keeps_shares tail w0 Hk) as Hs
    end.
    rewrite H in Hs. apply Hs.
    exists m', (fresh w). unfold on_self, set_item_embedding, set_sub_model.
    cbn. repeat split; rewrite ?Hinit, ?Hreg; reflexivity. }
  split; [exact Hshare|].
  destruct Hshare as (sm & l & Hsub & Hl & Hemb).
  split; [|split].
  - unfold read_meta_embedding, read_sub_embedding.
    rewrite Hemb, Hsub. cbn. now rewrite Hl.
  - intros v. unfold read_meta_embedding, read_sub_embedding,
      write_sub_embedding, write_meta_embedding.
    rewrite Hsub, Hemb. cbn. rewrite Hl. cbn. rewrite Hsub, Hemb. cbn.
    rewrite Hl. cbn. now rewrite lookup_insert_eq.
  - intros w1 Hw1. repeat split; intros.
    + apply keeps_shares; [apply keeps_training_batch | exact Hw1].
    + apply keeps_shares; [apply keeps_outter_loop | exact Hw1].
    + apply keeps_shares; [apply keeps_training_epoch | exact Hw1].
Qed.

End Sharing.

(** *** The outer loop when no call raises *)

Section OuterLoop.
Variable default_weights : loc -> weights.
Variable normal_initialization : weights -> weights.
Variable update : nat -> loc -> weights -> weights.

Local Abbreviation _outter_loop :=
  (_outter_loop default_weights normal_initialization update quiet).

Lemma update_all_frame (f : loc -> weights -> weights) (ps : list loc)
    (st : gmap loc weights) (l : loc) :
  l ∉ ps -> update_all f ps st !! l = st !! l.
Proof.
  unfold update_all. induction ps as [|p ps IH]; intros Hl; cbn;
    [reflexivity|].
  apply not_elem_of_cons in Hl as [Hne Hl].
  rewrite lookup_alter_ne by congruence. now apply IH.
Qed.

Lemma copy_state_frame (dst src : list loc) (st : gmap loc weights)
    (l : loc) :
  l ∉ dst -> copy_state dst src st !! l = st !! l.
Proof.
  unfold copy_state. revert src.
  induction dst as [|d dst IH]; intros [|s0 src] Hl; cbn; try reflexivity.
  apply not_elem_of_cons in Hl as [Hne Hl].
  destruct (foldr _ st (zip dst src) !! s0) eqn:Hs.
  - rewrite lookup_insert_ne by congruence. now apply IH.
  - now apply IH.
Qed.

Lemma inner_loop_quiet (ds : Z) (proxy : SubModel) (ps : list loc)
    (loader : list batch) :
  sub_optimizer proxy = Some ps ->
  forall (idx : Z) (w : World),
    exists w',
      inner_loop update quiet ds proxy idx loader w = (ok tt, w') /\
      calls w'
      = calls w ++ concat (map (inner_calls (sub_id proxy))
                             (take (Z.to_nat (ds - idx)) loader)) /\
      fresh w' = fresh w /\
      self w' = self w /\
      forall l, l ∉ ps -> store w' !! l = store w !! l.
Proof.
  intros Hopt. induction loader as [|b loader IH]; intros idx w.
  - exists w. cbn. rewrite take_nil. cbn. rewrite app_nil_r. auto.
  - cbn [inner_loop]. destruct (Z.geb_spec idx ds) as [Hge | Hlt].
    + exists w. replace (Z.to_nat (ds - idx)) with 0%nat by lia.
      cbn. rewrite app_nil_r. auto.
    + unfold prepare, training_step, optimizer_step. rewrite Hopt.
      unfold mbind', mret, act, quiet, on_store, ok, raise.
      cbv beta iota zeta. cbn [store fresh self clock calls].
      match goal with
      | |- exists w', inner_loop _ _ _ _ _ _ ?w1 = _ /\ _ =>
          destruct (IH (idx + 1) w1)
            as (w' & Hrun & Hcalls & Hfresh & Hself & Hst)
      end.
      exists w'. split; [exact Hrun|]. cbn [store fresh self clock calls] in *.
      split; [|split; [exact Hfresh | split; [exact Hself|]]].
      * rewrite Hcalls.
        replace (Z.to_nat (ds - idx)) with (S (Z.to_nat (ds - (idx + 1))))
          by lia.
        cbn [take map concat]. unfold inner_calls at 2.
        rewrite <- !app_assoc. reflexivity.
      * intros l Hl. rewrite (Hst l Hl). now apply update_all_frame.
Qed.

(** Symbolic execution of the single calls. *)

Lemma get_loader_quiet (w : World) :
  get_loader quiet w
  = (ok (train_batches (self w)),
     mkWorld (store w) (fresh w) (self w) (S (clock w))
       (calls w ++ [GetLoader])).
Proof. reflexivity. Qed.

Lemma register_quiet (w : World) :
  Meta._register_sub_model default_weights quiet w
  = (ok (mkSubModel (fresh w) (Some (fresh w)) [S (fresh w)] None),
     mkWorld (<[fresh w := default_weights (fresh w)]>
                (<[S (fresh w) := default_weights (S (fresh w))]> (store w)))
       (S (S (fresh w))) (self w) (S (clock w))
       (calls w ++ [RegisterSubModel (fresh w)])).
Proof. reflexivity. Qed.

Lemma sub_init_quiet (m : SubModel) (w : World) :
  Meta.sub_init_model normal_initialization quiet m w
  = (ok (mkSubModel (sub_id m) (sub_item_embedding m) (sub_encoder m)
           (Some (sub_parameters m))),
     mkWorld
       (update_all (fun _ => normal_initialization) (sub_parameters m)
          (store w))
       (fresh w) (self w) (S (clock w)) (calls w ++ [InitSubModel (sub_id m)])).
Proof. reflexivity. Qed.

Lemma the_sub_model_run (w : World) (sub : SubModel) :
  sub_model (self w) = Some sub -> the_sub_model w = (ok sub, w).
Proof. unfold the_sub_model. rewrite mbind_mget. now intros ->. Qed.

Lemma load_state_quiet (dst src : SubModel) (w : World) :
  load_state_from quiet dst src w
  = (ok tt,
     mkWorld (copy_state (sub_parameters dst) (sub_parameters src) (store w))
       (fresh w) (self w) (S (clock w))
       (calls w ++ [LoadStateDict (sub_id dst) (sub_id src)])).
Proof. reflexivity. Qed.

Lemma prepare_quiet (b : batch) (w : World) :
  prepare quiet b w
  = (ok b, mkWorld (store w) (fresh w) (self w) (S (clock w))
             (calls w ++ [NegSampling b])).
Proof. reflexivity. Qed.

Lemma training_step_quiet (b : batch) (m : SubModel) (w : World) :
  training_step quiet b m w
  = (ok (mkLoss b (sub_id m)),
     mkWorld (store w) (fresh w) (self w) (S (clock w))
       (calls w ++ [TrainingStep b (sub_id m)])).
Proof. reflexivity. Qed.

Lemma meta_step_quiet (v t : loss) (aux ps mo : list loc) (w : World) :
  meta_optimizer (self w) = Some mo ->
  meta_optimizer_step update quiet v t aux ps w
  = (ok tt,
     mkWorld (update_all (update (clock w)) mo (store w)) (fresh w) (self w)
       (S (clock w)) (calls w ++ [MetaOptimizerStep v t aux ps])).
Proof. unfold meta_optimizer_step. now intros ->. Qed.

(** The next batch of the meta loader: the head of what the iterator
    still holds, or of a new pass over the loader. *)
Lemma next_meta_batch_quiet (w : World) (it : list batch) (mb : batch) :
  metaloader_iter (self w) = Some it ->
  head (it ++ train_batches (self w)) = Some mb ->
  exists w',
    next_meta_batch quiet w = (ok mb, w') /\
    calls w' = calls w ++ (if is_nil it then [GetLoader] else []) /\
    store w' = store w /\ fresh w' = fresh w /\
    train_batches (self w') = train_batches (self w) /\
    sub_model (self w') = sub_model (self w) /\
    meta_module (self w') = meta_module (self w) /\
    meta_optimizer (self w') = meta_optimizer (self w).
Proof.
  intros Hit Hmb. unfold next_meta_batch. rewrite mbind_mget, Hit.
  destruct it as [|b rest]; cbn in Hmb.
  - rewrite (mbind_run _ _ _ _ _ (get_loader_quiet w)).
    destruct (train_batches (self w)) as [|b rest] eqn:Hl;
      [discriminate Hmb|].
    inversion Hmb; subst b. eexists. split; [reflexivity|].
    cbn. repeat split; auto.
  - inversion Hmb; subst b. eexists. split; [reflexivity|].
    cbn. rewrite app_nil_r. repeat split.
Qed.

Lemma steps_of_app (id : nat) (cs cs' : list mcall) :
  steps_of id (cs ++ cs') = (steps_of id cs + steps_of id cs')%nat.
Proof. unfold steps_of. now rewrite List.filter_app, length_app. Qed.

Lemma steps_of_inner (id proxy : nat) (inner : list batch) :
  steps_of id (concat (map (inner_calls proxy) inner))
  = if (proxy =? id)%nat then length inner else 0%nat.
Proof.
  induction inner as [|b inner IH]; cbn [map concat].
  - now destruct (proxy =? id)%nat.
  - rewrite steps_of_app, IH. unfold steps_of. cbn.
    destruct (proxy =? id)%nat; reflexivity.
Qed.

Lemma steps_of_outer (id proxy : nat) (sub : SubModel) (inner : list batch)
    (refill : bool) (mb tb : batch) (aux : list loc) :
  steps_of id (GetLoader :: outer_calls proxy sub inner refill mb tb aux)
  = if (proxy =? id)%nat then length inner else 0%nat.
Proof.
  unfold outer_calls.
  change (GetLoader :: ?l) with ([GetLoader] ++ l).
  rewrite !steps_of_app, steps_of_inner.
  unfold steps_of. destruct refill; cbn; lia.
Qed.

Lemma meta_steps_outer (proxy : nat) (sub : SubModel) (inner : list batch)
    (refill : bool) (mb tb : batch) (aux : list loc) :
  length (List.filter is_meta_step
            (GetLoader :: outer_calls proxy sub inner refill mb tb aux))
  = 1%nat.
Proof.
  unfold outer_calls. cbn [List.filter is_meta_step app].
  rewrite !List.filter_app, !length_app.
  assert (Hin : List.filter is_meta_step
                  (concat (map (inner_calls proxy) inner)) = []).
  { induction inner as [|b inner IH]; [reflexivity|].
    cbn [map concat]. rewrite List.filter_app, IH. reflexivity. }
  rewrite Hin. destruct refill; reflexivity.
Qed.

(** The outer loop when no call raises: what it calls, in which order,
    and what it leaves alone. *)
Lemma outter_loop_quiet_run (w : World) (ds : Z) (sub : SubModel)
    (mo : list loc) (it : list batch) :
  train_config (meta_config (self w)) "descent_step" = ok ds ->
  0 <= ds < Z.of_nat (length (train_batches (self w))) ->
  sub_model (self w) = Some sub ->
  (sub_id sub < fresh w)%nat ->
  meta_optimizer (self w) = Some mo ->
  metaloader_iter (self w) = Some it ->
  exists w' mb tb new,
    _outter_loop w = (ok tt, w') /\
    head (it ++ train_batches (self w)) = Some mb /\
    head (train_batches (self w)) = Some tb /\
    calls w' = calls w ++ new /\
    new = GetLoader
          :: outer_calls (fresh w) sub
               (take (Z.to_nat ds) (train_batches (self w)))
               (is_nil it) mb tb (meta_module (self w)) /\
    steps_of (fresh w) new = Z.to_nat ds /\
    steps_of (sub_id sub) new = 0%nat /\
    length (List.filter is_meta_step new) = 1%nat /\
    forall l : loc,
      (l < fresh w)%nat -> l ∉ mo -> store w' !! l = store w !! l.
Proof.
  intros Hds Hrange Hsub Hid Hmo Hit.
  destruct (train_batches (self w)) as [|tb rest] eqn:Hloader;
    [cbn in Hrange; lia|].
  assert (Hmb : exists mb, head (it ++ tb :: rest) = Some mb).
  { destruct it as [|b it']; cbn; eauto. }
  destruct Hmb as [mb Hmb].
  set (proxy := mkSubModel (fresh w) (Some (fresh w)) [S (fresh w)]
                  (Some [fresh w; S (fresh w)])).
  set (w4 :=
    mkWorld
      (copy_state [fresh w; S (fresh w)] (sub_parameters sub)
         (update_all (fun _ => normal_initialization) [fresh w; S (fresh w)]
            (<[fresh w := default_weights (fresh w)]>
               (<[S (fresh w) := default_weights (S (fresh w))]> (store w)))))
      (S (S (fresh w))) (self w) (S (S (S (S (clock w)))))
      ((((calls w ++ [GetLoader]) ++ [RegisterSubModel (fresh w)])
          ++ [InitSubModel (fresh w)])
         ++ [LoadStateDict (fresh w) (sub_id sub)])).
  destruct (inner_loop_quiet ds proxy [fresh w; S (fresh w)] (tb :: rest)
              eq_refl 0 w4) as (w5 & Hrun5 & Hcalls5 & Hfresh5 & Hself5 & Hst5).
  destruct (next_meta_batch_quiet w5 it mb)
    as (w6 & Hrun6 & Hcalls6 & Hst6 & Hfresh6 & Hb6 & Hsub6 & Hmm6 & Hmo6).
  { rewrite Hself5. exact Hit. }
  { rewrite Hself5. cbn [self w4]. rewrite Hloader. exact Hmb. }
  rewrite Hself5 in Hb6, Hsub6, Hmm6, Hmo6. cbn [self w4] in Hb6, Hsub6, Hmm6, Hmo6.
  eexists _, mb, tb,
    (GetLoader
     :: outer_calls (fresh w) sub (take (Z.to_nat ds) (tb :: rest))
          (is_nil it) mb tb (meta_module (self w))).
  split.
  { unfold Meta._outter_loop.
    rewrite (mbind_run _ _ _ _ _ (get_loader_quiet w)).
    rewrite mbind_mget. cbn [self]. rewrite Hds, mbind_mlift_ok, Hloader.
    replace (negb (ds <? Z.of_nat (length (tb :: rest)))) with false
      by (symmetry; apply negb_false_iff, Z.ltb_lt; lia).
    rewrite (mbind_run _ _ _ _ _ (register_quiet _)).
    rewrite (mbind_run _ _ _ _ _ (sub_init_quiet _ _)).
    rewrite (mbind_run _ _ _ _ _
               (the_sub_model_run (mkWorld _ _ (self w) _ _) sub Hsub)).
    rewrite (mbind_run _ _ _ _ _ (load_state_quiet _ _ _)).
    cbn [sub_id sub_parameters sub_item_embedding sub_encoder store fresh
         self clock calls].
    fold proxy. fold w4.
    rewrite (mbind_run _ _ _ _ _ Hrun5).
    rewrite (mbind_run _ _ _ _ _ Hrun6).
    rewrite (mbind_run _ _ _ _ _ (prepare_quiet _ _)).
    rewrite (mbind_run _ _ _ _ _ (training_step_quiet _ _ _)).
    rewrite (mbind_run _ _ _ _ _ (get_loader_quiet _)).
    cbn [self]. rewrite Hb6, Hloader, mbind_mret.
    rewrite (mbind_run _ _ _ _ _ (prepare_quiet _ _)).
    rewrite (mbind_run _ _ _ _ _
               (the_sub_model_run (mkWorld _ _ (self w6) _ _) sub
                  (eq_trans Hsub6 Hsub))).
    rewrite (mbind_run _ _ _ _ _ (training_step_quiet _ _ _)).
    rewrite mbind_mget.
    rewrite (meta_step_quiet _ _ _ _ mo)
      by (cbn [self]; rewrite Hmo6; exact Hmo).
    reflexivity. }
  split; [exact Hmb|]. split; [reflexivity|].
  cbn [store fresh self clock calls].
  split.
  { rewrite Hcalls6, Hcalls5. unfold w4. cbn [calls]. rewrite Hmm6.
    unfold outer_calls. cbn [sub_id proxy].
    replace (Z.to_nat (ds - 0)) with (Z.to_nat ds) by lia.
    rewrite <- !app_assoc. reflexivity. }
  split; [reflexivity|].
  split.
  { rewrite steps_of_outer, Nat.eqb_refl, length_take.
    cbn [length] in *. lia. }
  split.
  { rewrite steps_of_outer.
    replace (fresh w =? sub_id sub)%nat with false
      by (symmetry; apply Nat.eqb_neq; lia).
    reflexivity. }
  split; [apply meta_steps_outer|].
  intros l Hl Hnot.
  rewrite update_all_frame by exact Hnot.
  rewrite Hst6, (Hst5 l).
  2:{ intros Hin. apply elem_of_cons in Hin as [-> | Hin]; [lia|].
      apply list_elem_of_singleton in Hin. lia. }
  unfold w4. cbn [store].
  rewrite copy_state_frame.
  2:{ intros Hin. apply elem_of_cons in Hin as [-> | Hin]; [lia|].
      apply list_elem_of_singleton in Hin. lia. }
  rewrite update_all_frame.
  2:{ intros Hin. apply elem_of_cons in Hin as [-> | Hin]; [lia|].
      apply list_elem_of_singleton in Hin. lia. }
  rewrite !lookup_insert_ne by lia. reflexivity.
Qed.

(** *** The outer loop whatever its calls do *)

Section AnyCalls.
Variable raised : nat -> option exn.

Local Abbreviation follows := (follows raised).

Lemma follows_same {A} (m : M World A) :
  (forall w, clock (snd (m w)) = clock w /\ calls (snd (m w)) = calls w) ->
  follows m m.
Proof.
  intros H w. destruct (H w) as [Hc Hcalls]. rewrite Hc, Hcalls.
  repeat split; auto.
Qed.

Lemma follows_bind {A B} (m q : M World A) (f g : A -> M World B) :
  follows m q -> (forall a, follows (f a) (g a)) ->
  follows (mbind' m f) (mbind' q g).
Proof.
  intros Hm Hf w. destruct (Hm w) as (Hmono & Htick & Hok & Hquiet).
  unfold mbind'. destruct (q w) as [[e|a] w1] eqn:Hq; cbn [snd] in *.
  - split; [exact Hmono|]. split; [exact Htick|]. split.
    + intros b w' H. destruct (m w) as [[e'|a'] w1'] eqn:Hrun;
        [discriminate H|].
      specialize (Hok a' w1' eq_refl). discriminate Hok.
    + intros Hnone. now rewrite (Hquiet Hnone).
  - destruct (Hf a w1) as (Hmono1 & Htick1 & Hok1 & Hquiet1).
    split; [lia|]. split; [lia|]. split.
    + intros b w' H. destruct (m w) as [[e'|a'] w1'] eqn:Hrun;
        [discriminate H|].
      specialize (Hok a' w1' eq_refl). inversion Hok; subst.
      now apply Hok1.
    + intros Hnone. rewrite Hquiet by (intros t Ht; apply Hnone; lia).
      apply Hquiet1. intros t Ht. apply Hnone. lia.
Qed.

Lemma follows_act (c : mcall) (effect : World -> World) :
  follows (act raised c effect) (act quiet c effect).
Proof.
  intros w. unfold act, quiet. cbn [snd clock calls].
  split; [lia|]. split; [rewrite length_app; cbn; lia|].
  destruct (raised (clock w)) as [e|] eqn:Hr.
  - split; [intros a w' H; discriminate H|].
    intros Hnone. rewrite Hnone in Hr by lia. discriminate Hr.
  - split; [auto | reflexivity].
Qed.

Lemma follows_register :
  follows (Meta._register_sub_model default_weights raised)
    (Meta._register_sub_model default_weights quiet).
Proof.
  intros w. unfold Meta._register_sub_model, quiet. cbn [snd clock calls].
  split; [lia|]. split; [rewrite length_app; cbn; lia|].
  destruct (raised (clock w)) as [e|] eqn:Hr.
  - split; [intros a w' H; discriminate H|].
    intros Hnone. rewrite Hnone in Hr by lia. discriminate Hr.
  - split; [auto | reflexivity].
Qed.

Lemma follows_optimizer_step (m : SubModel) :
  follows (optimizer_step update raised m) (optimizer_step update quiet m).
Proof.
  unfold optimizer_step. destruct (sub_optimizer m) as [ps|].
  - intros w.
    exact (follows_act (OptimizerStep (sub_id m))
             (on_store (update_all (update (clock w)) ps)) w).
  - now apply follows_same.
Qed.

Lemma follows_meta_step (v t : loss) (a p : list loc) :
  follows (meta_optimizer_step update raised v t a p)
    (meta_optimizer_step update quiet v t a p).
Proof.
  intros w. unfold meta_optimizer_step.
  destruct (meta_optimizer (self w)) as [ps|].
  - exact (follows_act (MetaOptimizerStep v t a p)
             (on_store (update_all (update (clock w)) ps)) w).
  - cbn [snd]. repeat split; auto.
Qed.

Create HintDb follows.
#[local] Hint Resolve follows_act follows_register follows_optimizer_step
  follows_meta_step : follows.
#[local] Hint Extern 1 (Meta.follows _ ?m ?m) =>
  apply follows_same; intros ?; split; reflexivity : follows.
#[local] Hint Extern 3 (Meta.follows _ (mbind' _ _) (mbind' _ _)) =>
  apply follows_bind; [| intros ?] : follows.
#[local] Hint Extern 4 (Meta.follows _ (match ?x with _ => _ end) _) =>
  destruct x : follows.
#[local] Hint Extern 4 (Meta.follows _ (if ?x then _ else _) _) =>
  destruct x : follows.

Lemma follows_get_loader : follows (get_loader raised) (get_loader quiet).
Proof. unfold get_loader. auto with follows. Qed.

Lemma follows_prepare (b : batch) :
  follows (prepare raised b) (prepare quiet b).
Proof. unfold prepare. auto with follows. Qed.

Lemma follows_training_step (b : batch) (m : SubModel) :
  follows (training_step raised b m) (training_step quiet b m).
Proof. unfold training_step. auto with follows. Qed.

Lemma follows_sub_init (m : SubModel) :
  follows (Meta.sub_init_model normal_initialization raised m)
    (Meta.sub_init_model normal_initialization quiet m).
Proof. unfold Meta.sub_init_model. auto with follows. Qed.

Lemma follows_load_state (dst src : SubModel) :
  follows (load_state_from raised dst src) (load_state_from quiet dst src).
Proof. unfold load_state_from. auto with follows. Qed.

Lemma follows_the_sub_model : follows the_sub_model the_sub_model.
Proof.
  apply follows_same. intros w. unfold the_sub_model, mbind', mget.
  cbn. now destruct (sub_model (self w)).
Qed.

Lemma length_inner_calls (proxy : nat) (inner : list batch) :
  length (concat (map (inner_calls proxy) inner)) = (5 * length inner)%nat.
Proof.
  induction inner as [|b inner IH]; [reflexivity|].
  cbn [map concat]. rewrite length_app, IH. cbn. lia.
Qed.

Lemma length_outer_calls (proxy : nat) (sub : SubModel) (inner : list batch)
    (refill : bool) (mb tb : batch) (aux : list loc) :
  length (outer_calls proxy sub inner refill mb tb aux)
  = (9 + 5 * length inner + (if refill then 1 else 0))%nat.
Proof.
  unfold outer_calls. rewrite !length_app, length_inner_calls.
  destruct refill; cbn; lia.
Qed.

#[local] Hint Resolve follows_get_loader follows_prepare
  follows_training_step follows_sub_init follows_load_state
  follows_the_sub_model : follows.

Lemma follows_inner_loop (ds : Z) (proxy : SubModel) (loader : list batch) :
  forall idx,
    follows (inner_loop update raised ds proxy idx loader)
      (inner_loop update quiet ds proxy idx loader).
Proof.
  induction loader as [|b loader IH]; intros idx; cbn [inner_loop].
  - auto with follows.
  - destruct (idx >=? ds); [auto with follows|].
    do 5 (apply follows_bind; [auto with follows | intros ?]).
    apply IH.
Qed.

Lemma follows_next_meta_batch :
  follows (next_meta_batch raised) (next_meta_batch quiet).
Proof.
  unfold next_meta_batch.
  apply follows_bind; [auto with follows | intros w].
  destruct (metaloader_iter (self w)) as [[|b rest]|]; auto 10 with follows.
Qed.

Lemma follows_outter_loop :
  follows (Meta._outter_loop default_weights normal_initialization update
             raised) _outter_loop.
Proof.
  unfold Meta._outter_loop.
  do 3 (apply follows_bind; [auto with follows | intros ?]).
  match goal with |- Meta.follows _ (if ?c then _ else _) _ => destruct c end;
    [auto with follows|].
  do 4 (apply follows_bind; [auto with follows | intros ?]).
  apply follows_bind; [apply follows_inner_loop | intros ?].
  apply follows_bind; [apply follows_next_meta_batch | intros ?].
  do 3 (apply follows_bind; [auto with follows | intros ?]).
  apply follows_bind;
    [match goal with
     | |- Meta.follows _ (match ?l with _ => _ end) _ => destruct l
     end; auto with follows
    | intros ?].
  do 4 (apply follows_bind; [auto with follows | intros ?]).
  apply follows_meta_step.
Qed.

(** C8, as amended: an invocation of [_outter_loop] with
    [0 <= descent_step < len(meta_dataloader)] returns when none of the
    calls it makes raises, and whenever it returns it has built a proxy
    model, loaded the sub-model's state into it, stepped the proxy's
    optimizer exactly [descent_step] times, computed the validation
    loss on a meta-loader batch with the proxy and the training loss on
    the first train-loader batch with the sub-model, and passed both to
    one meta-optimizer step; the sub-model's optimizer is not stepped,
    and of the parameters that existed before only those of the meta
    module change.  The invocation makes [10 + 5 * descent_step] calls,
    and one more when the meta iterator is exhausted; the meta
    optimizer holds the parameters of the meta module, as [_init_model]
    leaves it. *)
Theorem outter_loop_bilevel_step (w : World) (ds : Z) (sub : SubModel)
    (it : list batch) :
  train_config (meta_config (self w)) "descent_step" = ok ds ->
  0 <= ds < Z.of_nat (length (train_batches (self w))) ->
  sub_model (self w) = Some sub ->
  (sub_id sub < fresh w)%nat ->
  meta_optimizer (self w) = Some (meta_module (self w)) ->
  metaloader_iter (self w) = Some it ->
  ((forall t,
      (clock w <= t
       < clock w + (10 + 5 * Z.to_nat ds + (if is_nil it then 1 else 0)))%nat ->
      raised t = None) ->
   exists w',
     Meta._outter_loop default_weights normal_initialization update raised w
     = (ok tt, w')) /\
  forall w',
    Meta._outter_loop default_weights normal_initialization update raised w
    = (ok tt, w') ->
    exists mb tb new,
      head (it ++ train_batches (self w)) = Some mb /\
      head (train_batches (self w)) = Some tb /\
      calls w' = calls w ++ new /\
      new = GetLoader
            :: outer_calls (fresh w) sub
                 (take (Z.to_nat ds) (train_batches (self w)))
                 (is_nil it) mb tb (meta_module (self w)) /\
      steps_of (fresh w) new = Z.to_nat ds /\
      steps_of (sub_id sub) new = 0%nat /\
      length (List.filter is_meta_step new) = 1%nat /\
      forall l : loc,
        (l < fresh w)%nat -> l ∉ meta_module (self w) ->
        store w' !! l = store w !! l.
Proof.
  intros Hds Hrange Hsub Hid Hmo Hit.
  destruct (outter_loop_quiet_run w ds sub (meta_module (self w)) it
              Hds Hrange Hsub Hid Hmo Hit)
    as (wq & mb & tb & new & Hrun & Hmb & Htb & Hcalls & Hnew & Hproxy
        & Hsubsteps & Hmeta & Hframe).
  destruct (follows_outter_loop w) as (_ & Htick & Hok & Hquiet).
  split.
  - intros Hnone. exists wq. rewrite Hquiet; [exact Hrun|].
    intros t Ht. apply Hnone. rewrite Hrun in Htick, Ht. cbn [snd] in Htick, Ht.
    rewrite Hcalls, length_app, Hnew in Htick. cbn [length] in Htick.
    rewrite length_outer_calls, length_take in Htick. lia.
  - intros w' Hrun'. apply Hok in Hrun'. rewrite Hrun in Hrun'.
    inversion Hrun'; subst w'. exists mb, tb, new. repeat split; assumption.
Qed.

End AnyCalls.

End OuterLoop.

(** X25: when [descent_step] is not below the length of the meta loader
    the assertion of line 121 fails: [_outter_loop] raises
    AssertionError having called nothing but [get_loader], and the
    store and the MetaModel are as before. *)
Lemma outter_loop_asserts
    (default_weights : loc -> weights)
    (normal_initialization : weights -> weights)
    (update : nat -> loc -> weights -> weights) (w : World) (ds : Z) :
  train_config (meta_config (self w)) "descent_step" = ok ds ->
  Z.of_nat (length (train_batches (self w))) <= ds ->
  _outter_loop default_weights normal_initialization update quiet w
  = (raise AssertionError,
     mkWorld (store w) (fresh w) (self w) (S (clock w))
       (calls w ++ [GetLoader])).
Proof.
  intros Hds Hlen. unfold _outter_loop.
  rewrite (mbind_run _ _ _ _ _ (get_loader_quiet w)).
  rewrite mbind_mget. cbn [self]. rewrite Hds, mbind_mlift_ok.
  replace (negb (ds <? Z.of_nat (length (train_batches (self w)))))
    with true by (symmetry; apply negb_true_iff, Z.ltb_ge; lia).
  reflexivity.
Qed.

(** *** Concrete runs *)

Lemma init_model_shares_item_embedding_witness :
  let w' := MetaSamples.ready_world in
  shares_embedding w' /\
  read_meta_embedding w' = read_sub_embedding w' /\
  (forall v,
     read_meta_embedding (write_sub_embedding v w') = Some v /\
     read_sub_embedding (write_meta_embedding v w') = Some v) /\
  (forall w1, shares_embedding w1 ->
     (forall nepoch b,
        shares_embedding
          (snd (training_batch MetaSamples.default_weights
                  MetaSamples.normal_initialization MetaSamples.update quiet
                  nepoch b w1))) /\
     shares_embedding
       (snd (_outter_loop MetaSamples.default_weights
               MetaSamples.normal_initialization MetaSamples.update quiet
               w1)) /\
     (forall nepoch,
        shares_embedding
          (snd (training_epoch MetaSamples.default_weights
                  MetaSamples.normal_initialization MetaSamples.update quiet
                  nepoch w1)))).
Proof.
  apply (init_model_shares_item_embedding MetaSamples.default_weights
           MetaSamples.normal_initialization MetaSamples.update quiet
           (MetaSamples.new_world 1) MetaSamples.ready_world).
  vm_compute. reflexivity.
Defined.

(** After a step of the sub-model's optimizer the MetaModel reads the
    updated embedding. *)
Example optimizer_step_seen_through_meta_model :
  let w := snd (optimizer_step MetaSamples.update quiet
                  (mkSubModel 0 (Some 0%nat) [1%nat] (Some [0; 1]%nat))
                  MetaSamples.ready_world) in
  read_meta_embedding MetaSamples.ready_world = Some [[0; 0]] /\
  read_meta_embedding w = Some [[4; 4]] /\
  read_sub_embedding w = Some [[4; 4]].
Proof. vm_compute. repeat split. Qed.

Lemma outter_loop_bilevel_step_witness :
  let w := MetaSamples.ready_world in
  let sub := mkSubModel 0 (Some 0%nat) [1%nat] (Some [0; 1]%nat) in
  let it := [MetaSamples.batch1; MetaSamples.batch2; MetaSamples.batch3] in
  meta_optimizer (self w) = Some (meta_module (self w)) /\
  exists w' mb tb new,
    _outter_loop MetaSamples.default_weights MetaSamples.normal_initialization
      MetaSamples.update quiet w = (ok tt, w') /\
    head (it ++ train_batches (self w)) = Some mb /\
    head (train_batches (self w)) = Some tb /\
    calls w' = calls w ++ new /\
    new = GetLoader
          :: outer_calls (fresh w) sub
               (take (Z.to_nat 1) (train_batches (self w)))
               (is_nil it) mb tb (meta_module (self w)) /\
    steps_of (fresh w) new = Z.to_nat 1 /\
    steps_of (sub_id sub) new = 0%nat /\
    length (List.filter is_meta_step new) = 1%nat /\
    forall l : loc,
      (l < fresh w)%nat -> l ∉ meta_module (self w) ->
      store w' !! l = store w !! l.
Proof.
  cbv zeta. split; [reflexivity|].
  destruct (outter_loop_bilevel_step MetaSamples.default_weights
              MetaSamples.normal_initialization MetaSamples.update quiet
              MetaSamples.ready_world 1
              (mkSubModel 0 (Some 0%nat) [1%nat] (Some [0; 1]%nat))
              [MetaSamples.batch1; MetaSamples.batch2; MetaSamples.batch3]
              eq_refl ltac:(cbn; lia) eq_refl ltac:(cbn; lia) eq_refl eq_refl)
    as [Hreturns Hstep].
  destruct (Hreturns (fun _ _ => eq_refl)) as [w' Hrun].
  destruct (Hstep w' Hrun) as (mb & tb & new & H).
  exists w', mb, tb, new. split; [exact Hrun | exact H].
Defined.

(** C8 as stated fails when [descent_step] is not below the length of
    the meta loader: with [descent_step = 3] and three batches the
    assertion of line 121 raises, no proxy model is built, no optimizer
    is stepped and the meta optimizer is not called. *)
Lemma outter_loop_assertion_counterexample :
  let r := _outter_loop MetaSamples.default_weights
             MetaSamples.normal_initialization MetaSamples.update quiet
             MetaSamples.strict_world in
  train_config (meta_config (self MetaSamples.strict_world)) "descent_step"
    = ok 3 /\
  length (train_batches (self MetaSamples.strict_world)) = 3%nat /\
  fst r = raise AssertionError /\
  calls (snd r) = calls MetaSamples.strict_world ++ [GetLoader] /\
  steps_of (fresh MetaSamples.strict_world) (calls (snd r)) = 0%nat /\
  List.filter is_meta_step (calls (snd r)) = [].
Proof. vm_compute. repeat split. Qed.

(** *** One training batch and the warm-up epochs *)

Lemma act_quiet (c : mcall) (effect : World -> World) (w : World) :
  act quiet c effect w
  = (ok tt, mkWorld (store (effect w)) (fresh (effect w)) (self (effect w))
              (S (clock w)) (calls w ++ [c])).
Proof. reflexivity. Qed.

Lemma loss_step_quiet (weighted : bool) (b : batch) (m : SubModel)
    (w : World) :
  (if weighted then training_step quiet b m
   else sub_training_step quiet b m) w
  = (ok (mkLoss b (sub_id m)),
     mkWorld (store w) (fresh w) (self w) (S (clock w))
       (calls w ++ [if weighted then TrainingStep b (sub_id m)
                    else SubTrainingStep b (sub_id m)])).
Proof. now destruct weighted. Qed.

Lemma set_step_counter_twice (c c' : Z) (m : MetaModel) :
  set_step_counter c' (set_step_counter c m) = set_step_counter c' m.
Proof. reflexivity. Qed.

Lemma set_step_counter_same (m : MetaModel) :
  set_step_counter (step_counter m) m = m.
Proof. now destruct m. Qed.

Section TrainingBatch.
Variable default_weights : loc -> weights.
Variable normal_initialization : weights -> weights.
Variable update : nat -> loc -> weights -> weights.

Local Abbreviation training_batch :=
  (training_batch default_weights normal_initialization update quiet).
Local Abbreviation training_batches :=
  (training_batches default_weights normal_initialization update quiet).
Local Abbreviation training_epoch :=
  (training_epoch default_weights normal_initialization update quiet).

Lemma optimizer_step_quiet (m : SubModel) (ps : list loc) (w : World) :
  sub_optimizer m = Some ps ->
  optimizer_step update quiet m w
  = (ok tt,
     mkWorld (update_all (update (clock w)) ps (store w)) (fresh w) (self w)
       (S (clock w)) (calls w ++ [OptimizerStep (sub_id m)])).
Proof. unfold optimizer_step. now intros ->. Qed.

(** Lines 99-111 when no call raises: the sub-model is trained on the
    batch and the step counter advances; what is left is the test of
    line 112. *)
Lemma training_batch_steps (nepoch warmup interval : Z) (b : batch)
    (sub : SubModel) (ps : list loc) (w : World) :
  train_config (meta_config (self w)) "warmup_epoch" = ok warmup ->
  train_config (meta_config (self w)) "interval" = ok interval ->
  sub_model (self w) = Some sub -> sub_optimizer sub = Some ps ->
  training_batch nepoch b w
  = mbind'
      (if interval =? 0 then mraise ZeroDivisionError
       else if (step_counter (self w) + 1) mod interval =? 0 then
         let! warmup0 :=
           mlift (train_config (meta_config (self w)) "warmup_epoch") in
         if warmup0 <? nepoch
         then _outter_loop default_weights normal_initialization update quiet
         else mret tt
       else mret tt)
      (fun _ => mret (mkLoss b (sub_id sub)))
      (mkWorld
         (update_all (update (S (S (S (S (clock w)))))) ps (store w))
         (fresh w)
         (set_step_counter (step_counter (self w) + 1) (self w))
         (S (S (S (S (S (clock w))))))
         (calls w ++ batch_calls (warmup <? nepoch) (sub_id sub) b)).
Proof.
  intros Hwarm Hint Hsub Hopt. unfold Meta.training_batch.
  rewrite (mbind_run _ _ _ _ _ (prepare_quiet b w)).
  rewrite (mbind_run _ _ _ _ _
             (the_sub_model_run (mkWorld _ _ (self w) _ _) sub Hsub)).
  rewrite Hopt.
  rewrite (mbind_run _ _ _ _ _ (act_quiet _ _ (mkWorld _ _ _ _ _))).
  cbn [store fresh self clock calls].
  rewrite mbind_mget. cbn [self]. rewrite Hwarm, mbind_mlift_ok.
  rewrite (mbind_run _ _ _ _ _
             (loss_step_quiet (warmup <? nepoch) b sub (mkWorld _ _ _ _ _))).
  cbn [store fresh self clock calls].
  rewrite (mbind_run _ _ _ _ _ (act_quiet _ _ (mkWorld _ _ _ _ _))).
  cbn [store fresh self clock calls].
  rewrite (mbind_run _ _ _ _ _
             (optimizer_step_quiet sub ps (mkWorld _ _ _ _ _) Hopt)).
  cbn [store fresh self clock calls].
  rewrite (mbind_run (mmodify _) _ _ _ tt eq_refl).
  unfold on_self. cbn [store fresh self clock calls].
  rewrite mbind_mget. cbn [self meta_config set_step_counter step_counter].
  rewrite Hint, mbind_mlift_ok. rewrite Hwarm.
  unfold batch_calls. rewrite <- !app_assoc. reflexivity.
Qed.

Lemma training_batch_plain (nepoch warmup interval : Z) (b : batch)
    (sub : SubModel) (ps : list loc) (w : World) :
  train_config (meta_config (self w)) "warmup_epoch" = ok warmup ->
  train_config (meta_config (self w)) "interval" = ok interval ->
  interval <> 0 ->
  sub_model (self w) = Some sub -> sub_optimizer sub = Some ps ->
  nepoch <= warmup \/ (step_counter (self w) + 1) mod interval <> 0 ->
  exists w',
    training_batch nepoch b w = (ok (mkLoss b (sub_id sub)), w') /\
    calls w' = calls w ++ batch_calls (warmup <? nepoch) (sub_id sub) b /\
    self w' = set_step_counter (step_counter (self w) + 1) (self w) /\
    fresh w' = fresh w /\
    forall l, l ∉ ps -> store w' !! l = store w !! l.
Proof.
  intros Hwarm Hint Hnz Hsub Hopt Hcase.
  rewrite (training_batch_steps nepoch warmup interval b sub ps w
             Hwarm Hint Hsub Hopt).
  replace (interval =? 0) with false by (symmetry; now apply Z.eqb_neq).
  assert (Hskip : forall W : World,
    (if (step_counter (self w) + 1) mod interval =? 0
     then
       let! warmup0 :=
         mlift (train_config (meta_config (self w)) "warmup_epoch") in
       if warmup0 <? nepoch
       then _outter_loop default_weights normal_initialization update quiet
       else mret tt
     else mret tt) W = (ok tt, W)).
  { intros W.
    destruct (Z.eqb_spec ((step_counter (self w) + 1) mod interval) 0)
      as [Hz|Hz]; [|reflexivity].
    destruct Hcase as [Hle|Hne]; [|contradiction].
    rewrite Hwarm, mbind_mlift_ok.
    replace (warmup <? nepoch) with false
      by (symmetry; apply Z.ltb_ge; lia).
    reflexivity. }
  rewrite (mbind_run _ _ _ _ tt (Hskip _)).
  eexists. split; [reflexivity|].
  cbn [store fresh self clock calls]. repeat split.
  intros l Hl. now apply update_all_frame.
Qed.

Lemma training_batches_warmup (nepoch warmup interval : Z)
    (sub : SubModel) (ps : list loc) (loader : list batch) :
  interval <> 0 -> nepoch <= warmup -> sub_optimizer sub = Some ps ->
  forall w,
    train_config (meta_config (self w)) "warmup_epoch" = ok warmup ->
    train_config (meta_config (self w)) "interval" = ok interval ->
    sub_model (self w) = Some sub ->
    exists w',
      training_batches nepoch loader w
        = (ok (map (fun b => mkLoss b (sub_id sub)) loader), w') /\
      calls w'
        = calls w ++ concat (map (batch_calls false (sub_id sub)) loader) /\
      self w'
        = set_step_counter
            (step_counter (self w) + Z.of_nat (length loader)) (self w) /\
      fresh w' = fresh w /\
      forall l, l ∉ ps -> store w' !! l = store w !! l.
Proof.
  intros Hnz Hle Hopt.
  induction loader as [|b loader IH]; intros w Hwarm Hint Hsub.
  - exists w. cbn. rewrite app_nil_r, Z.add_0_r, set_step_counter_same.
    repeat split.
  - destruct (training_batch_plain nepoch warmup interval b sub ps w
                Hwarm Hint Hnz Hsub Hopt (or_introl Hle))
      as (w1 & Hr1 & Hc1 & Hs1 & Hf1 & Hst1).
    destruct (IH w1) as (w2 & Hr2 & Hc2 & Hs2 & Hf2 & Hst2);
      [now rewrite Hs1 | now rewrite Hs1 | now rewrite Hs1 |].
    exists w2. cbn [Meta.training_batches map].
    rewrite (mbind_run _ _ _ _ _ Hr1), (mbind_run _ _ _ _ _ Hr2).
    split; [reflexivity|]. split; [|split; [|split]].
    + rewrite Hc2, Hc1.
      replace (warmup <? nepoch) with false
        by (symmetry; apply Z.ltb_ge; lia).
      cbn [concat map]. now rewrite <- app_assoc.
    + rewrite Hs2, Hs1, set_step_counter_twice.
      cbn [step_counter set_step_counter length]. f_equal. lia.
    + congruence.
    + intros l Hl. now rewrite (Hst2 l Hl), (Hst1 l Hl).
Qed.

(** X16: in a warm-up epoch ([nepoch <= warmup_epoch]) in which no call
    raises, [training_epoch] trains the sub-model once on every batch
    of the loader with the sub-model's own loss, returns one loss per
    batch and advances [step_counter] by the number of batches; the
    weighted loss, the outer loop and the meta optimizer are not used,
    nothing else of the MetaModel changes, and only the parameters held
    by the sub-model's optimizer are written. *)
Theorem training_epoch_warmup (nepoch warmup interval : Z)
    (sub : SubModel) (ps : list loc) (w : World) :
  train_config (meta_config (self w)) "warmup_epoch" = ok warmup ->
  train_config (meta_config (self w)) "interval" = ok interval ->
  interval <> 0 -> nepoch <= warmup ->
  sub_model (self w) = Some sub -> sub_optimizer sub = Some ps ->
  exists w',
    training_epoch nepoch w
      = (ok (map (fun b => mkLoss b (sub_id sub)) (train_batches (self w))),
         w') /\
    calls w'
      = calls w ++ GetLoader
          :: concat (map (batch_calls false (sub_id sub))
                       (train_batches (self w))) /\
    self w'
      = set_step_counter
          (step_counter (self w)
           + Z.of_nat (length (train_batches (self w)))) (self w) /\
    forall l, l ∉ ps -> store w' !! l = store w !! l.
Proof.
  intros Hwarm Hint Hnz Hle Hsub Hopt. unfold Meta.training_epoch.
  rewrite (mbind_run _ _ _ _ _ (get_loader_quiet w)).
  destruct (training_batches_warmup nepoch warmup interval sub ps
              (train_batches (self w)) Hnz Hle Hopt
              (mkWorld (store w) (fresh w) (self w) (S (clock w))
                 (calls w ++ [GetLoader])) Hwarm Hint Hsub)
    as (w' & Hr & Hc & Hs & _ & Hst).
  exists w'. split; [exact Hr|]. cbn [calls self store] in Hc, Hs, Hst.
  split; [|split; [exact Hs | exact Hst]].
  rewrite Hc, <- app_assoc. reflexivity.
Qed.

(** X17: after the warm-up, a batch that does not bring [step_counter]
    to a multiple of [interval] trains the sub-model with the
    MetaModel's weighted loss and does not enter the outer loop. *)
Theorem training_batch_between_outer_loops (nepoch warmup interval : Z)
    (b : batch) (sub : SubModel) (ps : list loc) (w : World) :
  train_config (meta_config (self w)) "warmup_epoch" = ok warmup ->
  train_config (meta_config (self w)) "interval" = ok interval ->
  interval <> 0 -> warmup < nepoch ->
  (step_counter (self w) + 1) mod interval <> 0 ->
  sub_model (self w) = Some sub -> sub_optimizer sub = Some ps ->
  exists w',
    training_batch nepoch b w = (ok (mkLoss b (sub_id sub)), w') /\
    calls w' = calls w ++ batch_calls true (sub_id sub) b /\
    self w' = set_step_counter (step_counter (self w) + 1) (self w) /\
    forall l, l ∉ ps -> store w' !! l = store w !! l.
Proof.
  intros Hwarm Hint Hnz Hlt Hmod Hsub Hopt.
  destruct (training_batch_plain nepoch warmup interval b sub ps w
              Hwarm Hint Hnz Hsub Hopt (or_intror Hmod))
    as (w' & Hr & Hc & Hs & _ & Hst).
  exists w'. split; [exact Hr|]. split; [|split; assumption].
  rewrite Hc. now replace (warmup <? nepoch) with true
    by (symmetry; apply Z.ltb_lt; lia).
Qed.

(** X18: with [interval = 0] the test of line 112 divides by zero: the
    first batch raises ZeroDivisionError, but only after the sub-model
    has been trained on it and [step_counter] has advanced. *)
Theorem training_batch_zero_interval (nepoch warmup : Z)
    (b : batch) (sub : SubModel) (ps : list loc) (w : World) :
  train_config (meta_config (self w)) "warmup_epoch" = ok warmup ->
  train_config (meta_config (self w)) "interval" = ok 0 ->
  sub_model (self w) = Some sub -> sub_optimizer sub = Some ps ->
  exists w',
    training_batch nepoch b w = (raise ZeroDivisionError, w') /\
    calls w' = calls w ++ batch_calls (warmup <? nepoch) (sub_id sub) b /\
    step_counter (self w') = step_counter (self w) + 1.
Proof.
  intros Hwarm Hint Hsub Hopt.
  rewrite (training_batch_steps nepoch warmup 0 b sub ps w
             Hwarm Hint Hsub Hopt).
  eexists. split; [reflexivity|]. split; reflexivity.
Qed.

End TrainingBatch.

Lemma training_epoch_warmup_witness :
  exists w',
    training_epoch MetaSamples.default_weights
      MetaSamples.normal_initialization MetaSamples.update quiet 0
      MetaSamples.ready_world
    = (ok [mkLoss MetaSamples.batch1 0; mkLoss MetaSamples.batch2 0;
           mkLoss MetaSamples.batch3 0], w') /\
    step_counter (self w') = 3.
Proof.
  destruct (training_epoch_warmup MetaSamples.default_weights
              MetaSamples.normal_initialization MetaSamples.update
              0 0 2 (mkSubModel 0 (Some 0%nat) [1%nat] (Some [0; 1]%nat))
              [0; 1]%nat MetaSamples.ready_world
              eq_refl eq_refl ltac:(lia) ltac:(lia) eq_refl eq_refl)
    as (w' & Hr & _ & Hs & _).
  exists w'. split; [exact Hr|]. now rewrite Hs.
Defined.

Lemma training_batch_between_outer_loops_witness :
  exists w',
    training_batch MetaSamples.default_weights
      MetaSamples.normal_initialization MetaSamples.update quiet 1
      MetaSamples.batch2 MetaSamples.ready_world
    = (ok (mkLoss MetaSamples.batch2 0), w') /\
    calls w'
    = calls MetaSamples.ready_world ++ batch_calls true 0 MetaSamples.batch2.
Proof.
  destruct (training_batch_between_outer_loops MetaSamples.default_weights
              MetaSamples.normal_initialization MetaSamples.update
              1 0 2 MetaSamples.batch2
              (mkSubModel 0 (Some 0%nat) [1%nat] (Some [0; 1]%nat))
              [0; 1]%nat MetaSamples.ready_world
              eq_refl eq_refl ltac:(lia) ltac:(lia)
              ltac:(vm_compute; discriminate) eq_refl eq_refl)
    as (w' & Hr & Hc & _).
  exists w'. split; [exact Hr | exact Hc].
Defined.

Lemma training_batch_zero_interval_witness :
  exists w',
    training_batch MetaSamples.default_weights
      MetaSamples.normal_initialization MetaSamples.update quiet 0
      MetaSamples.batch1 ExtraSamples.zero_interval_world
    = (raise ZeroDivisionError, w') /\
    step_counter (self w') = 1.
Proof.
  destruct (training_batch_zero_interval MetaSamples.default_weights
              MetaSamples.normal_initialization MetaSamples.update
              0 0 MetaSamples.batch1
              (mkSubModel 0 (Some 0%nat) [1%nat] (Some [0; 1]%nat))
              [0; 1]%nat ExtraSamples.zero_interval_world
              eq_refl eq_refl eq_refl eq_refl)
    as (w' & Hr & _ & Hs).
  exists w'. split; [exact Hr | exact Hs].
Defined.

Lemma outter_loop_asserts_witness :
  _outter_loop MetaSamples.default_weights MetaSamples.normal_initialization
    MetaSamples.update quiet MetaSamples.strict_world
  = (raise AssertionError,
     mkWorld (store MetaSamples.strict_world)
       (fresh MetaSamples.strict_world) (self MetaSamples.strict_world)
       (S (clock MetaSamples.strict_world))
       (calls MetaSamples.strict_world ++ [GetLoader])).
Proof.
  apply (outter_loop_asserts MetaSamples.default_weights
           MetaSamples.normal_initialization MetaSamples.update
           MetaSamples.strict_world 3).
  - reflexivity.
  - cbn. lia.
Defined.

End MetaFacts.
